(** * Shipyard: a shallow embedding of the compilation pipeline

    This development embeds the parts of the Shipyard compiler
    (src/shipyard) that its specification makes claims about:

    - [mangle.py]: name mangling, demangling and signature matching;
    - [call_stack.py]: activation records and the call stack;
    - [duration.py], [setup/internal.py]: durations and frames;
    - [passes/interpreter.py], [passes/timing_constraints.py]: the
      tree-walking evaluator and its timing-checking subclass;
    - [passes/remove_unused.py]: the dead-code elimination pass.

    Conventions.  Python [str] is [string]; [int] is [Z]; a [dict] is a
    [gmap] or, where insertion order is observable, an association list;
    a raised exception is the [Raise] outcome of the [result] type.
    Mutable objects that the source shares by reference (frames,
    durations, the calibration scope) live in explicit stores.

    Numbers.  The interpreter, the timing checker and the scores of the
    signature matching hold a [float] as the exact rational [Q]: what is
    proved of them is stated so that it does not depend on rounding.
    [Duration.set_unit], [Frame.advance_to] and the phase wrap of
    [set_phase] and [shift_phase], whose results do depend on rounding,
    are embedded over the binary64 numbers of the kernel (module
    [Binary64]). *)

From Stdlib Require Import String Ascii List ZArith QArith Qround Lia Lqa Bool.
From Stdlib Require Import DecimalString Decimal DecimalNat DecimalZ.
From Stdlib Require PrimFloat FloatOps SpecFloat.
From stdpp Require Import base gmap strings list.

Set Warnings "-register-all".

Open Scope string_scope.
Open Scope Z_scope.

(** ** Outcomes of a Python call *)

(** [compiler_error.ErrorCode]. *)
Inductive ErrorCode : Type :=
| ID_NOT_FOUND
| DUPLICATE_ID
| NOT_IN_GLOBAL_SCOPE
| INVALID_DEFCAL_ARGUMENT
| EXPRESSION_IN_DEFCAL
| INVALID_GATECALL_ARGUMENT
| UNHANDLED
| UNDETERMINED_CALL
| NO_SEQC_STATEMENT
| COMPILE_OUT
| PORT_NOT_FOUND
| INSTRUMENT_NOT_FOUND
| INPUT_NOT_FOUND
| OUTPUT_NOT_SUPPORTED
| INPUT_TYPE_NOT_SUPPORTED
| INVALID_ARGUMENT
| INVALID_WAVEFORM
| INCLUDE_ERROR.

(** The exceptions the embedded code raises: Python's built-in ones and
    the [Error] hierarchy of [compiler_error.py] (an error code and a
    message). *)
Inductive exn : Type :=
| KeyError (msg : string)
| IndexError
| ValueError (msg : string)
| TypeError
| ZeroDivisionError
| NotImplementedError
| AssertionError
| Error (code : ErrorCode) (msg : string)
| SemanticError (code : ErrorCode) (msg : string)
| OverflowError.

(** A call returns a value, raises, runs out of the fuel that bounds the
    recursion of the embedding, or leaves the fragment of Python that the
    embedding covers ([Unmodelled]: nothing is claimed about such runs). *)
Inductive result (A : Type) : Type :=
| Ok (a : A)
| Raise (e : exn)
| OutOfFuel
| Unmodelled.

Arguments Ok {A} a.
Arguments Raise {A} e.
Arguments OutOfFuel {A}.
Arguments Unmodelled {A}.

Definition bind {A B : Type} (r : result A) (k : A -> result B) : result B :=
  match r with
  | Ok a => k a
  | Raise e => Raise e
  | OutOfFuel => OutOfFuel
  | Unmodelled => Unmodelled
  end.

Notation "'let*' x ':=' r 'in' k" := (bind r (fun x => k))
  (at level 10, x pattern, r at level 100, k at level 200).

(** ** Python strings *)

Module PyStr.

(** [c.isdigit()] on the ASCII range. *)
Definition isdigit (c : ascii) : bool :=
  let n := nat_of_ascii c in (48 <=? n)%nat && (n <=? 57)%nat.

(** [s[n:]]. *)
Fixpoint drop (n : nat) (s : string) : string :=
  match n, s with
  | O, _ => s
  | S n', String _ s' => drop n' s'
  | S _, EmptyString => EmptyString
  end.

(** [s.startswith(p)]. *)
Fixpoint startswith (p s : string) : bool :=
  match p, s with
  | EmptyString, _ => true
  | String a p', String b s' => if Ascii.eqb a b then startswith p' s' else false
  | String _ _, EmptyString => false
  end.

(** The leftmost occurrence of [sep] in [s]: the text before it and the
    text after it ([s.partition(sep)] when [sep] occurs). *)
Fixpoint find (sep s : string) : option (string * string) :=
  if startswith sep s then Some (EmptyString, drop (String.length sep) s)
  else match s with
       | EmptyString => None
       | String c s' =>
           match find sep s' with
           | Some (a, b) => Some (String c a, b)
           | None => None
           end
       end.

(** [term in s]. *)
Definition contains (term s : string) : bool :=
  match find term s with Some _ => true | None => false end.

(** [c in s] for one character. *)
Fixpoint has_char (c : ascii) (s : string) : bool :=
  match s with
  | EmptyString => false
  | String d s' => Ascii.eqb c d || has_char c s'
  end.

(** [s.split(sep)] for a non-empty separator: cut at the leftmost
    occurrence and go on in the remainder.  The remainder is shorter, so
    [length s] rounds are enough. *)
Fixpoint split_fuel (n : nat) (sep s : string) : list string :=
  match n with
  | O => [s]
  | S n' =>
      match find sep s with
      | None => [s]
      | Some (a, b) => a :: split_fuel n' sep b
      end
  end.

Definition split (sep s : string) : list string :=
  split_fuel (String.length s) sep s.

(** [sep.join(l)]. *)
Fixpoint join (sep : string) (l : list string) : string :=
  match l with
  | [] => EmptyString
  | [x] => x
  | x :: l' => x ++ sep ++ join sep l'
  end.

(** [l[i]], raising [IndexError] out of range (non-negative [i]). *)
Definition index {A : Type} (l : list A) (i : nat) : result A :=
  match nth_error l i with
  | Some x => Ok x
  | None => Raise IndexError
  end.

(** [str(n)] for a length. *)
Definition str_nat (n : nat) : string :=
  NilEmpty.string_of_uint (Nat.to_uint n).

(** [str(z)] for an [int]. *)
Definition str_int (z : Z) : string :=
  NilZero.string_of_int (Z.to_int z).

End PyStr.

(** ** utilities.py *)

Module Utilities.
Import PyStr.

(** The characters [str.strip] removes, on the ASCII range. *)
Definition isspace (c : ascii) : bool :=
  let n := nat_of_ascii c in
  (n =? 32)%nat || ((9 <=? n)%nat && (n <=? 13)%nat)
  || ((28 <=? n)%nat && (n <=? 31)%nat).

Fixpoint lstrip (s : string) : string :=
  match s with
  | String c s' => if isspace c then lstrip s' else s
  | EmptyString => s
  end.

Fixpoint all_space (s : string) : bool :=
  match s with
  | String c s' => isspace c && all_space s'
  | EmptyString => true
  end.

Definition is_sign (c : ascii) : bool :=
  Ascii.eqb c "+" || Ascii.eqb c "-".

Definition skip_sign (s : string) : string :=
  match s with
  | String c s' => if is_sign c then s' else s
  | EmptyString => s
  end.

(** After one digit: [(["_"] digit)*]; returns what is left. *)
Fixpoint digits_tail (s : string) : string :=
  match s with
  | String c s' =>
      if isdigit c then digits_tail s'
      else if Ascii.eqb c "_" then
        match s' with
        | String d s'' => if isdigit d then digits_tail s'' else s
        | EmptyString => s
        end
      else s
  | EmptyString => s
  end.

(** [digitpart ::= digit (["_"] digit)*]. *)
Definition digitpart (s : string) : option string :=
  match s with
  | String c s' => if isdigit c then Some (digits_tail s') else None
  | EmptyString => None
  end.

(** [number ::= [digitpart] "." digitpart | digitpart ["."]]. *)
Definition number (s : string) : option string :=
  match digitpart s with
  | Some (String "." r) =>
      match digitpart r with
      | Some r' => Some r'
      | None => Some r
      end
  | Some r => Some r
  | None =>
      match s with
      | String "." r => digitpart r
      | _ => None
      end
  end.

(** [exponent ::= ("e" | "E") ["+" | "-"] digitpart], optional. *)
Definition exponent (s : string) : option string :=
  match s with
  | String c r =>
      if Ascii.eqb c "e" || Ascii.eqb c "E" then digitpart (skip_sign r)
      else Some s
  | EmptyString => Some s
  end.

Definition lower (c : ascii) : ascii :=
  let n := nat_of_ascii c in
  if (65 <=? n)%nat && (n <=? 90)%nat then ascii_of_nat (n + 32) else c.

Fixpoint lower_str (s : string) : string :=
  match s with
  | String c s' => String (lower c) (lower_str s')
  | EmptyString => EmptyString
  end.

(** ["inf"], ["infinity"] and ["nan"] in any case. *)
Definition special (s : string) : option string :=
  let l := lower_str s in
  if startswith "infinity" l then Some (drop 8 s)
  else if startswith "inf" l then Some (drop 3 s)
  else if startswith "nan" l then Some (drop 3 s)
  else None.

(** Does [float(string)] succeed?  The grammar of the built-in [float]
    on ASCII text: surrounding white space, a sign, then a decimal
    number with an optional exponent, or an infinity or a NaN. *)
Definition float_parses (s : string) : bool :=
  let body := skip_sign (lstrip s) in
  match special body with
  | Some r => all_space r
  | None =>
      match number body with
      | Some r =>
          match exponent r with
          | Some r' => all_space r'
          | None => false
          end
      | None => false
      end
  end.

(** [is_number]: [True] when [float(string)] does not raise. *)
Definition is_number (string : string) : bool := float_parses string.

End Utilities.

(** ** mangle.py *)

(** [FunctionSignature]: the pydantic model of a call or definition
    signature. *)
Record FunctionSignature : Type := mkFunctionSignature {
  fs_name : string;
  fs_params : list string;
  fs_qubits : list string;
  fs_return_type : string
}.

Module MangledSignature.
Import PyStr Utilities.

(** The [while name_and_length[length].isdigit()] loop of [name]
    followed by the slice [name_and_length[length:]]: running off the
    end of the string is an [IndexError]. *)
Fixpoint skip_digits (name_and_length : string) : result string :=
  match name_and_length with
  | EmptyString => Raise IndexError
  | String c rest =>
      if isdigit c then skip_digits rest else Ok name_and_length
  end.

(** [MangledSignature.name]. *)
Definition name (signature : string) : result string :=
  let* name_remains := index (split "_PN" signature) 0 in
  let* name_and_length := index (split "_ZN" name_remains) 1 in
  skip_digits name_and_length.

(** [MangledSignature.params]. *)
Definition params (signature : string) : result (list string) :=
  let* name_removed := index (split "_PN" signature) 1 in
  let* just_params := index (split "_QN" name_removed) 0 in
  Ok (tl (split "_" just_params)).

(** [MangledSignature.qubits]. *)
Definition qubits (signature : string) : result (list string) :=
  let* name_removed := index (split "_QN" signature) 1 in
  let* just_params := index (split "_R" name_removed) 0 in
  Ok (tl (split "_" just_params)).

(** [MangledSignature.return_type]. *)
Definition return_type (signature : string) : result string :=
  index (split "_R" signature) 1.

(** One round of the parameter loop of [match]: what is added to
    [matches] for the call's [param] against the definition's
    [f_param]; [n_params] is [len(params)]. *)
Definition param_score (n_params : nat) (param f_param : string) : Q :=
  if is_number f_param then
    if String.eqb param f_param then 1 else - (100)
  else if is_number param then 1 / inject_Z (Z.of_nat n_params + 1)
  else 0.

(** One round of the qubit loop of [match]. *)
Definition qubit_score (n_params n_qubits : nat) (qubit f_qubit : string) : Q :=
  if String.eqb qubit f_qubit
     || (negb (has_char "$" qubit) && negb (has_char "$" f_qubit)) then 1
  else if has_char "$" qubit && negb (has_char "$" f_qubit) then
    1 / inject_Z ((Z.of_nat n_params + 1) * (Z.of_nat n_qubits + 1))
  else if has_char "$" f_qubit then - (1000)
  else 0.

(** [for x, y in zip(xs, ys): matches += score x y]. *)
Fixpoint zip_sum (score : string -> string -> Q) (xs ys : list string)
    (matches : Q) : Q :=
  match xs, ys with
  | x :: xs', y :: ys' => zip_sum score xs' ys' (matches + score x y)
  | _, _ => matches
  end.

(** [MangledSignature.match]. *)
Definition match_ (signature : string) (params_ qubits_ : list string)
    : result Q :=
  let matches := 0%Q in
  let* f_params := params signature in
  let matches := zip_sum (param_score (List.length params_)) params_ f_params matches in
  let* f_qubits := qubits signature in
  let matches :=
    zip_sum (qubit_score (List.length params_) (List.length qubits_))
      qubits_ f_qubits matches in
  Ok matches.

End MangledSignature.

Module FunctionSig.
Import PyStr.

(** [FunctionSignature.mangle]. *)
Definition mangle (self : FunctionSignature) : string :=
  ("_ZN" ++ str_nat (String.length (fs_name self)) ++ fs_name self)
  ++ ("_PN" ++ str_nat (List.length (fs_params self)))
  ++ (if (0 <? List.length (fs_params self))%nat then "_" else "")
  ++ join "_" (fs_params self)
  ++ ("_QN" ++ str_nat (List.length (fs_qubits self)))
  ++ (if (0 <? List.length (fs_qubits self))%nat then "_" else "")
  ++ join "_" (fs_qubits self)
  ++ ("_R" ++ fs_return_type self).

(** The local [filter_symbols] of [match]. *)
Definition filter_symbols (symbols : list string) (term : string) : list string :=
  List.filter (fun symbol => contains term symbol) symbols.

(** [d[k] = v] on a [dict] kept in insertion order. *)
Fixpoint dict_set (d : list (string * Q)) (k : string) (v : Q) : list (string * Q) :=
  match d with
  | [] => [(k, v)]
  | (k', v') :: d' =>
      if String.eqb k' k then (k', v) :: d' else (k', v') :: dict_set d' k v
  end.

(** The dictionary comprehension
    [{symbol: MangledSignature(signature=symbol).match(...) for symbol in f_symbols}]. *)
Fixpoint match_dict_of (self : FunctionSignature) (f_symbols : list string)
    (d : list (string * Q)) : result (list (string * Q)) :=
  match f_symbols with
  | [] => Ok d
  | symbol :: rest =>
      let* v := MangledSignature.match_ symbol (fs_params self) (fs_qubits self) in
      match_dict_of self rest (dict_set d symbol v)
  end.

(** [max(values)] of a non-empty list, from its first element on. *)
Definition max_q (v0 : Q) (vs : list Q) : Q :=
  fold_left (fun m v => if Qle_bool m v then v else m) vs v0.

Definition max_values (d : list (string * Q)) : Q :=
  match d with
  | [] => 0%Q
  | (_, v) :: d' => max_q v (List.map snd d')
  end.

(** [FunctionSignature.match]. *)
Definition match_ (self : FunctionSignature) (mangled_names : list string)
    : result (list string) :=
  let f_symbols :=
    filter_symbols mangled_names
      ("_ZN" ++ str_nat (String.length (fs_name self)) ++ fs_name self) in
  let f_symbols :=
    filter_symbols f_symbols ("_PN" ++ str_nat (List.length (fs_params self))) in
  let f_symbols :=
    filter_symbols f_symbols ("_QN" ++ str_nat (List.length (fs_qubits self))) in
  let* match_dict := match_dict_of self f_symbols [] in
  let match_dict := List.filter (fun kv => Qle_bool 0 (snd kv)) match_dict in
  let best_matched_symbols :=
    List.map fst
      (List.filter (fun kv => Qeq_bool (snd kv) (max_values match_dict)) match_dict) in
  Ok best_matched_symbols.

End FunctionSig.

(** ** Monad of stateful calls *)

(** A method that mutates objects: the state it leaves is observable
    also when it raises (a [finally] block has run, an argument has been
    mutated), so the final state is returned with every outcome. *)
Definition M (S A : Type) : Type := S -> result A * S.

Definition ret {S A : Type} (a : A) : M S A := fun s => (Ok a, s).

Definition raise {S A : Type} (e : exn) : M S A := fun s => (Raise e, s).

Definition lift {S A : Type} (r : result A) : M S A := fun s => (r, s).

Definition bindM {S A B : Type} (m : M S A) (k : A -> M S B) : M S B :=
  fun s =>
    match m s with
    | (Ok a, s') => k a s'
    | (Raise e, s') => (Raise e, s')
    | (OutOfFuel, s') => (OutOfFuel, s')
    | (Unmodelled, s') => (Unmodelled, s')
    end.

Definition get {S : Type} : M S S := fun s => (Ok s, s).

Definition modify {S : Type} (f : S -> S) : M S unit := fun s => (Ok tt, f s).

(** [try: m finally: f]. *)
Definition finally {S A : Type} (m : M S A) (f : S -> S) : M S A :=
  fun s => let '(r, s') := m s in (r, f s').

Notation "'let!' x ':=' m 'in' k" := (bindM m (fun x => k))
  (at level 10, x pattern, m at level 100, k at level 200).

(** [for x in l: f x]. *)
Fixpoint for_each {S A : Type} (f : A -> M S unit) (l : list A) : M S unit :=
  match l with
  | [] => ret tt
  | x :: l' => let! _ := f x in for_each f l'
  end.

(** [[f x for x in l]]. *)
Fixpoint list_comp {S A B : Type} (f : A -> M S B) (l : list A) : M S (list B) :=
  match l with
  | [] => ret []
  | x :: l' => let! y := f x in let! ys := list_comp f l' in ret (y :: ys)
  end.

(** Addresses of mutable objects. *)
Abbreviation loc := nat.

(** ** duration.py *)

Module TimeUnits.
Inductive t : Type := dt | ns | us | ms | s.
End TimeUnits.

Abbreviation TimeUnits := TimeUnits.t.

(** [Duration], as the interpreter holds it. *)
Record Duration : Type := mkDuration {
  d_time : Q;
  d_unit : TimeUnits
}.

(** ** setup/internal.py *)

Inductive InstrumentType : Type :=
| HDAWG8 | HDAWG4 | SHFSG8 | SHFSG4 | SHFQA4 | SHFQA2
| SHFQC6 | SHFQC4 | SHFQC2 | SHFQC | PQSC.

Inductive CoreType : Type := HD | QA | SG.

Record Instrument : Type := mkInstrument {
  i_name : string;
  i_type : InstrumentType;
  i_serial : string
}.

Record Core : Type := mkCore {
  c_type : CoreType;
  c_index : Z;
  c_channels : list Z
}.

Record Port : Type := mkPort {
  p_name : string;
  p_instrument : Instrument;
  p_core : Core
}.

(** [Frame]: its [time] is a reference to a [Duration] object, which
    [advance_to] mutates in place and which [barrier] passes around. *)
Record Frame : Type := mkFrame {
  f_name : string;
  f_port : Port;
  f_frequency : Q;
  f_phase : Q;
  f_time : loc
}.

(** The objects on the heap: durations and frames, by address. *)
Record Heap : Type := mkHeap {
  durations : gmap nat Duration;
  frames : gmap nat Frame
}.

Definition set_duration (l : loc) (d : Duration) (h : Heap) : Heap :=
  {| durations := <[l := d]> (durations h); frames := frames h |}.

Definition set_frame (l : loc) (f : Frame) (h : Heap) : Heap :=
  {| durations := durations h; frames := <[l := f]> (frames h) |}.

(** Reading an object; an address that holds no object does not arise
    from Python code. *)
Definition load_duration (l : loc) : M Heap Duration :=
  fun h => match durations h !! l with
           | Some d => (Ok d, h)
           | None => (Unmodelled, h)
           end.

Definition load_frame (l : loc) : M Heap Frame :=
  fun h => match frames h !! l with
           | Some f => (Ok f, h)
           | None => (Unmodelled, h)
           end.

Module FrameM.

(** [Frame.set_phase]. *)
Definition set_phase (self : Frame) (phase : Q) : Frame :=
  {| f_name := f_name self; f_port := f_port self;
     f_frequency := f_frequency self; f_phase := phase;
     f_time := f_time self |}.

(** [Frame.shift_phase]. *)
Definition shift_phase (self : Frame) (phase : Q) : Frame :=
  set_phase self (f_phase self + phase).

(** [Frame.set_frequency]. *)
Definition set_frequency (self : Frame) (frequency : Q) : Frame :=
  {| f_name := f_name self; f_port := f_port self;
     f_frequency := frequency; f_phase := f_phase self;
     f_time := f_time self |}.

(** [Frame.shift_frequency]. *)
Definition shift_frequency (self : Frame) (frequency : Q) : Frame :=
  set_frequency self (f_frequency self + frequency).

End FrameM.

(** ** Binary64 arithmetic

    The time of a [Duration] is a Python [float], and what [set_unit]
    and [advance_to] store depends on the rounding of its products and
    quotients; so does the phase that [set_phase] and [shift_phase]
    store.  This module embeds these computations over the binary64
    numbers of the kernel, whose operations round to nearest, ties to
    even, as Python's do. *)

Module Binary64.
Import PrimFloat FloatOps SpecFloat.

(** A Python number: an [int] or a [float]. *)
Inductive number : Type :=
| PyInt (n : Z)
| PyFloat (x : float).

(** [float(n)]: the binary64 number nearest to the int.  (Python
    raises [OverflowError] on an int beyond the binary64 range; the
    ints met here are truncations of floats, which the conversion
    gives back exactly.) *)
Definition float_of_int (n : Z) : float :=
  SF2Prim (binary_normalize prec emax n 0 false).

(** The float as which a number enters a product, a quotient or a
    comparison with a float. *)
Definition to_float (a : number) : float :=
  match a with
  | PyInt n => float_of_int n
  | PyFloat x => x
  end.

(** [int(x)]: truncation towards zero. *)
Definition int (x : float) : result Z :=
  match Prim2SF x with
  | S754_zero _ => Ok 0
  | S754_infinity _ => Raise OverflowError
  | S754_nan => Raise (ValueError "cannot convert float NaN to integer")
  | S754_finite s m e =>
      let n := if 0 <=? e then Z.shiftl (Zpos m) e
               else Z.shiftr (Zpos m) (- e) in
      Ok (if s then - n else n)
  end.

(** C's [fmod]: the remainder of the division truncated towards zero,
    which is a binary64 number and has the sign of [x]. *)
Definition fmod (x y : float) : float :=
  match Prim2SF x, Prim2SF y with
  | S754_nan, _ | _, S754_nan => nan
  | S754_infinity _, _ => nan
  | _, S754_zero _ => nan
  | S754_zero _, _ => x
  | S754_finite _ _ _, S754_infinity _ => x
  | S754_finite sx mx ex, S754_finite _ my ey =>
      let e := Z.min ex ey in
      let r := (Zpos mx * 2 ^ (ex - e)) mod (Zpos my * 2 ^ (ey - e)) in
      SF2Prim (binary_normalize prec emax (if sx then - r else r) e sx)
  end.

(** [v % w] on floats ([float_rem] of CPython): the remainder takes
    the sign of [w]. *)
Definition mod_ (v w : float) : result float :=
  if eqb w zero then Raise ZeroDivisionError
  else
    let m := fmod v w in
    if negb (eqb m zero) then
      if xorb (ltb w zero) (ltb m zero) then Ok (m + w)%float else Ok m
    else Ok (if ltb w zero then neg_zero else zero).

(** *** duration.py *)

(** [TimeUnits.value]: 0.5e-9, 1e-9, 1e-6, 1e-3 and 1, as the binary64
    numbers that Python reads the literals as; [µs] is an alias of
    [us].  (The value of [s] is the int 1, which is 1.0 in a product
    or a quotient with a float.) *)
Definition unit_value (u : TimeUnits) : float :=
  match u with
  | TimeUnits.dt => 0x1.12e0be826d695p-31
  | TimeUnits.ns => 0x1.12e0be826d695p-30
  | TimeUnits.us => 0x1.0c6f7a0b5ed8dp-20
  | TimeUnits.ms => 0x1.0624dd2f1a9fcp-10
  | TimeUnits.s => 1
  end%float.

(** [Duration]: a new duration holds a float (the field is validated
    on construction); [advance_to] assigns an int to it. *)
Record Duration : Type := mkDuration {
  d_time : number;
  d_unit : TimeUnits
}.

(** [Duration.set_unit], as the new value of the object. *)
Definition set_unit (self : Duration) (unit : TimeUnits) : Duration :=
  {| d_time := PyFloat (to_float (d_time self) * unit_value (d_unit self)
                        / unit_value unit)%float;
     d_unit := unit |}.

(** [Duration._real_time]. *)
Definition _real_time (self : Duration) : float :=
  (to_float (d_time self) * unit_value (d_unit self))%float.

(** [Duration.__gt__] on two durations. *)
Definition gt (self other : Duration) : bool :=
  ltb (_real_time other) (_real_time self).

(** *** setup/internal.py *)

(** [Frame]: its [time] is a reference to a [Duration] object, which
    [advance_to] mutates in place. *)
Record Frame : Type := mkFrame {
  f_name : string;
  f_port : Port;
  f_frequency : float;
  f_phase : float;
  f_time : loc
}.

(** The objects on the heap: durations and frames, by address. *)
Record Heap : Type := mkHeap {
  durations : gmap nat Duration;
  frames : gmap nat Frame
}.

Definition set_duration (l : loc) (d : Duration) (h : Heap) : Heap :=
  {| durations := <[l := d]> (durations h); frames := frames h |}.

(** Reading an object; an address that holds no object does not arise
    from Python code. *)
Definition load_duration (l : loc) : M Heap Duration :=
  fun h => match durations h !! l with
           | Some d => (Ok d, h)
           | None => (Unmodelled, h)
           end.

Definition load_frame (l : loc) : M Heap Frame :=
  fun h => match frames h !! l with
           | Some f => (Ok f, h)
           | None => (Unmodelled, h)
           end.

(** [Frame.advance_to]: [self] and [duration] are the addresses of the
    frame and of the duration passed by the caller. *)
Definition advance_to (self duration : loc) : M Heap unit :=
  let! frame := load_frame self in
  (* duration.set_unit(self.time.unit) *)
  let! self_time := load_duration (f_time frame) in
  let! dur := load_duration duration in
  let! _ := modify (set_duration duration
                      (set_unit dur (d_unit self_time))) in
  (* if self.time > duration: raise ValueError *)
  let! self_time := load_duration (f_time frame) in
  let! dur := load_duration duration in
  if gt self_time dur then
    raise (ValueError "Cant advance current time")
  else
    (* self.time.time = int(duration.time * duration.unit.value
                            / self.time.unit.value) *)
    let! n := lift (int (to_float (d_time dur) * unit_value (d_unit dur)
                         / unit_value (d_unit self_time))%float) in
    modify (set_duration (f_time frame)
              {| d_time := PyInt n; d_unit := d_unit self_time |}).

(** *** passes/interpreter.py *)

(** [numpy.pi]. *)
Definition np_pi : float := 0x1.921fb54442d18p+1%float.

(** [(phase_val + np.pi) % (2 * np.pi) - np.pi], the phase that
    [set_phase] and [shift_phase] store. *)
Definition wrap_phase (phase_val : float) : result float :=
  let* m := mod_ (phase_val + np_pi)%float (2 * np_pi)%float in
  Ok (m - np_pi)%float.

End Binary64.

(** ** The abstract syntax tree (openpulse.ast)

    The node classes the embedded passes dispatch on.  Annotations and
    source spans are left out: no embedded pass reads them. *)

(** [ast.UnaryOperator]: the enumeration ["~ ! -"], numbered from 1. *)
Inductive UnaryOperator : Type := OpInvert | OpNot | OpNeg.

Definition unary_value (op : UnaryOperator) : Z :=
  match op with OpInvert => 1 | OpNot => 2 | OpNeg => 3 end.

(** [ast.BinaryOperator]: the enumeration
    ["> < >= <= == != && || | ^ & << >> + - * / % **"], numbered from 1. *)
Inductive BinaryOperator : Type :=
| OpGt | OpLt | OpGe | OpLe | OpEq | OpNe | OpAndAnd | OpOrOr
| OpBitOr | OpBitXor | OpBitAnd | OpShl | OpShr
| OpAdd | OpSub | OpMul | OpDiv | OpMod | OpPow.

Definition binary_value (op : BinaryOperator) : Z :=
  match op with
  | OpGt => 1 | OpLt => 2 | OpGe => 3 | OpLe => 4 | OpEq => 5 | OpNe => 6
  | OpAndAnd => 7 | OpOrOr => 8 | OpBitOr => 9 | OpBitXor => 10
  | OpBitAnd => 11 | OpShl => 12 | OpShr => 13 | OpAdd => 14 | OpSub => 15
  | OpMul => 16 | OpDiv => 17 | OpMod => 18 | OpPow => 19
  end.

(** [ast.AssignmentOperator]. *)
Inductive AssignmentOperator : Type :=
| AssignEq | AssignAdd | AssignSub | AssignMul | AssignDiv | AssignAnd
| AssignOr | AssignNot | AssignXor | AssignShl | AssignShr | AssignMod
| AssignPow.

Inductive expr : Type :=
| Identifier (name : string)
| IntegerLiteral (value : Z)
| FloatLiteral (value : Q)
| BooleanLiteral (value : bool)
| DurationLiteral (value : Q) (unit : TimeUnits)
| ArrayLiteral (values : list expr)
| UnaryExpression (op : UnaryOperator) (expression : expr)
| BinaryExpression (op : BinaryOperator) (lhs rhs : expr)
| FunctionCall (name : string) (arguments : list expr)
| RangeDefinition (start end_ step : option expr).

(** [ast.ClassicalType] and the openpulse types. *)
Inductive ctype : Type :=
| IntType (size : option expr)
| UintType (size : option expr)
| FloatType (size : option expr)
| ComplexType (base_type : option ctype)
| AngleType (size : option expr)
| BitType (size : option expr)
| BoolType
| ArrayType (base_type : ctype) (dimensions : list expr)
| DurationType
| StretchType
| PortType
| FrameType
| WaveformType.

(** [ast.QuantumMeasurement] on a qubit identifier. *)
Inductive QuantumMeasurement : Type :=
| mkQuantumMeasurement (qubit : string).

(** A position that holds an expression or a measurement
    ([Union[Expression, QuantumMeasurement]]). *)
Inductive rvalue : Type :=
| RExpr (e : expr)
| RMeasure (m : QuantumMeasurement).

(** An argument of a [SubroutineDefinition]. *)
Inductive sub_argument : Type :=
| SubClassicalArgument (type : ctype) (name : string)
| QuantumArgument (name : string) (size : option expr).

(** An argument of a [CalibrationDefinition]: a typed formal or an
    expression (a literal the definition is specialised to). *)
Inductive defcal_argument : Type :=
| ClassicalArgument (type : ctype) (name : string)
| ExpressionArgument (e : expr).

Inductive stmt : Type :=
| ExpressionStatement (expression : expr)
| ClassicalDeclaration (type : ctype) (identifier : string)
    (init_expression : option rvalue)
| ConstantDeclaration (type : ctype) (identifier : string)
    (init_expression : expr)
| ClassicalAssignment (lvalue : string) (op : AssignmentOperator)
    (rvalue_ : expr)
| SubroutineDefinition (name : string) (arguments : list sub_argument)
    (body : list stmt) (return_type : option ctype)
| CalibrationDefinition (name : string) (arguments : list defcal_argument)
    (qubits : list string) (return_type : option ctype) (body : list stmt)
| CalibrationStatement (body : list stmt)
| QuantumGate (name : string) (arguments : list expr) (qubits : list string)
| QuantumReset (qubits : string)
| QuantumMeasurementStatement (measure : QuantumMeasurement)
    (target : option string)
| ReturnStatement (expression : option rvalue)
| BranchingStatement (condition : expr) (if_block else_block : list stmt)
| WhileLoop (while_condition : expr) (block : list stmt)
| ForInLoop (type : ctype) (identifier : string) (set_declaration : expr)
    (block : list stmt)
| DelayInstruction (duration : expr) (qubits : list string).

Record Program : Type := mkProgram {
  statements : list stmt
}.

(** ** Visitors shared by the passes (visitors/) and the Mangler *)

Section Mangler.

(** [str(x)] of a Python float: the shortest-repr printer of the
    interpreter, taken as given. *)
Variable str_float : Q -> string.

Definition unit_name (u : TimeUnits) : string :=
  match u with
  | TimeUnits.dt => "dt"
  | TimeUnits.ns => "ns"
  | TimeUnits.us => "us"
  | TimeUnits.ms => "ms"
  | TimeUnits.s => "s"
  end.

(** [TypeVisitor._visit_type_node]: the class name in upper case up to
    ["TYPE"]. *)
Definition visit_type_node (t : ctype) : string :=
  match t with
  | IntType _ => "INT"
  | UintType _ => "UINT"
  | FloatType _ => "FLOAT"
  | ComplexType _ => "COMPLEX"
  | AngleType _ => "ANGLE"
  | BitType _ => "BIT"
  | BoolType => "BOOL"
  | ArrayType _ _ => "ARRAY"
  | DurationType => "DURATION"
  | StretchType => "STRETCH"
  | PortType => "PORT"
  | FrameType => "FRAME"
  | WaveformType => "WAVEFORM"
  end.

(** [Mangler.visit] on an expression: [LiteralVisitor] on literals,
    [visit_Identifier] on identifiers.  On other expressions the
    generic visitor returns [None], which [FunctionSignature] rejects. *)
Definition mangler_visit_expr (e : expr) : result string :=
  match e with
  | Identifier name => Ok name
  | IntegerLiteral value => Ok (PyStr.str_int value)
  | FloatLiteral value => Ok (str_float value)
  | BooleanLiteral value => Ok (if value then "true" else "false")
  | DurationLiteral value unit => Ok (str_float value ++ unit_name unit)
  | _ => Unmodelled
  end.

(** [Mangler.visit] on an argument of a calibration definition
    ([visit_ClassicalArgument] returns the type). *)
Definition mangler_visit_argument (a : defcal_argument) : result string :=
  match a with
  | ClassicalArgument type _ => Ok (visit_type_node type)
  | ExpressionArgument e => mangler_visit_expr e
  end.

(** [[f x for x in l]] for a function that may raise. *)
Fixpoint map_result {A B : Type} (f : A -> result B) (l : list A)
    : result (list B) :=
  match l with
  | [] => Ok []
  | x :: l' =>
      let* y := f x in
      let* ys := map_result f l' in
      Ok (y :: ys)
  end.

(** [Mangler(node).signature()] for a [CalibrationDefinition]. *)
Definition signature_CalibrationDefinition (name : string)
    (arguments : list defcal_argument) (qubits : list string)
    (return_type : option ctype) : result FunctionSignature :=
  let* args := map_result mangler_visit_argument arguments in
  Ok {| fs_name := name; fs_params := args; fs_qubits := qubits;
        fs_return_type :=
          match return_type with
          | Some t => visit_type_node t
          | None => ""
          end |}.

(** [Mangler(node).signature()] for a [QuantumGate]. *)
Definition signature_QuantumGate (name : string) (arguments : list expr)
    (qubits : list string) : result FunctionSignature :=
  let* args := map_result mangler_visit_expr arguments in
  Ok {| fs_name := name; fs_params := args; fs_qubits := qubits;
        fs_return_type := "" |}.

(** [Mangler(node).signature()] for a [QuantumReset]. *)
Definition signature_QuantumReset (q : string) : FunctionSignature :=
  {| fs_name := "reset"; fs_params := []; fs_qubits := [q];
     fs_return_type := "" |}.

(** [Mangler(node).signature()] for a [QuantumMeasurement]. *)
Definition signature_QuantumMeasurement (m : QuantumMeasurement)
    : FunctionSignature :=
  match m with
  | mkQuantumMeasurement q =>
      {| fs_name := "measure"; fs_params := []; fs_qubits := [q];
         fs_return_type := "BIT" |}
  end.

End Mangler.

(** ** Run-time values of the interpreter *)

Inductive value : Type :=
| VNone
| VBool (b : bool)
| VInt (z : Z)
| VFloat (q : Q)
| VStr (s : string)
| VArray (l : list value)      (* numpy.ndarray, one dimension *)
| VTuple (l : list value)
| VPort (p : Port)
| VFrame (l : loc).            (* a Frame object, by reference *)

(** The number a value stands for in arithmetic: [bool] is a subclass of
    [int]. *)
Inductive number : Type :=
| NInt (z : Z)
| NFloat (q : Q).

Definition as_number (v : value) : option number :=
  match v with
  | VBool b => Some (NInt (if b then 1 else 0))
  | VInt z => Some (NInt z)
  | VFloat q => Some (NFloat q)
  | _ => None
  end.

Definition number_Q (n : number) : Q :=
  match n with
  | NInt z => inject_Z z
  | NFloat q => q
  end.

(** [bool(v)]. *)
Definition truthy (v : value) : result bool :=
  match v with
  | VNone => Ok false
  | VBool b => Ok b
  | VInt z => Ok (negb (z =? 0))
  | VFloat q => Ok (negb (Qeq_bool q 0))
  | VStr s => Ok (negb (String.eqb s ""))
  | VArray [x] =>
      match as_number x with
      | Some n => Ok (negb (Qeq_bool (number_Q n) 0))
      | None => Unmodelled
      end
  | VArray (_ :: _ :: _) =>
      Raise (ValueError "The truth value of an array with more than one element is ambiguous")
  | VArray [] => Unmodelled
  | VTuple l => Ok (match l with [] => false | _ => true end)
  | VPort _ => Ok true
  | VFrame _ => Ok true
  end.

(** [x % y] on floats, [y] non-zero: the result has the sign of [y]. *)
Definition q_mod (x y : Q) : Q := x - y * inject_Z (Qfloor (x / y)).

(** ** call_stack.py *)

Inductive ARType : Type :=
| PROGRAM | EXTERN | SUBROUTINE | CALIBRATION | DEFCAL | GATE | LOOP.

(** [ActivationRecord]: [members] is the address of its dictionary, an
    object that the interpreter also reaches as [calibration_scope]. *)
Record ActivationRecord : Type := mkActivationRecord {
  ar_name : string;
  ar_type : ARType;
  ar_nesting_level : Z;
  ar_members : loc
}.

(** The dictionaries on the heap. *)
Abbreviation dict_store := (gmap nat (gmap string value)).

Module CallStack.

(** [CallStack.push]: [_records.append]. *)
Definition push (records : list ActivationRecord) (activation_record : ActivationRecord)
    : list ActivationRecord :=
  records ++ [activation_record].

(** [CallStack.pop]: [_records.pop()], the remaining records and the
    record removed. *)
Definition pop (records : list ActivationRecord)
    : result (list ActivationRecord * ActivationRecord) :=
  match List.rev records with
  | [] => Raise IndexError
  | r :: rest => Ok (List.rev rest, r)
  end.

(** [CallStack.peek]: [_records[-1]]. *)
Definition peek (records : list ActivationRecord) : result ActivationRecord :=
  match List.rev records with
  | [] => Raise IndexError
  | r :: _ => Ok r
  end.

(** [name in record.members.keys()]. *)
Definition binds (dicts : dict_store) (record : ActivationRecord)
    (name : string) : result bool :=
  match dicts !! ar_members record with
  | Some members =>
      Ok (match members !! name with Some _ => true | None => false end)
  | None => Unmodelled
  end.

(** The loop of [down_stack] over [reversed(self._records)]. *)
Fixpoint down_stack_loop (dicts : dict_store) (reversed : list ActivationRecord)
    (name : string) : result ActivationRecord :=
  match reversed with
  | [] => Raise (KeyError ("Could not find " ++ name ++ " in call stack"))
  | record :: rest =>
      let* found := binds dicts record name in
      if found then Ok record else down_stack_loop dicts rest name
  end.

(** [CallStack.down_stack]. *)
Definition down_stack (dicts : dict_store) (records : list ActivationRecord)
    (name : string) : result ActivationRecord :=
  down_stack_loop dicts (List.rev records) name.

(** [ActivationRecord.__getitem__]. *)
Definition getitem (dicts : dict_store) (record : ActivationRecord)
    (key : string) : result value :=
  match dicts !! ar_members record with
  | Some members =>
      match members !! key with
      | Some v => Ok v
      | None => Raise (KeyError key)
      end
  | None => Unmodelled
  end.

(** [ActivationRecord.__setitem__]. *)
Definition setitem (dicts : dict_store) (record : ActivationRecord)
    (key : string) (v : value) : result dict_store :=
  match dicts !! ar_members record with
  | Some members => Ok (<[ar_members record := <[key := v]> members]> dicts)
  | None => Unmodelled
  end.

(** [CallStack.get]. *)
Definition get (dicts : dict_store) (records : list ActivationRecord)
    (name : string) : result value :=
  let* record := down_stack dicts records name in
  getitem dicts record name.

(** [CallStack.nesting_level]. *)
Definition nesting_level (records : list ActivationRecord) : result Z :=
  let* record := peek records in
  Ok (ar_nesting_level record).

End CallStack.

(** ** passes/interpreter.py: the operator tables *)

Module Operators.

Definition compare (f : Q -> Q -> bool) (x y : value) : result value :=
  match as_number x, as_number y with
  | Some a, Some b => Ok (VBool (f (number_Q a) (number_Q b)))
  | _, _ => Unmodelled
  end.

Definition q_lt (a b : Q) : bool := negb (Qle_bool b a).

(** [operator.eq]. *)
Definition eq (x y : value) : result value :=
  match as_number x, as_number y with
  | Some a, Some b => Ok (VBool (Qeq_bool (number_Q a) (number_Q b)))
  | _, _ =>
      match x, y with
      | VNone, VNone => Ok (VBool true)
      | VStr a, VStr b => Ok (VBool (String.eqb a b))
      | VNone, (VBool _ | VInt _ | VFloat _ | VStr _) => Ok (VBool false)
      | (VBool _ | VInt _ | VFloat _ | VStr _), VNone => Ok (VBool false)
      | VStr _, (VBool _ | VInt _ | VFloat _) => Ok (VBool false)
      | (VBool _ | VInt _ | VFloat _), VStr _ => Ok (VBool false)
      | _, _ => Unmodelled
      end
  end.

Definition ne (x y : value) : result value :=
  let* r := eq x y in
  match r with
  | VBool b => Ok (VBool (negb b))
  | _ => Unmodelled
  end.

(** [lambda x, y: x and y]. *)
Definition and_ (x y : value) : result value :=
  let* b := truthy x in
  Ok (if b then y else x).

(** [lambda x, y: x or y]. *)
Definition or_ (x y : value) : result value :=
  let* b := truthy x in
  Ok (if b then x else y).

(** [operator.or_], [operator.xor], [operator.and_]: on two [bool]s a
    [bool], on integers an integer, on a float a [TypeError]. *)
Definition bitwise (fb : bool -> bool -> bool) (fz : Z -> Z -> Z)
    (x y : value) : result value :=
  match x, y with
  | VBool a, VBool b => Ok (VBool (fb a b))
  | _, _ =>
      match as_number x, as_number y with
      | Some (NInt a), Some (NInt b) => Ok (VInt (fz a b))
      | Some _, Some _ => Raise TypeError
      | _, _ => Unmodelled
      end
  end.

(** [operator.lshift], [operator.rshift]. *)
Definition shift (fz : Z -> Z -> Z) (x y : value) : result value :=
  match as_number x, as_number y with
  | Some (NInt a), Some (NInt b) =>
      if b <? 0 then Raise (ValueError "negative shift count")
      else Ok (VInt (fz a b))
  | Some _, Some _ => Raise TypeError
  | _, _ => Unmodelled
  end.

(** [operator.add], [operator.sub], [operator.mul]. *)
Definition arith (fz : Z -> Z -> Z) (fq : Q -> Q -> Q) (x y : value)
    : result value :=
  match as_number x, as_number y with
  | Some (NInt a), Some (NInt b) => Ok (VInt (fz a b))
  | Some a, Some b => Ok (VFloat (fq (number_Q a) (number_Q b)))
  | _, _ => Unmodelled
  end.

(** [operator.truediv]. *)
Definition truediv (x y : value) : result value :=
  match as_number x, as_number y with
  | Some a, Some b =>
      if Qeq_bool (number_Q b) 0 then Raise ZeroDivisionError
      else Ok (VFloat (number_Q a / number_Q b))
  | _, _ => Unmodelled
  end.

(** [operator.mod]. *)
Definition mod_ (x y : value) : result value :=
  match as_number x, as_number y with
  | Some (NInt a), Some (NInt b) =>
      if b =? 0 then Raise ZeroDivisionError else Ok (VInt (a mod b))
  | Some a, Some b =>
      if Qeq_bool (number_Q b) 0 then Raise ZeroDivisionError
      else Ok (VFloat (q_mod (number_Q a) (number_Q b)))
  | _, _ => Unmodelled
  end.

(** [operator.pow], on integers with a non-negative exponent. *)
Definition pow (x y : value) : result value :=
  match as_number x, as_number y with
  | Some (NInt a), Some (NInt b) =>
      if 0 <=? b then Ok (VInt (a ^ b)) else Unmodelled
  | _, _ => Unmodelled
  end.

(** The table [binary_ops], keyed by [op.value]. *)
Definition binary_ops (code : Z) : option (value -> value -> result value) :=
  match code with
  | 1 => Some (compare (fun a b => q_lt b a))
  | 2 => Some (compare q_lt)
  | 3 => Some (compare (fun a b => Qle_bool b a))
  | 4 => Some (compare Qle_bool)
  | 5 => Some eq
  | 6 => Some ne
  | 7 => Some and_
  | 8 => Some or_
  | 9 => Some (bitwise orb Z.lor)
  | 10 => Some (bitwise xorb Z.lxor)
  | 11 => Some (bitwise andb Z.land)
  | 12 => Some (shift Z.shiftl)
  | 13 => Some (shift Z.shiftr)
  | 14 => Some (arith Z.add Qplus)
  | 15 => Some (arith Z.sub Qminus)
  | 16 => Some (arith Z.mul Qmult)
  | 17 => Some truediv
  | 18 => Some mod_
  | 19 => Some pow
  | _ => None
  end.

(** [operator.__invert__]. *)
Definition invert (x : value) : result value :=
  match as_number x with
  | Some (NInt a) => Ok (VInt (Z.lnot a))
  | Some (NFloat _) => Raise TypeError
  | None => Unmodelled
  end.

(** [operator.not_]. *)
Definition not_ (x : value) : result value :=
  let* b := truthy x in
  Ok (VBool (negb b)).

(** [operator.__neg__]. *)
Definition neg (x : value) : result value :=
  match as_number x with
  | Some (NInt a) => Ok (VInt (- a))
  | Some (NFloat q) => Ok (VFloat (- q))
  | None => Unmodelled
  end.

(** The table [unary_ops], keyed by [op.value]. *)
Definition unary_ops (code : Z) : option (value -> result value) :=
  match code with
  | 1 => Some invert
  | 2 => Some not_
  | 3 => Some neg
  | _ => None
  end.

(** [table[key](args)]: a missing key is a [KeyError]. *)
Definition apply_binary (op : BinaryOperator) (left_ right_ : value) : result value :=
  match binary_ops (binary_value op) with
  | Some f => f left_ right_
  | None => Raise (KeyError "op")
  end.

Definition apply_unary (op : UnaryOperator) (x : value) : result value :=
  match unary_ops (unary_value op) with
  | Some f => f x
  | None => Raise (KeyError "op")
  end.

End Operators.

(** [range(start, end, step)] on integers, as the list it iterates. *)
Definition range_len (start stop step : Z) : Z :=
  if 0 <? step then Z.max 0 ((stop - start + step - 1) / step)
  else Z.max 0 ((start - stop - step - 1) / (- step)).

Definition py_range (start stop step : Z) : result (list Z) :=
  if step =? 0 then Raise (ValueError "range() arg 3 must not be zero")
  else Ok (List.map (fun i => start + Z.of_nat i * step)
             (List.seq 0 (Z.to_nat (range_len start stop step)))).

(** [numpy.pi]: the double nearest to pi, exactly. *)
Definition np_pi : Q := 884279719003555 # 281474976710656.

(** ** passes/interpreter.py and passes/timing_constraints.py *)

(** The class of the visitor: method lookup goes through it. *)
Inductive InterpreterClass : Type :=
| InterpreterK
| TimingConstraintsK.

(** The attributes of the visitor that a visit only reads. *)
Record Interpreter : Type := mkInterpreter {
  klass : InterpreterClass;
  setup_ports : option (list (string * Port));        (* setup.ports *)
  external_funcs : option (list (string * (list value -> result value)));
  visit_loops : bool;
  minimum_length : Z;
  granularity : Z;
  dumps : expr -> string;        (* openpulse.printer.dumps *)
  str_float : Q -> string        (* str of a float *)
}.

(** [{"wfm": ..., "length": ...}]. *)
Record warning_info : Type := mkWarningInfo {
  wfm : expr;
  length_ : value
}.

(** The attributes a visit mutates, and the objects it reaches. *)
Record State : Type := mkState {
  call_stack : list ActivationRecord;
  dicts : dict_store;
  next_dict : loc;
  heap : Heap;
  next_obj : loc;
  calibration_scope : loc;
  defcal_nodes : list (string * stmt);
  defcal_names : list string;
  subroutines : list (string * stmt);
  flagged_wfs : list warning_info
}.

Definition set_call_stack (x : list ActivationRecord) (st : State) : State :=
  mkState x (dicts st) (next_dict st) (heap st) (next_obj st)
    (calibration_scope st) (defcal_nodes st) (defcal_names st)
    (subroutines st) (flagged_wfs st).

Definition set_dicts (x : dict_store) (st : State) : State :=
  mkState (call_stack st) x (next_dict st) (heap st) (next_obj st)
    (calibration_scope st) (defcal_nodes st) (defcal_names st)
    (subroutines st) (flagged_wfs st).

Definition set_next_dict (x : loc) (st : State) : State :=
  mkState (call_stack st) (dicts st) x (heap st) (next_obj st)
    (calibration_scope st) (defcal_nodes st) (defcal_names st)
    (subroutines st) (flagged_wfs st).

Definition set_heap (x : Heap) (st : State) : State :=
  mkState (call_stack st) (dicts st) (next_dict st) x (next_obj st)
    (calibration_scope st) (defcal_nodes st) (defcal_names st)
    (subroutines st) (flagged_wfs st).

Definition set_next_obj (x : loc) (st : State) : State :=
  mkState (call_stack st) (dicts st) (next_dict st) (heap st) x
    (calibration_scope st) (defcal_nodes st) (defcal_names st)
    (subroutines st) (flagged_wfs st).

Definition set_defcal_nodes (x : list (string * stmt)) (st : State) : State :=
  mkState (call_stack st) (dicts st) (next_dict st) (heap st) (next_obj st)
    (calibration_scope st) x (defcal_names st)
    (subroutines st) (flagged_wfs st).

Definition set_defcal_names (x : list string) (st : State) : State :=
  mkState (call_stack st) (dicts st) (next_dict st) (heap st) (next_obj st)
    (calibration_scope st) (defcal_nodes st) x
    (subroutines st) (flagged_wfs st).

Definition set_subroutines (x : list (string * stmt)) (st : State) : State :=
  mkState (call_stack st) (dicts st) (next_dict st) (heap st) (next_obj st)
    (calibration_scope st) (defcal_nodes st) (defcal_names st)
    x (flagged_wfs st).

Definition set_flagged_wfs (x : list warning_info) (st : State) : State :=
  mkState (call_stack st) (dicts st) (next_dict st) (heap st) (next_obj st)
    (calibration_scope st) (defcal_nodes st) (defcal_names st)
    (subroutines st) x.

(** The state [__init__] leaves: an empty call stack and an empty
    [calibration_scope] dictionary. *)
Definition init_state : State :=
  {| call_stack := [];
     dicts := {[ 0%nat := ∅ ]};
     next_dict := 1%nat;
     heap := {| durations := ∅; frames := ∅ |};
     next_obj := 0%nat;
     calibration_scope := 0%nat;
     defcal_nodes := [];
     defcal_names := [];
     subroutines := [];
     flagged_wfs := [] |}.

(** [d[k]] and [d[k] = v] on a [dict] kept in insertion order. *)
Fixpoint alist_get {A : Type} (d : list (string * A)) (k : string) : option A :=
  match d with
  | [] => None
  | (k', v) :: d' => if String.eqb k' k then Some v else alist_get d' k
  end.

Fixpoint alist_set {A : Type} (d : list (string * A)) (k : string) (v : A)
    : list (string * A) :=
  match d with
  | [] => [(k, v)]
  | (k', v') :: d' =>
      if String.eqb k' k then (k', v) :: d' else (k', v') :: alist_set d' k v
  end.

Module Interp.

(** A read of the state that may raise. *)
Definition read {A : Type} (f : State -> result A) : M State A :=
  fun st => (f st, st).

(** [ActivationRecord(name, ar_type, nesting_level)]: a record with a
    new, empty [members] dictionary. *)
Definition new_ActivationRecord (name : string) (ar_type : ARType)
    (nesting_level : Z) : M State ActivationRecord :=
  fun st =>
    let l := next_dict st in
    (Ok (mkActivationRecord name ar_type nesting_level l),
     set_next_dict (Datatypes.S l) (set_dicts (<[l := ∅]> (dicts st)) st)).

Definition peek : M State ActivationRecord :=
  read (fun st => CallStack.peek (call_stack st)).

Definition nesting_level : M State Z :=
  read (fun st => CallStack.nesting_level (call_stack st)).

Definition down_stack (name : string) : M State ActivationRecord :=
  read (fun st => CallStack.down_stack (dicts st) (call_stack st) name).

Definition getitem (record : ActivationRecord) (key : string) : M State value :=
  read (fun st => CallStack.getitem (dicts st) record key).

Definition setitem (record : ActivationRecord) (key : string) (v : value)
    : M State unit :=
  fun st =>
    match CallStack.setitem (dicts st) record key v with
    | Ok d => (Ok tt, set_dicts d st)
    | Raise e => (Raise e, st)
    | OutOfFuel => (OutOfFuel, st)
    | Unmodelled => (Unmodelled, st)
    end.

(** [self.call_stack.pop()] in a [finally] block. *)
Definition pop_record (st : State) : State :=
  match CallStack.pop (call_stack st) with
  | Ok (rest, _) => set_call_stack rest st
  | _ => st
  end.

(** [with self.ar_context_manager(activation_record): body]. *)
Definition ar_context_manager {A : Type} (activation_record : ActivationRecord)
    (body : M State A) : M State A :=
  let! _ := modify (fun st =>
              set_call_stack (CallStack.push (call_stack st) activation_record) st) in
  finally body pop_record.

(** The number a value is used as where the source computes with it
    as a float. *)
Definition as_float (v : value) : result Q :=
  match as_number v with
  | Some n => Ok (number_Q n)
  | None =>
      match v with
      | VArray _ => Unmodelled
      | _ => Raise TypeError
      end
  end.

(** [(phase_val + np.pi) % (2 * np.pi) - np.pi]. *)
Definition wrap_phase (phase_val : Q) : Q :=
  q_mod (phase_val + np_pi) (2 * np_pi) - np_pi.

(** A value that has to be a [Frame] object: its address and state. *)
Definition the_frame (v : value) : M State (loc * Frame) :=
  match v with
  | VFrame l =>
      fun st =>
        match frames (heap st) !! l with
        | Some f => (Ok (l, f), st)
        | None => (Unmodelled, st)
        end
  | _ => lift Unmodelled
  end.

Definition store_frame (l : loc) (f : Frame) : M State unit :=
  modify (fun st => set_heap (set_frame l f (heap st)) st).

(** [np.zeros(shape=n)] in one dimension. *)
Definition np_zeros (shape : value) : result value :=
  match shape with
  | VInt n => if 0 <=? n then Ok (VArray (repeat (VFloat 0) (Z.to_nat n)))
              else Raise (ValueError "negative dimensions are not allowed")
  | _ => Unmodelled
  end.

Definition is_play (name : string) : bool :=
  String.eqb name "play" || String.eqb name "capture_v1"
  || String.eqb name "capture_v2" || String.eqb name "capture_v3"
  || String.eqb name "capture_v1_spectrum".

(** The pattern [ast.FunctionCall(name=ast.Identifier(f))]. *)
Definition is_call_to (f : string) (node : expr) : bool :=
  match node with
  | FunctionCall name _ => String.eqb name f
  | _ => false
  end.

(** The pattern [arguments=[ast.Identifier(frame_name), _]]. *)
Definition frame_call (arguments : list expr) : option (string * expr) :=
  match arguments with
  | [Identifier frame_name; arg] => Some (frame_name, arg)
  | _ => None
  end.

(** A call the quantum-gate helper resolves to a calibration
    definition. *)
Inductive gate_call : Type :=
| GateCall (name : string) (arguments : list expr) (qubits : list string)
| ResetCall (qubits : string)
| MeasureCall (m : QuantumMeasurement).

Section Methods.

Variable self : Interpreter.

(** [self.visit] on the children of the node at hand. *)
Variable visit_expr : expr -> M State value.
Variable visit_stmt : stmt -> M State value.
(** The remaining rounds of a [while] loop. *)
Variable while_rest : expr -> list stmt -> M State unit.

Definition visit_opt (e : option expr) (default : value) : M State value :=
  match e with
  | Some e => visit_expr e
  | None => ret default
  end.

Definition visit_block (block : list stmt) : M State unit :=
  for_each (fun statement => let! _ := visit_stmt statement in ret tt) block.

(** [Interpreter.visit_Identifier]. *)
Definition visit_Identifier (name : string) : M State value :=
  fun st =>
    let not_found :=
      SemanticError ID_NOT_FOUND
        ("Identifier: " ++ name ++ " not found in call stack") in
    match CallStack.down_stack (dicts st) (call_stack st) name with
    | Ok activation_record =>
        match CallStack.getitem (dicts st) activation_record name with
        | Raise (KeyError _) => (Raise not_found, st)
        | r => (r, st)
        end
    | Raise (KeyError _) => (Raise not_found, st)
    | Raise e => (Raise e, st)
    | OutOfFuel => (OutOfFuel, st)
    | Unmodelled => (Unmodelled, st)
    end.

(** [Interpreter.visit_BinaryExpression]. *)
Definition visit_BinaryExpression (op : BinaryOperator) (lhs rhs : expr)
    : M State value :=
  let! left_ := visit_expr lhs in
  let! right_ := visit_expr rhs in
  lift (Operators.apply_binary op left_ right_).

(** [Interpreter.visit_UnaryExpression]. *)
Definition visit_UnaryExpression (op : UnaryOperator) (expression : expr)
    : M State value :=
  let! v := visit_expr expression in
  lift (Operators.apply_unary op v).

(** [Interpreter.visit_ArrayLiteral]. *)
Definition visit_ArrayLiteral (values : list expr) : M State value :=
  let! vals := list_comp visit_expr values in
  ret (VArray vals).

(** [Interpreter.visit_RangeDefinition]. *)
Definition visit_RangeDefinition (start end_ step : option expr)
    : M State value :=
  let! start := visit_opt start (VInt 0) in
  let! end_ := visit_opt end_ VNone in
  let! step := visit_opt step (VInt 1) in
  ret (VTuple [start; end_; step]).

(** [start, end, step = self.visit(node.set_declaration)]. *)
Definition unpack3 (v : value) : result (value * value * value) :=
  match v with
  | VTuple [a; b; c] => Ok (a, b, c)
  | VTuple _ => Raise (ValueError "unpack")
  | _ => Unmodelled
  end.

(** An argument of [range]. *)
Definition as_index (v : value) : result Z :=
  match as_number v with
  | Some (NInt z) => Ok z
  | Some (NFloat _) => Raise TypeError
  | None => match v with VArray _ => Unmodelled | _ => Raise TypeError end
  end.

(** [Interpreter.evaluate_function]. *)
Definition evaluate_function (func_name : string) (arg_vals : list value)
    : M State value :=
  match external_funcs self with
  | None => raise TypeError
  | Some funcs =>
      match alist_get funcs func_name with
      | Some f => lift (f arg_vals)
      | None =>
          let! subs := read (fun st => Ok (subroutines st)) in
          let not_found :=
            Error UNHANDLED ("function " ++ func_name ++ " not found") in
          match alist_get subs func_name with
          | Some (SubroutineDefinition _ arguments body _) =>
              let! activation_record := peek in
              let! _ :=
                for_each
                  (fun '(arg, val) =>
                     match arg with
                     | SubClassicalArgument _ name
                     | QuantumArgument name _ =>
                         setitem activation_record name val
                     end)
                  (combine arguments arg_vals) in
              (fix run (body : list stmt) : M State value :=
                 match body with
                 | [] => raise not_found
                 | ReturnStatement e :: _ => visit_stmt (ReturnStatement e)
                 | statement :: rest =>
                     let! _ := visit_stmt statement in run rest
                 end) body
          | Some _ => lift Unmodelled
          | None => raise not_found
          end
      end
  end.

(** [Interpreter.visit_play]. *)
Definition visit_play (name : string) (arguments : list expr) : M State value :=
  ret VNone.

(** [Interpreter.visit_FunctionCall]. *)
Definition Interpreter_visit_FunctionCall (name : string)
    (arguments : list expr) : M State value :=
  let! record := peek in
  let curr_nesting := ar_nesting_level record in
  let! activation_record :=
    new_ActivationRecord name SUBROUTINE (curr_nesting + 1) in
  ar_context_manager activation_record
    (if is_play name then visit_play name arguments
     else
       match frame_call arguments with
       | Some (frame_name, arg) =>
           if String.eqb name "set_phase" then
             let! record := down_stack frame_name in
             let! frame := getitem record frame_name in
             let! phase_val := visit_expr arg in
             let! phase_val := lift (as_float phase_val) in
             let phase_val := wrap_phase phase_val in
             let! (l, f) := the_frame frame in
             let! _ := store_frame l (FrameM.set_phase f phase_val) in
             ret VNone
           else if String.eqb name "shift_phase" then
             let! record := down_stack frame_name in
             let! frame := getitem record frame_name in
             let! shift := visit_expr arg in
             let! (l, f) := the_frame frame in
             let! shift := lift (as_float shift) in
             let phase_val := (shift + f_phase f)%Q in
             let phase_val := wrap_phase phase_val in
             let! _ := store_frame l (FrameM.set_phase f phase_val) in
             ret VNone
           else if String.eqb name "set_frequency" then
             let! record := down_stack frame_name in
             let! frame := getitem record frame_name in
             let! _ := the_frame frame in
             let! v := visit_expr arg in
             let! (l, f) := the_frame frame in
             match as_number v with
             | Some n =>
                 let! _ := store_frame l (FrameM.set_frequency f (number_Q n)) in
                 ret VNone
             | None => lift Unmodelled
             end
           else if String.eqb name "shift_frequency" then
             let! record := down_stack frame_name in
             let! frame := getitem record frame_name in
             let! _ := the_frame frame in
             let! v := visit_expr arg in
             let! (l, f) := the_frame frame in
             let! q := lift (as_float v) in
             let! _ := store_frame l (FrameM.shift_frequency f q) in
             ret VNone
           else if String.eqb name "executeTableEntry" then ret VNone
           else if String.eqb name "assignWaveIndex" then ret VNone
           else
             let! args := list_comp visit_expr arguments in
             evaluate_function name args
       | None =>
           if String.eqb name "executeTableEntry" then ret VNone
           else if String.eqb name "assignWaveIndex" then ret VNone
           else
             let! args := list_comp visit_expr arguments in
             evaluate_function name args
       end).

(** The signature [Mangler(node).signature()] of a call. *)
Definition call_signature (call : gate_call) : result FunctionSignature :=
  match call with
  | GateCall name arguments qubits =>
      signature_QuantumGate (str_float self) name arguments qubits
  | ResetCall q => Ok (signature_QuantumReset q)
  | MeasureCall m => Ok (signature_QuantumMeasurement m)
  end.

(** The loop over the body of a calibration definition: the first
    [ReturnStatement] of the body ends it with its value. *)
Fixpoint run_defcal_body (body : list stmt) : M State value :=
  match body with
  | [] => ret VNone
  | ReturnStatement e :: _ => visit_stmt (ReturnStatement e)
  | statement :: rest =>
      let! _ := visit_stmt statement in run_defcal_body rest
  end.

(** [Interpreter.quantum_gate_helper]. *)
Definition quantum_gate_helper (call : gate_call) : M State value :=
  let! record := peek in
  let curr_nesting := ar_nesting_level record in
  let! outer_activation_record :=
    new_ActivationRecord "calibration" CALIBRATION (curr_nesting + 1) in
  (* outer_activation_record.members = self.calibration_scope *)
  let! cal := read (fun st => Ok (calibration_scope st)) in
  let outer_activation_record :=
    mkActivationRecord (ar_name outer_activation_record)
      (ar_type outer_activation_record)
      (ar_nesting_level outer_activation_record) cal in
  ar_context_manager outer_activation_record
    (let! inner_activation_record :=
       new_ActivationRecord "defcal" DEFCAL (curr_nesting + 2) in
     ar_context_manager inner_activation_record
       (let! signature := lift (call_signature call) in
        let! names := read (fun st => Ok (defcal_names st)) in
        let! matches := lift (FunctionSig.match_ signature names) in
        let! mangled_name := lift (PyStr.index matches 0) in
        let defcal_node :=
          read (fun st =>
                  match alist_get (defcal_nodes st) mangled_name with
                  | Some (CalibrationDefinition n a q r b) => Ok (a, b)
                  | Some _ => Unmodelled
                  | None => Raise (KeyError mangled_name)
                  end) in
        let! _ :=
          match call with
          | GateCall _ arguments _ =>
              let! args := list_comp visit_expr arguments in
              let! (formals, _) := defcal_node in
              let! inner_activation_record := peek in
              for_each
                (fun '(arg, val) =>
                   match arg with
                   | ClassicalArgument _ name =>
                       setitem inner_activation_record name val
                   | ExpressionArgument _ => ret tt
                   end)
                (combine formals args)
          | _ => ret tt
          end in
        let! (_, body) := defcal_node in
        run_defcal_body body)).

(** [self.visit] on a position that holds an expression or a
    measurement; [Interpreter.visit_QuantumMeasurement]. *)
Definition visit_rvalue (r : rvalue) : M State value :=
  match r with
  | RExpr e => visit_expr e
  | RMeasure m => quantum_gate_helper (MeasureCall m)
  end.

Definition visit_opt_rvalue (r : option rvalue) : M State value :=
  match r with
  | Some r => visit_rvalue r
  | None => ret VNone
  end.

(** [Interpreter.visit_QuantumMeasurementStatement]. *)
Definition visit_QuantumMeasurementStatement (measure : QuantumMeasurement)
    (target : option string) : M State value :=
  match target with
  | Some name =>
      let! activation_record := down_stack name in
      let! v := quantum_gate_helper (MeasureCall measure) in
      let! _ := setitem activation_record name v in
      ret VNone
  | None =>
      let! _ := quantum_gate_helper (MeasureCall measure) in
      ret VNone
  end.

(** [Frame(name=..., port=..., frequency=..., phase=...)]: a new
    frame object whose [time] is a new [Duration(time=0)]. *)
Definition new_Frame (name : string) (port frequency phase : value)
    : M State value :=
  match port, as_number frequency, as_number phase with
  | VPort p, Some fr, Some ph =>
      fun st =>
        let t := next_obj st in
        let l := Datatypes.S t in
        let h := set_duration t (mkDuration 0 TimeUnits.dt) (heap st) in
        let h := set_frame l (mkFrame name p (number_Q fr) (number_Q ph) t) h in
        (Ok (VFrame l), set_next_obj (Datatypes.S l) (set_heap h st))
  | _, _, _ => lift Unmodelled
  end.

(** [Interpreter.visit_ClassicalDeclaration]. *)
Definition visit_ClassicalDeclaration (type : ctype) (identifier : string)
    (init_expression : option rvalue) : M State value :=
  let! activation_record := peek in
  let default :=
    match init_expression with
    | Some init =>
        let! v := visit_rvalue init in
        let! _ := setitem activation_record identifier v in
        ret VNone
    | None =>
        let! _ := setitem activation_record identifier VNone in
        ret VNone
    end in
  match type, init_expression with
  | PortType, _ =>
      match setup_ports self with
      | Some ports =>
          match alist_get ports identifier with
          | Some p =>
              let! _ := setitem activation_record identifier (VPort p) in
              ret VNone
          | None => raise (KeyError identifier)
          end
      | None => lift Unmodelled
      end
  | FrameType, Some (RExpr (FunctionCall "newframe" arguments)) =>
      match arguments with
      | [Identifier port; a1; a2] =>
          let! frequency := visit_expr a1 in
          let! phase := visit_expr a2 in
          let! p := getitem activation_record port in
          let! frame := new_Frame identifier p frequency phase in
          let! _ := setitem activation_record identifier frame in
          ret VNone
      | [_; _; _] => lift Unmodelled
      | _ => raise AssertionError
      end
  | ArrayType _ dimensions, None =>
      let! shapes := list_comp visit_expr dimensions in
      match shapes with
      | [n] =>
          let! z := lift (np_zeros n) in
          let! _ := setitem activation_record identifier z in
          ret VNone
      | _ => lift Unmodelled
      end
  | BitType size, None =>
      let! n := visit_opt size VNone in
      let! n := lift (Operators.or_ n (VInt 1)) in
      let! z := lift (np_zeros n) in
      let! _ := setitem activation_record identifier z in
      ret VNone
  | _, _ => default
  end.

(** [Interpreter.visit_ConstantDeclaration]. *)
Definition visit_ConstantDeclaration (identifier : string)
    (init_expression : expr) : M State value :=
  let! activation_record := peek in
  let! v := visit_expr init_expression in
  let! _ := setitem activation_record identifier v in
  ret VNone.

(** [Interpreter.visit_CalibrationDefinition]. *)
Definition visit_CalibrationDefinition (node : stmt) (name : string)
    (arguments : list defcal_argument) (qubits : list string)
    (return_type : option ctype) : M State value :=
  let! signature :=
    lift (signature_CalibrationDefinition (str_float self)
            name arguments qubits return_type) in
  let mangled_name := FunctionSig.mangle signature in
  let! _ := modify (fun st =>
              set_defcal_names (defcal_names st ++ [mangled_name]) st) in
  let! _ := modify (fun st =>
              set_defcal_nodes (alist_set (defcal_nodes st) mangled_name node) st) in
  ret VNone.

(** [Interpreter.visit_CalibrationStatement]. *)
Definition visit_CalibrationStatement (body : list stmt) : M State value :=
  let! record := peek in
  let curr_nesting := ar_nesting_level record in
  let! outer_activation_record :=
    new_ActivationRecord "outer_calibration" CALIBRATION (curr_nesting + 1) in
  let! cal := read (fun st => Ok (calibration_scope st)) in
  let outer_activation_record :=
    mkActivationRecord (ar_name outer_activation_record)
      (ar_type outer_activation_record)
      (ar_nesting_level outer_activation_record) cal in
  ar_context_manager outer_activation_record
    (let! inner_activation_record :=
       new_ActivationRecord "new_calibration" CALIBRATION (curr_nesting + 2) in
     ar_context_manager inner_activation_record
       (let! _ := visit_block body in
        (* self.calibration_scope.update(self.call_stack.peek().members) *)
        let! top := peek in
        fun st =>
          match dicts st !! ar_members top, dicts st !! calibration_scope st with
          | Some members, Some scope =>
              (Ok VNone,
               set_dicts (<[calibration_scope st := members ∪ scope]> (dicts st)) st)
          | _, _ => (Unmodelled, st)
          end)).

(** [Interpreter.visit_ClassicalAssignment] on an identifier. *)
Definition visit_ClassicalAssignment (lvalue : string) (rvalue_ : expr)
    : M State value :=
  let! activation_record := down_stack lvalue in
  let! v := visit_expr rvalue_ in
  let! _ := setitem activation_record lvalue v in
  ret VNone.

(** [Interpreter.visit_SubroutineDefinition]. *)
Definition visit_SubroutineDefinition (node : stmt) (name : string)
    : M State value :=
  let! _ := modify (fun st =>
              set_subroutines (alist_set (subroutines st) name node) st) in
  ret VNone.

(** [GenericVisitor.visit_BranchingStatement], which the interpreter
    inherits: the condition and both blocks are visited. *)
Definition visit_BranchingStatement (condition : expr)
    (if_block else_block : list stmt) : M State value :=
  let! _ := visit_expr condition in
  let! _ := visit_block if_block in
  let! _ := visit_block else_block in
  ret VNone.

(** One round of [while self.visit(node.while_condition): ...]. *)
Definition while_round (while_condition : expr) (block : list stmt)
    : M State unit :=
  let! c := visit_expr while_condition in
  let! b := lift (truthy c) in
  if b then
    let! _ := visit_block block in
    while_rest while_condition block
  else ret tt.

(** [Interpreter.visit_WhileLoop]. *)
Definition visit_WhileLoop (while_condition : expr) (block : list stmt)
    : M State value :=
  if negb (visit_loops self) then ret VNone
  else
    let! level := nesting_level in
    let! activation_record :=
      new_ActivationRecord "while loop" LOOP (level + 1) in
    ar_context_manager activation_record
      (let! _ := while_rest while_condition block in
       ret VNone).

(** [Interpreter.visit_ForInLoop]. *)
Definition Interpreter_visit_ForInLoop (identifier : string)
    (set_declaration : expr) (block : list stmt) : M State value :=
  if negb (visit_loops self) then ret VNone
  else
    let name := identifier in
    let! level := nesting_level in
    let! activation_record :=
      new_ActivationRecord ("for_loop_" ++ PyStr.str_int (level + 1)) LOOP
        (level + 1) in
    ar_context_manager activation_record
      (let! r := visit_expr set_declaration in
       let! (start, end_, step) := lift (unpack3 r) in
       match end_ with
       | VNone =>
           raise (Error UNHANDLED "unsupported set declaration in for loop")
       | _ =>
           let! activation_record := peek in
           let! _ := setitem activation_record name start in
           let! a := lift (as_index start) in
           let! b := lift (as_index end_) in
           let! c := lift (as_index step) in
           let! range_ := lift (py_range a b c) in
           let! _ :=
             for_each
               (fun i =>
                  let! _ := setitem activation_record name (VInt i) in
                  visit_block block)
               range_ in
           ret VNone
       end).

(** [TimingConstraints.check_timing_constraints]. *)
Definition check_timing_constraints (node : expr) : M State (bool * value) :=
  let! dur_val := visit_expr node in
  match dur_val with
  | VNone => ret (true, VInt (-1))
  | _ =>
      let dur_val :=
        match dur_val with
        | VArray l => VInt (Z.of_nat (List.length l))
        | _ => dur_val
        end in
      match as_number dur_val with
      | None => raise TypeError
      | Some n =>
          if Qle_bool (inject_Z (minimum_length self)) (number_Q n) then
            let! r := lift (Operators.mod_ dur_val (VInt (granularity self))) in
            let! z := lift (Operators.eq r (VInt 0)) in
            let! valid := lift (truthy z) in
            ret (valid, dur_val)
          else ret (false, dur_val)
      end
  end.

Definition flag (info : warning_info) : M State unit :=
  modify (fun st => set_flagged_wfs (flagged_wfs st ++ [info]) st).

(** [TimingConstraints.visit_DelayInstruction]. *)
Definition TimingConstraints_visit_DelayInstruction (duration : expr)
    : M State value :=
  let! (valid, length) := check_timing_constraints duration in
  if negb valid then
    let! _ := flag {| wfm := duration; length_ := length |} in
    ret VNone
  else ret VNone.

(** [TimingConstraints.visit_ForInLoop]. *)
Definition TimingConstraints_visit_ForInLoop (identifier : string)
    (set_declaration : expr) (block : list stmt) : M State value :=
  let name := identifier in
  let! level := nesting_level in
  let! activation_record :=
    new_ActivationRecord ("for_loop_" ++ PyStr.str_int (level + 1)) LOOP
      (level + 1) in
  ar_context_manager activation_record
    (match set_declaration with
     | RangeDefinition _ _ _ =>
         let! r := visit_expr set_declaration in
         let! (start, end_, step) := lift (unpack3 r) in
         let! activation_record := peek in
         let! second := lift (Operators.arith Z.add Qplus start step) in
         let! _ :=
           for_each
             (fun v =>
                let! _ := setitem activation_record name v in
                visit_block block)
             [start; second; end_] in
         ret VNone
     | _ =>
         raise (Error UNHANDLED "unsupported set declaration in for loop:")
     end).

(** [TimingConstraints.visit_FunctionCall]. *)
Definition TimingConstraints_visit_FunctionCall (name : string)
    (arguments : list expr) : M State value :=
  let! level := nesting_level in
  let! activation_record :=
    new_ActivationRecord name SUBROUTINE (level + 1) in
  ar_context_manager activation_record
    (match is_play name, arguments with
     | true, [_; arg] =>
         if is_call_to "executeTableEntry" arg then ret VNone
         else
           let! (valid, _) := check_timing_constraints arg in
           if negb valid then
             let! (_, length) := check_timing_constraints arg in
             let! _ := flag {| wfm := arg; length_ := length |} in
             ret VNone
           else ret VNone
     | _, _ => Interpreter_visit_FunctionCall name arguments
     end).

(** Method lookup on [self]. *)
Definition visit_FunctionCall (name : string) (arguments : list expr)
    : M State value :=
  match klass self with
  | InterpreterK => Interpreter_visit_FunctionCall name arguments
  | TimingConstraintsK => TimingConstraints_visit_FunctionCall name arguments
  end.

Definition visit_ForInLoop (identifier : string) (set_declaration : expr)
    (block : list stmt) : M State value :=
  match klass self with
  | InterpreterK => Interpreter_visit_ForInLoop identifier set_declaration block
  | TimingConstraintsK =>
      TimingConstraints_visit_ForInLoop identifier set_declaration block
  end.

Definition visit_DelayInstruction (duration : expr) : M State value :=
  match klass self with
  | InterpreterK => ret VNone
  | TimingConstraintsK => TimingConstraints_visit_DelayInstruction duration
  end.

(** [self.visit] on an expression node. *)
Definition dispatch_expr (node : expr) : M State value :=
  match node with
  | Identifier name => visit_Identifier name
  | IntegerLiteral value => ret (VInt value)
  | FloatLiteral value => ret (VFloat value)
  | BooleanLiteral value => ret (VBool value)
  | DurationLiteral value _ => ret (VFloat value)
  | ArrayLiteral values => visit_ArrayLiteral values
  | UnaryExpression op expression => visit_UnaryExpression op expression
  | BinaryExpression op lhs rhs => visit_BinaryExpression op lhs rhs
  | FunctionCall name arguments => visit_FunctionCall name arguments
  | RangeDefinition start end_ step => visit_RangeDefinition start end_ step
  end.

(** [self.visit] on a statement node. *)
Definition dispatch_stmt (node : stmt) : M State value :=
  match node with
  | ExpressionStatement expression => visit_expr expression
  | ClassicalDeclaration type identifier init_expression =>
      visit_ClassicalDeclaration type identifier init_expression
  | ConstantDeclaration _ identifier init_expression =>
      visit_ConstantDeclaration identifier init_expression
  | ClassicalAssignment lvalue _ rvalue_ =>
      visit_ClassicalAssignment lvalue rvalue_
  | SubroutineDefinition name _ _ _ => visit_SubroutineDefinition node name
  | CalibrationDefinition name arguments qubits return_type _ =>
      visit_CalibrationDefinition node name arguments qubits return_type
  | CalibrationStatement body => visit_CalibrationStatement body
  | QuantumGate name arguments qubits =>
      let! _ := quantum_gate_helper (GateCall name arguments qubits) in
      ret VNone
  | QuantumReset qubits =>
      let! _ := quantum_gate_helper (ResetCall qubits) in
      ret VNone
  | QuantumMeasurementStatement measure target =>
      visit_QuantumMeasurementStatement measure target
  | ReturnStatement expression => visit_opt_rvalue expression
  | BranchingStatement condition if_block else_block =>
      visit_BranchingStatement condition if_block else_block
  | WhileLoop while_condition block => visit_WhileLoop while_condition block
  | ForInLoop _ identifier set_declaration block =>
      visit_ForInLoop identifier set_declaration block
  | DelayInstruction duration _ => visit_DelayInstruction duration
  end.

End Methods.

(** The visitor: [fuel] bounds the depth of the calls of [self.visit]
    and the number of rounds of a [while] loop. *)
Fixpoint visit_expr (self : Interpreter) (fuel : nat) (node : expr)
    {struct fuel} : M State value :=
  match fuel with
  | O => lift OutOfFuel
  | Datatypes.S fuel' =>
      dispatch_expr self (visit_expr self fuel') (visit_stmt self fuel') node
  end
with visit_stmt (self : Interpreter) (fuel : nat) (node : stmt)
    {struct fuel} : M State value :=
  match fuel with
  | O => lift OutOfFuel
  | Datatypes.S fuel' =>
      dispatch_stmt self (visit_expr self fuel') (visit_stmt self fuel')
        (while_loop self fuel') node
  end
with while_loop (self : Interpreter) (fuel : nat) (while_condition : expr)
    (block : list stmt) {struct fuel} : M State unit :=
  match fuel with
  | O => lift OutOfFuel
  | Datatypes.S fuel' =>
      while_round (visit_expr self fuel') (visit_stmt self fuel')
        (while_loop self fuel') while_condition block
  end.

(** [for statement in node.statements: self.visit(statement)]. *)
Definition visit_statements (self : Interpreter) (fuel : nat)
    (statements : list stmt) : M State unit :=
  visit_block (visit_stmt self fuel) statements.

(** [Interpreter.visit_Program]. *)
Definition Interpreter_visit_Program (self : Interpreter) (fuel : nat)
    (node : Program) : M State value :=
  let! activation_record := new_ActivationRecord "main" PROGRAM 1 in
  let! _ := ar_context_manager activation_record
              (visit_statements self fuel (statements node)) in
  ret VNone.

Definition nl : string := String (ascii_of_nat 10) "".
Definition tab : string := String (ascii_of_nat 9) "".

(** [str(x)] of a length. *)
Definition str_value (self : Interpreter) (v : value) : result string :=
  match v with
  | VInt z => Ok (PyStr.str_int z)
  | VFloat q => Ok (str_float self q)
  | VBool b => Ok (if b then "True" else "False")
  | _ => Unmodelled
  end.

Definition str_bool (v : value) : result string :=
  match v with
  | VBool b => Ok (if b then "True" else "False")
  | _ => Unmodelled
  end.

(** The text [construct_warning_message] adds for one flagged
    waveform. *)
Definition warning_entry (self : Interpreter) (wf : warning_info) : result string :=
  let* len := str_value self (length_ wf) in
  let* sufficient :=
    Operators.compare (fun a b => Qle_bool b a) (length_ wf)
      (VInt (minimum_length self)) in
  let* sufficient := str_bool sufficient in
  let* r := Operators.mod_ (length_ wf) (VInt (granularity self)) in
  let* correct := Operators.eq r (VInt 0) in
  let* correct := str_bool correct in
  Ok ("Waveform: " ++ dumps self (wfm wf) ++ nl ++ tab
      ++ "Waveform Length: " ++ len ++ "," ++ nl ++ tab
      ++ "Sufficient Length: " ++ sufficient ++ "," ++ nl ++ tab
      ++ "Correct Granularity: " ++ correct ++ nl ++ nl).

(** [TimingConstraints.construct_warning_message]. *)
Fixpoint add_entries (self : Interpreter) (flagged : list warning_info)
    (message : string) : result string :=
  match flagged with
  | [] => Ok message
  | wf :: rest =>
      let* entry := warning_entry self wf in
      add_entries self rest (message ++ entry)
  end.

Definition construct_warning_message (self : Interpreter)
    (flagged : list warning_info) : result string :=
  add_entries self flagged
    ("waveform(s) do not meet timing constraints:" ++ nl ++ nl).

(** [TimingConstraints.visit_Program], up to the end of the [with]
    block: the external functions are entered in the record of the
    program and the statements are visited. *)
Definition TimingConstraints_visit_all (self : Interpreter) (fuel : nat)
    (node : Program) : M State unit :=
  let! activation_record := new_ActivationRecord "main" PROGRAM 1 in
  let! _ :=
    match external_funcs self with
    | Some funcs =>
        for_each (fun extern => setitem activation_record extern (VStr "external"))
          (List.map fst funcs)
    | None => raise TypeError
    end in
  ar_context_manager activation_record
    (visit_statements self fuel (statements node)).

(** The end of [TimingConstraints.visit_Program]:
    [if self.flagged_wfs: raise Error(ErrorCode.INVALID_WAVEFORM, ...)]. *)
Definition raise_if_flagged (self : Interpreter) : M State value :=
  let! flagged := read (fun st => Ok (flagged_wfs st)) in
  match flagged with
  | [] => ret VNone
  | _ =>
      let! total_message := lift (construct_warning_message self flagged) in
      raise (Error INVALID_WAVEFORM total_message)
  end.

(** [TimingConstraints.visit_Program]. *)
Definition TimingConstraints_visit_Program (self : Interpreter) (fuel : nat)
    (node : Program) : M State value :=
  let! _ := TimingConstraints_visit_all self fuel node in
  raise_if_flagged self.

Definition visit_Program (self : Interpreter) (fuel : nat) (node : Program)
    : M State value :=
  match klass self with
  | InterpreterK => Interpreter_visit_Program self fuel node
  | TimingConstraintsK => TimingConstraints_visit_Program self fuel node
  end.

(** [Interpreter(setup, external_funcs, visit_loops)]. *)
Definition Interpreter_init (setup : option (list (string * Port)))
    (external_funcs : option (list (string * (list value -> result value))))
    (visit_loops : bool) (dumps : expr -> string) (str_float : Q -> string)
    : Interpreter :=
  mkInterpreter InterpreterK setup external_funcs visit_loops 32 16
    dumps str_float.


End Interp.

(** ** passes/remove_unused.py *)

(** A Python [set] of strings, in insertion order.  The order in which
    the source iterates a set is not specified by the language; it shows
    only in which of several equally ranked definitions a call marks as
    used. *)
Definition set_mem (x : string) (sset : list string) : bool :=
  existsb (String.eqb x) sset.

Definition set_add (x : string) (sset : list string) : list string :=
  if set_mem x sset then sset else sset ++ [x].

Definition set_discard (x : string) (sset : list string) : list string :=
  List.filter (fun y => negb (String.eqb x y)) sset.

Module DetermineUnused.

(** The attributes of a [_DetermineUnused] visitor. *)
Record t : Type := mk {
  declared : list string;
  unused : list string
}.

Definition empty : t := mk [] [].

(** [self.unused.add(name); self.declared.add(name)]. *)
Definition declare (name : string) (du : t) : t :=
  mk (set_add name (declared du)) (set_add name (unused du)).

(** [_DetermineUnused.visit_Identifier]. *)
Definition visit_Identifier (name : string) (du : t) : t :=
  mk (declared du) (set_discard name (unused du)).

(** [matches = signature.match(self.unused); if matches:
    self.unused.discard(matches[0])]. *)
Definition mark_used (signature : FunctionSignature) (du : t) : result t :=
  let* matches := FunctionSig.match_ signature (unused du) in
  match matches with
  | m :: _ => Ok (mk (declared du) (set_discard m (unused du)))
  | [] => Ok du
  end.

Definition visit_option {A : Type} (f : A -> t -> t) (x : option A) (du : t) : t :=
  match x with
  | Some a => f a du
  | None => du
  end.

(** The generic visitor on expressions.  The operand of a
    [UnaryExpression] is not visited. *)
Fixpoint visit_expr (node : expr) (du : t) : t :=
  match node with
  | Identifier name => visit_Identifier name du
  | IntegerLiteral _ | FloatLiteral _ | BooleanLiteral _
  | DurationLiteral _ _ => du
  | ArrayLiteral values =>
      fold_left (fun du value => visit_expr value du) values du
  | UnaryExpression _ _ => du
  | BinaryExpression _ lhs rhs => visit_expr rhs (visit_expr lhs du)
  | FunctionCall name arguments =>
      fold_left (fun du arg => visit_expr arg du) arguments
        (visit_Identifier name du)
  | RangeDefinition start end_ step =>
      visit_option visit_expr step
        (visit_option visit_expr end_
           (visit_option visit_expr start du))
  end.

Definition visit_exprs (nodes : list expr) (du : t) : t :=
  fold_left (fun du node => visit_expr node du) nodes du.

(** The generic visitor on types. *)
Fixpoint visit_type (node : ctype) (du : t) : t :=
  match node with
  | IntType size | UintType size | FloatType size | AngleType size
  | BitType size => visit_option visit_expr size du
  | ComplexType base_type => visit_option visit_type base_type du
  | ArrayType base_type dimensions =>
      visit_exprs dimensions (visit_type base_type du)
  | BoolType | DurationType | StretchType | PortType | FrameType
  | WaveformType => du
  end.

(** [_DetermineUnused.visit_QuantumMeasurement]. *)
Definition visit_QuantumMeasurement (m : QuantumMeasurement) (du : t) : result t :=
  mark_used (signature_QuantumMeasurement m) du.

Definition visit_rvalue (r : rvalue) (du : t) : result t :=
  match r with
  | RExpr e => Ok (visit_expr e du)
  | RMeasure m => visit_QuantumMeasurement m du
  end.

Definition visit_opt_rvalue (r : option rvalue) (du : t) : result t :=
  match r with
  | Some r => visit_rvalue r du
  | None => Ok du
  end.

(** The generic visitor on the arguments of a subroutine. *)
Definition visit_sub_argument (a : sub_argument) (du : t) : t :=
  match a with
  | SubClassicalArgument type name => visit_Identifier name (visit_type type du)
  | QuantumArgument name size =>
      visit_option visit_expr size (visit_Identifier name du)
  end.

Definition visit_defcal_argument (a : defcal_argument) (du : t) : t :=
  match a with
  | ClassicalArgument type name => visit_Identifier name (visit_type type du)
  | ExpressionArgument e => visit_expr e du
  end.

Section Statements.

Variable str_float : Q -> string.

(** [self.visit] on a statement: the overriding methods of
    [_DetermineUnused], else the generic visitor. *)
Fixpoint visit_stmt (node : stmt) (du : t) {struct node} : result t :=
  let visit_list :=
    fix visit_list (nodes : list stmt) (du : t) {struct nodes} : result t :=
      match nodes with
      | [] => Ok du
      | n :: rest => let* du := visit_stmt n du in visit_list rest du
      end in
  match node with
  | ExpressionStatement expression => Ok (visit_expr expression du)
  | ClassicalDeclaration type identifier init_expression =>
      let du := declare identifier du in
      let du := visit_type type du in
      visit_opt_rvalue init_expression du
  | ConstantDeclaration type identifier init_expression =>
      let du := declare identifier du in
      let du := visit_type type du in
      Ok (visit_expr init_expression du)
  | ClassicalAssignment lvalue _ rvalue_ =>
      Ok (visit_expr rvalue_ (visit_Identifier lvalue du))
  | SubroutineDefinition name arguments body _ =>
      let du := declare name du in
      let du := fold_left (fun du arg => visit_sub_argument arg du) arguments du in
      visit_list body du
  | CalibrationDefinition name arguments qubits return_type body =>
      let* signature :=
        signature_CalibrationDefinition str_float name arguments qubits
          return_type in
      let mangled_name := FunctionSig.mangle signature in
      let du := declare mangled_name du in
      let du := fold_left (fun du arg => visit_defcal_argument arg du) arguments du in
      let du := fold_left (fun du qubit => visit_Identifier qubit du) qubits du in
      visit_list body du
  | CalibrationStatement body => visit_list body du
  | QuantumGate name arguments qubits =>
      let* signature := signature_QuantumGate str_float name arguments qubits in
      let* du := mark_used signature du in
      Ok (visit_exprs arguments du)
  | QuantumReset qubits => mark_used (signature_QuantumReset qubits) du
  | QuantumMeasurementStatement measure target =>
      let* du := visit_QuantumMeasurement measure du in
      Ok (visit_option visit_Identifier target du)
  | ReturnStatement expression => visit_opt_rvalue expression du
  | BranchingStatement condition if_block else_block =>
      let du := visit_expr condition du in
      let* du := visit_list if_block du in
      visit_list else_block du
  | WhileLoop while_condition block =>
      visit_list block (visit_expr while_condition du)
  | ForInLoop type identifier set_declaration block =>
      let du := visit_type type du in
      let du := visit_Identifier identifier du in
      let du := visit_expr set_declaration du in
      visit_list block du
  | DelayInstruction duration qubits =>
      let du := visit_expr duration du in
      Ok (fold_left (fun du qubit => visit_Identifier qubit du) qubits du)
  end.

Fixpoint visit_list (nodes : list stmt) (du : t) : result t :=
  match nodes with
  | [] => Ok du
  | n :: rest => let* du := visit_stmt n du in visit_list rest du
  end.

(** [GenericVisitor.visit_Program]. *)
Definition visit_Program (node : Program) (du : t) : result t :=
  visit_list (statements node) du.

(** [_DetermineUnused(node).result()]. *)
Definition of_stmt (node : stmt) : result t := visit_stmt node empty.

Definition of_Program (node : Program) : result t := visit_Program node empty.

End Statements.

End DetermineUnused.

Module RemoveUnusedM.

(** The attributes of a [RemoveUnused] transformer. *)
Record t : Type := mk {
  unused : list string;
  declared : list string;
  remove_assignment : list string
}.

(** [RemoveUnused.__init__] before the visit. *)
Definition init : t := mk [] [] [].

(** [not l] for a list or a set. *)
Definition is_empty {A : Type} (l : list A) : bool :=
  match l with [] => true | _ => false end.

Definition isinstance_ReturnStatement (node : stmt) : bool :=
  match node with ReturnStatement _ => true | _ => false end.

Section Transformer.

Variable str_float : Q -> string.

(** The head of [RemoveUnused.visit]: when both sets are empty they
    are computed from the node at hand.  (On an expression or a type
    the computation gives two empty sets again.) *)
Definition update (du : result DetermineUnused.t) (self : t) : result t :=
  if is_empty (unused self) && is_empty (declared self) then
    let* du := du in
    Ok (mk (DetermineUnused.unused du) (DetermineUnused.declared du)
          (remove_assignment self))
  else Ok self.

(** [RemoveUnused.visit_QuantumMeasurement]: is the node kept? *)
Definition visit_QuantumMeasurement (m : QuantumMeasurement) (self : t)
    : result bool :=
  let* declared := FunctionSig.match_ (signature_QuantumMeasurement m)
                     (declared self) in
  Ok (negb (is_empty declared)).

(** [self.visit] on a statement: the new node, or [None] when the
    statement is removed. *)
Fixpoint visit_stmt (node : stmt) (self : t) {struct node}
    : result (option stmt * t) :=
  let _visit_list :=
    fix _visit_list (nodes : list stmt) (self : t) {struct nodes}
        : result (list stmt * t) :=
      match nodes with
      | [] => Ok ([], self)
      | n :: rest =>
          let* (new_node, self) := visit_stmt n self in
          let* (new_nodes, self) := _visit_list rest self in
          Ok (match new_node with
              | Some n' => n' :: new_nodes
              | None => new_nodes
              end, self)
      end in
  let* self := update (DetermineUnused.of_stmt str_float node) self in
  match node with
  | ExpressionStatement _ | ClassicalAssignment _ _ _
  | DelayInstruction _ _ => Ok (Some node, self)
  | ClassicalDeclaration _ identifier _
  | ConstantDeclaration _ identifier _ =>
      if negb (set_mem identifier (unused self)) then Ok (Some node, self)
      else Ok (None, self)
  | SubroutineDefinition name arguments body return_type =>
      let* (body, self) := _visit_list body self in
      if negb (set_mem name (unused self)) then
        Ok (Some (SubroutineDefinition name arguments body return_type), self)
      else Ok (None, self)
  | CalibrationDefinition name arguments qubits return_type body =>
      let* (body, self) := _visit_list body self in
      let* signature :=
        signature_CalibrationDefinition str_float name arguments qubits
          return_type in
      let* matches := FunctionSig.match_ signature (unused self) in
      if (is_empty matches && negb (is_empty body)) || String.eqb name "measure"
      then
        match return_type with
        | Some _ =>
            let has_return := existsb isinstance_ReturnStatement body in
            if negb has_return then
              let* signature :=
                signature_CalibrationDefinition str_float name arguments
                  qubits None in
              Ok (Some (CalibrationDefinition name arguments qubits None body),
                  mk (unused self) (declared self)
                    (set_add (FunctionSig.mangle signature)
                       (remove_assignment self)))
            else
              Ok (Some (CalibrationDefinition name arguments qubits
                          return_type body), self)
        | None =>
            Ok (Some (CalibrationDefinition name arguments qubits
                        return_type body), self)
        end
      else Ok (None, self)
  | CalibrationStatement body =>
      let* (body, self) := _visit_list body self in
      Ok (Some (CalibrationStatement body), self)
  | QuantumGate name arguments qubits =>
      let* signature := signature_QuantumGate str_float name arguments qubits in
      let* declared := FunctionSig.match_ signature (declared self) in
      if negb (is_empty declared) then Ok (Some node, self)
      else Ok (None, self)
  | QuantumReset qubits =>
      let* declared :=
        FunctionSig.match_ (signature_QuantumReset qubits) (declared self) in
      if negb (is_empty declared) then Ok (Some node, self)
      else Ok (None, self)
  | QuantumMeasurementStatement measure target =>
      let signature :=
        {| fs_name := fs_name (signature_QuantumMeasurement measure);
           fs_params := fs_params (signature_QuantumMeasurement measure);
           fs_qubits := fs_qubits (signature_QuantumMeasurement measure);
           fs_return_type := "" |} in
      let target :=
        if set_mem (FunctionSig.mangle signature) (remove_assignment self)
        then None else target in
      let* kept := visit_QuantumMeasurement measure self in
      if kept then Ok (Some (QuantumMeasurementStatement measure target), self)
      else Ok (None, self)
  | ReturnStatement expression =>
      match expression with
      | Some (RMeasure m) =>
          let* kept := visit_QuantumMeasurement m self in
          Ok (Some (ReturnStatement (if kept then expression else None)), self)
      | _ => Ok (Some node, self)
      end
  | BranchingStatement condition if_block else_block =>
      let* (if_block, self) := _visit_list if_block self in
      let* (else_block, self) := _visit_list else_block self in
      Ok (Some (BranchingStatement condition if_block else_block), self)
  | WhileLoop while_condition block =>
      let* (block, self) := _visit_list block self in
      Ok (Some (WhileLoop while_condition block), self)
  | ForInLoop type identifier set_declaration block =>
      let* (block, self) := _visit_list block self in
      Ok (Some (ForInLoop type identifier set_declaration block), self)
  end.

(** [GenericTransformer._visit_list] with [self.visit]. *)
Fixpoint _visit_list (nodes : list stmt) (self : t) : result (list stmt * t) :=
  match nodes with
  | [] => Ok ([], self)
  | n :: rest =>
      let* (new_node, self) := visit_stmt n self in
      let* (new_nodes, self) := _visit_list rest self in
      Ok (match new_node with
          | Some n' => n' :: new_nodes
          | None => new_nodes
          end, self)
  end.

(** [self.visit] on a [Program]. *)
Definition visit_Program (node : Program) (self : t) : result (Program * t) :=
  let* self := update (DetermineUnused.of_Program str_float node) self in
  let* (statements, self) := _visit_list (statements node) self in
  Ok (mkProgram statements, self).

(** [RemoveUnused(node)]: a new transformer run on the program; the
    program it leaves. *)
Definition RemoveUnused (node : Program) : result Program :=
  let* (node, _) := visit_Program node init in
  Ok node.

(** [n] passes in sequence, each with a new transformer. *)
Fixpoint passes (n : nat) (node : Program) : result Program :=
  match n with
  | O => Ok node
  | Datatypes.S n' =>
      let* node := RemoveUnused node in
      passes n' node
  end.

End Transformer.

End RemoveUnusedM.

(** ** Measures on the tree *)

(** The number of nodes of a statement that the dead-code elimination
    can remove or clear: the statements themselves, the return type of a
    calibration definition, the target of a measurement and the
    expression of a [return]. *)
Fixpoint stmt_size (node : stmt) : nat :=
  match node with
  | ExpressionStatement _ | ClassicalDeclaration _ _ _
  | ConstantDeclaration _ _ _ | ClassicalAssignment _ _ _
  | QuantumGate _ _ _ | QuantumReset _ | DelayInstruction _ _ => 1
  | SubroutineDefinition _ _ body _ => Datatypes.S (list_sum (List.map stmt_size body))
  | CalibrationDefinition _ _ _ return_type body =>
      Datatypes.S ((match return_type with Some _ => 1 | None => 0 end)
         + list_sum (List.map stmt_size body))
  | CalibrationStatement body => Datatypes.S (list_sum (List.map stmt_size body))
  | QuantumMeasurementStatement _ target =>
      Datatypes.S (match target with Some _ => 1 | None => 0 end)
  | ReturnStatement expression =>
      Datatypes.S (match expression with Some _ => 1 | None => 0 end)
  | BranchingStatement _ if_block else_block =>
      Datatypes.S (list_sum (List.map stmt_size if_block)
         + list_sum (List.map stmt_size else_block))
  | WhileLoop _ block => Datatypes.S (list_sum (List.map stmt_size block))
  | ForInLoop _ _ _ block => Datatypes.S (list_sum (List.map stmt_size block))
  end.

Definition block_size (nodes : list stmt) : nat :=
  list_sum (List.map stmt_size nodes).

Definition program_size (node : Program) : nat :=
  block_size (statements node).

(** * Vocabulary of the statements and example programs *)

(** Induction on statements, with the hypothesis for every statement of
    a nested block. *)
Section stmt_induction.

Variable P : stmt -> Prop.

Hypothesis H_ExpressionStatement : forall e, P (ExpressionStatement e).
Hypothesis H_ClassicalDeclaration : forall t i e, P (ClassicalDeclaration t i e).
Hypothesis H_ConstantDeclaration : forall t i e, P (ConstantDeclaration t i e).
Hypothesis H_ClassicalAssignment : forall l o r, P (ClassicalAssignment l o r).
Hypothesis H_SubroutineDefinition :
  forall n a b r, Forall P b -> P (SubroutineDefinition n a b r).
Hypothesis H_CalibrationDefinition :
  forall n a q r b, Forall P b -> P (CalibrationDefinition n a q r b).
Hypothesis H_CalibrationStatement :
  forall b, Forall P b -> P (CalibrationStatement b).
Hypothesis H_QuantumGate : forall n a q, P (QuantumGate n a q).
Hypothesis H_QuantumReset : forall q, P (QuantumReset q).
Hypothesis H_QuantumMeasurementStatement :
  forall m t, P (QuantumMeasurementStatement m t).
Hypothesis H_ReturnStatement : forall e, P (ReturnStatement e).
Hypothesis H_BranchingStatement :
  forall c i e, Forall P i -> Forall P e -> P (BranchingStatement c i e).
Hypothesis H_WhileLoop : forall c b, Forall P b -> P (WhileLoop c b).
Hypothesis H_ForInLoop : forall t i sd b, Forall P b -> P (ForInLoop t i sd b).
Hypothesis H_DelayInstruction : forall d q, P (DelayInstruction d q).

Fixpoint stmt_induction (node : stmt) : P node :=
  let all :=
    fix all (l : list stmt) : Forall P l :=
      match l with
      | [] => @List.Forall_nil _ P
      | x :: l' => @List.Forall_cons _ P x l' (stmt_induction x) (all l')
      end in
  match node with
  | ExpressionStatement e => H_ExpressionStatement e
  | ClassicalDeclaration t i e => H_ClassicalDeclaration t i e
  | ConstantDeclaration t i e => H_ConstantDeclaration t i e
  | ClassicalAssignment l o r => H_ClassicalAssignment l o r
  | SubroutineDefinition n a b r => H_SubroutineDefinition n a b r (all b)
  | CalibrationDefinition n a q r b => H_CalibrationDefinition n a q r b (all b)
  | CalibrationStatement b => H_CalibrationStatement b (all b)
  | QuantumGate n a q => H_QuantumGate n a q
  | QuantumReset q => H_QuantumReset q
  | QuantumMeasurementStatement m t => H_QuantumMeasurementStatement m t
  | ReturnStatement e => H_ReturnStatement e
  | BranchingStatement c i e => H_BranchingStatement c i e (all i) (all e)
  | WhileLoop c b => H_WhileLoop c b (all b)
  | ForInLoop t i sd b => H_ForInLoop t i sd b (all b)
  | DelayInstruction d q => H_DelayInstruction d q
  end.

End stmt_induction.

Module MangleSpec.
Import PyStr.

(** The two parts [find] returns, mapped. *)
Definition before_all (a : string) (r : option (string * string))
    : option (string * string) :=
  match r with
  | Some (p, q) => Some (a ++ p, q)
  | None => None
  end.

(** The text before the first separator, or all of it. *)
Definition before (sep s : string) : string :=
  match find sep s with
  | Some (a, _) => a
  | None => s
  end.

Definition underscore : ascii := "_"%char.

(** The text of a list of tokens, each preceded by an underscore. *)
Fixpoint segments (tokens : list string) : string :=
  match tokens with
  | [] => ""
  | t :: rest => String underscore (t ++ segments rest)
  end.

(** The text that can follow a token: nothing, or an underscore and
    more. *)
Definition follows (y : string) : Prop :=
  y = "" \/ exists r, y = String underscore r.

(** A token that cannot be mistaken for the separator ["_" ++ X]. *)
Definition plain (X t : string) : Prop :=
  has_char underscore t = false /\ startswith X t = false.

Fixpoint all_digits (s : string) : bool :=
  match s with
  | EmptyString => true
  | String c s' => isdigit c && all_digits s'
  end.

Definition name_ok (n : string) : bool :=
  match n with
  | EmptyString => false
  | String c _ => negb (isdigit c)
  end
  && negb (contains "_ZN" n) && negb (contains "_PN" n)
  && negb (contains "_QN" n) && negb (contains "_R" n).

Definition token_ok (t : string) : bool :=
  negb (has_char underscore t) && negb (startswith "PN" t)
  && negb (startswith "QN" t) && negb (startswith "R" t).

Definition well_formed (s : FunctionSignature) : bool :=
  name_ok (fs_name s) && forallb token_ok (fs_params s)
  && forallb token_ok (fs_qubits s)
  && negb (has_char underscore (fs_return_type s)).

Definition mangled_head (s : FunctionSignature) : string :=
  "_ZN" ++ str_nat (String.length (fs_name s)) ++ fs_name s.

Definition qubit_tokens (s : FunctionSignature) : list string :=
  fs_qubits s ++ ["R" ++ fs_return_type s].

Definition param_tokens (s : FunctionSignature) : list string :=
  fs_params s
  ++ ("QN" ++ str_nat (List.length (fs_qubits s))) :: qubit_tokens s.

Definition mangled_tokens (s : FunctionSignature) : list string :=
  ("PN" ++ str_nat (List.length (fs_params s))) :: param_tokens s.

Definition my_function : FunctionSignature :=
  {| fs_name := "my_function";
     fs_params := ["param1"; "param2"; "param3"];
     fs_qubits := ["$1"; "$3"];
     fs_return_type := "ANGLE" |}.

Definition underscored_qubit : FunctionSignature :=
  {| fs_name := "x"; fs_params := []; fs_qubits := ["q_0"];
     fs_return_type := "" |}.

Definition unnamed : FunctionSignature :=
  {| fs_name := ""; fs_params := []; fs_qubits := [];
     fs_return_type := "" |}.

(** The definition's parameter is a literal and the call's is another
    text. *)
Definition literal_mismatch (params : list string) (symbol : string) : bool :=
  match MangledSignature.params symbol with
  | Ok f_params =>
      existsb (fun pf => Utilities.is_number (snd pf)
                         && negb (String.eqb (fst pf) (snd pf)))
        (combine params f_params)
  | _ => false
  end.




Definition candidate (self : FunctionSignature) (symbol : string) : bool :=
  contains ("_ZN" ++ str_nat (String.length (fs_name self)) ++ fs_name self)
    symbol
  && contains ("_PN" ++ str_nat (List.length (fs_params self))) symbol
  && contains ("_QN" ++ str_nat (List.length (fs_qubits self))) symbol.

Definition candidates (self : FunctionSignature) (mangled_names : list string)
    : list string :=
  FunctionSig.filter_symbols
    (FunctionSig.filter_symbols
       (FunctionSig.filter_symbols mangled_names
          ("_ZN" ++ str_nat (String.length (fs_name self)) ++ fs_name self))
       ("_PN" ++ str_nat (List.length (fs_params self))))
    ("_QN" ++ str_nat (List.length (fs_qubits self))).

Definition scored (self : FunctionSignature) (d : list (string * Q)) : Prop :=
  forall k v, In (k, v) d ->
    MangledSignature.match_ k (fs_params self) (fs_qubits self) = Ok v.

Definition call_f_2 : FunctionSignature :=
  {| fs_name := "f"; fs_params := ["2"]; fs_qubits := ["$1"];
     fs_return_type := "" |}.

Definition defined_f_3 : string :=
  FunctionSig.mangle
    {| fs_name := "f"; fs_params := ["3"]; fs_qubits := ["$1"];
       fs_return_type := "" |}.

Definition defined_f_param : string :=
  FunctionSig.mangle
    {| fs_name := "f"; fs_params := ["param"]; fs_qubits := ["$1"];
       fs_return_type := "" |}.

Definition long_call : FunctionSignature :=
  {| fs_name := "f"; fs_params := "3" :: repeat "1" 100; fs_qubits := [];
     fs_return_type := "" |}.

Definition long_definition : string :=
  FunctionSig.mangle
    {| fs_name := "f"; fs_params := "2" :: repeat "1" 100; fs_qubits := [];
       fs_return_type := "" |}.

End MangleSpec.

Module RemoveUnusedSpec.
Import RemoveUnusedM.

Definition option_size (r : option stmt) : nat :=
  match r with
  | Some n => stmt_size n
  | None => 0%nat
  end.

(** A visit returns the statement unchanged or something smaller. *)
Definition shrinks (str_float : Q -> string) (node : stmt) : Prop :=
  forall self r self',
    visit_stmt str_float node self = Ok (r, self') ->
    r = Some node \/ (option_size r < stmt_size node)%nat.

Definition no_floats : Q -> string := fun _ => "".

(** Three declarations, each used only by the next. *)
Definition declaration_chain : Program :=
  mkProgram
    [ClassicalDeclaration (IntType None) "a" None;
     ClassicalDeclaration (IntType None) "b" (Some (RExpr (Identifier "a")));
     ClassicalDeclaration (IntType None) "c" (Some (RExpr (Identifier "b")))].

(** A definition of the gate [x] and the sets of a tree that applies
    the gate: nothing is unused. *)
Definition used_x : stmt :=
  CalibrationDefinition "x" [] ["$0"] None
    [ExpressionStatement (IntegerLiteral 1)].

Definition used_x_state : t := mk [] ["_ZN1x_PN0_QN1_$0_R"] [].

Definition empty_measure : stmt :=
  CalibrationDefinition "measure" [] ["$0"] None [].

End RemoveUnusedSpec.

Module InterpreterSpec.
Import Interp.

Definition example_port : Port :=
  mkPort "ch1" (mkInstrument "hdawg1" HDAWG8 "DEV8000") (mkCore HD 1 [1; 2]).

Definition example_interpreter : Interpreter :=
  Interpreter_init (Some [("ch1", example_port)]) (Some []) true
    (fun _ => "") (fun _ => "").

(** The state after [call_stack.push(ActivationRecord("main", PROGRAM, 1))]. *)
Definition main_state : State :=
  snd ((let! ar := new_ActivationRecord "main" PROGRAM 1 in
        modify (fun st => set_call_stack (CallStack.push (call_stack st) ar) st))
         init_state).







Definition logical_result (op : BinaryOperator) (b : bool) (l r : value) : value :=
  match op with
  | OpAndAnd => if b then r else l
  | _ => if b then l else r
  end.

Definition counter_declarations : list stmt :=
  [ClassicalDeclaration (IntType None) "counter" (Some (RExpr (IntegerLiteral 0)));
   SubroutineDefinition "bump" []
     [ClassicalAssignment "counter" AssignEq
        (BinaryExpression OpAdd (Identifier "counter") (IntegerLiteral 1));
      ReturnStatement (Some (RExpr (BooleanLiteral true)))]
     (Some BoolType)].

Definition counter_state : State :=
  snd (visit_statements example_interpreter 5 counter_declarations main_state).

Definition false_and_bump : expr :=
  BinaryExpression OpAndAnd (BooleanLiteral false) (FunctionCall "bump" []).

Definition range_0_2_10 : expr :=
  RangeDefinition (Some (IntegerLiteral 0)) (Some (IntegerLiteral 10))
    (Some (IntegerLiteral 2)).

(** The loop over [[0:2:10]], written out: the record of the loop is
    pushed, the loop variable is bound to the start, and then to each of
    0, 2, 4, 6, 8 in turn, the body being executed after each binding. *)
Definition for_0_2_10_unrolled (visit_stmt : stmt -> M State value)
    (name : string) (block : list stmt) : M State value :=
  let! level := nesting_level in
  let! activation_record :=
    new_ActivationRecord ("for_loop_" ++ PyStr.str_int (level + 1)) LOOP
      (level + 1) in
  ar_context_manager activation_record
    (let! activation_record := peek in
     let! _ := setitem activation_record name (VInt 0) in
     let! _ :=
       for_each
         (fun i =>
            let! _ := setitem activation_record name (VInt i) in
            visit_block visit_stmt block)
         [0; 2; 4; 6; 8] in
     ret VNone).

Definition counting_loop : stmt :=
  ForInLoop (IntType None) "i" range_0_2_10
    [ClassicalAssignment "counter" AssignEq
       (BinaryExpression OpAdd (Identifier "counter") (IntegerLiteral 1))].


(** [length >= minimum_length and length % granularity == 0]. *)
Definition meets (self : Interpreter) (n : number) : bool :=
  match n with
  | NInt L => (minimum_length self <=? L) && (L mod granularity self =? 0)
  | NFloat x =>
      Qle_bool (inject_Z (minimum_length self)) x
      && Qeq_bool (q_mod x (inject_Z (granularity self))) 0
  end.





(** A recorded length is a number: an entry of the message can be
    written for it. *)
Definition numeric_length (wf : warning_info) : Prop :=
  match length_ wf with
  | VInt _ | VFloat _ | VBool _ => True
  | _ => False
  end.

(** The list of flagged waveforms only grows, by entries whose length
    is a number. *)
Definition grows (st st' : State) : Prop :=
  exists extra,
    flagged_wfs st' = (flagged_wfs st ++ extra)%list
    /\ Forall numeric_length extra.

Definition accumulates {A : Type} (m : M State A) : Prop :=
  forall st, grows st (snd (m st)).



End InterpreterSpec.

Module CallStackSpec.
(** A record whose dictionary exists and does not bind [name]. *)
Definition misses (dicts : dict_store) (name : string)
    (r : ActivationRecord) : Prop :=
  CallStack.binds dicts r name = Ok false.

(** A record whose dictionary binds [name]. *)
Definition hits (dicts : dict_store) (name : string)
    (r : ActivationRecord) : Prop :=
  CallStack.binds dicts r name = Ok true.

Definition stack_example : list ActivationRecord :=
  [mkActivationRecord "main" PROGRAM 1 1%nat;
   mkActivationRecord "f" SUBROUTINE 2 2%nat;
   mkActivationRecord "loop" LOOP 3 3%nat].

Definition dicts_example : dict_store :=
  {[ 1%nat := {[ "x" := VInt 1 ]};
     2%nat := {[ "x" := VInt 2; "y" := VInt 0 ]};
     3%nat := {[ "i" := VInt 0 ]} ]}.

End CallStackSpec.

Module FrameSpec.
Import PrimFloat Binary64.

Definition drive_port : Port :=
  mkPort "ch1" (mkInstrument "hdawg1" HDAWG8 "DEV8000") (mkCore HD 1 [1; 2]).

(** [Frame(name="drive", port=..., time=Duration(time=t))]: the frame at
    address 1, its time at address 0. *)
Definition drive_frame : Binary64.Frame :=
  Binary64.mkFrame "drive" drive_port 0 0 0%nat.

(** The frame [drive] at the time of [t] samples, and the caller's
    duration [d] at address 2. *)
Definition frame_at (t : float) (d : Binary64.Duration) : Binary64.Heap :=
  {| Binary64.durations :=
       <[2%nat := d]>
         (<[0%nat := Binary64.mkDuration (PyFloat t) TimeUnits.dt]> ∅);
     Binary64.frames := <[1%nat := drive_frame]> ∅ |}.

(** [Duration(time=31, unit=TimeUnits.dt)]. *)
Definition samples_31 : Binary64.Duration :=
  Binary64.mkDuration (PyFloat 31) TimeUnits.dt.

(** [Duration(time=1, unit=TimeUnits.us)]: 2000 samples. *)
Definition one_us : Binary64.Duration :=
  Binary64.mkDuration (PyFloat 1) TimeUnits.us.

(** [Duration(time=10, unit=TimeUnits.us)]: 20000 samples. *)
Definition ten_us : Binary64.Duration :=
  Binary64.mkDuration (PyFloat 10) TimeUnits.us.

(** The time of the frame and the caller's duration after a call of
    [advance_to]. *)
Definition times_after (h : Binary64.Heap)
    : option Binary64.Duration * option Binary64.Duration :=
  (Binary64.durations h !! 0%nat, Binary64.durations h !! 2%nat).

(** The binary64 numbers 30.999999999999996 and 1999.9999999999998. *)
Definition below_31 : float := 0x1.effffffffffffp+4%float.

Definition below_2000 : float := 0x1.f3fffffffffffp+10%float.

(** The binary64 number 19999.999999999996. *)
Definition below_20000 : float := 0x1.387ffffffffffp+14%float.

End FrameSpec.

Module MatchSpec.
Import MangleSpec PyStr.

(** The score of a candidate. *)
Definition score_of (self : FunctionSignature) (symbol : string) : result Q :=
  MangledSignature.match_ symbol (fs_params self) (fs_qubits self).

(** A candidate of the list, with a score that is not negative and that
    no candidate of the list exceeds. *)
Definition best_candidate (self : FunctionSignature)
    (mangled_names : list string) (symbol : string) : Prop :=
  In symbol mangled_names /\ candidate self symbol = true
  /\ exists v,
       score_of self symbol = Ok v /\ (0 <= v)%Q
       /\ forall symbol' v',
            In symbol' mangled_names -> candidate self symbol' = true ->
            score_of self symbol' = Ok v' -> (v' <= v)%Q.

Definition call_x90 : FunctionSignature :=
  {| fs_name := "x90"; fs_params := ["theta"]; fs_qubits := ["$0"];
     fs_return_type := "" |}.

Definition call_1_0 : FunctionSignature :=
  {| fs_name := "f"; fs_params := ["1_0"]; fs_qubits := [];
     fs_return_type := "" |}.


End MatchSpec.

Module ScopeSpec.
Definition scope_store : dict_store :=
  {[ 1%nat := {[ "x" := VInt 1 ]}; 2%nat := ∅ ]}.

Definition scope_main : ActivationRecord :=
  mkActivationRecord "main" PROGRAM 1 1%nat.

Definition scope_loop : ActivationRecord :=
  mkActivationRecord "loop" LOOP 2 2%nat.

End ScopeSpec.

Module SubroutineSpec.
Import ScopeSpec InterpreterSpec Interp.

(** The call stack is the same in both states. *)
Definition same_stack (st st' : State) : Prop :=
  call_stack st' = call_stack st.

(** A method that leaves the call stack as it found it, whatever its
    outcome. *)
Definition keeps_stack {A : Type} (m : M State A) : Prop :=
  forall st, same_stack st (snd (m st)).

(** A declaration that stores the value of its initial expression: a
    constant, or a variable of a type other than [port] and [frame]
    with an initial expression. *)
Definition stores_initial_value (node : stmt) (name : string) (e : expr) : Prop :=
  (exists type, node = ConstantDeclaration type name e)
  \/ (exists type,
        node = ClassicalDeclaration type name (Some (RExpr e))
        /\ type <> PortType /\ type <> FrameType).

Definition constant_n : stmt :=
  ConstantDeclaration (IntType None) "n" (IntegerLiteral 3).

(** The call returned a value. *)
Definition returned {A : Type} (r : result A) : bool :=
  match r with
  | Ok _ => true
  | _ => false
  end.

Definition is_return (node : stmt) : bool :=
  match node with
  | ReturnStatement _ => true
  | _ => false
  end.

Definition void_subroutine : stmt :=
  SubroutineDefinition "f" [] [ExpressionStatement (IntegerLiteral 1)] None.

(** The state after the definition of [f] has been visited. *)
Definition void_state : State :=
  snd (Interp.visit_stmt example_interpreter 1 void_subroutine main_state).

End SubroutineSpec.

Module ReducedSpec.
Import RemoveUnusedSpec RemoveUnusedM.

(** [reduced node node']: [node'] is [node] with statements of its
    blocks deleted, and with the return type of a calibration
    definition, the target of a measurement or the expression of a
    [return] cleared; nothing is added, moved or rewritten. *)
Inductive reduced : stmt -> stmt -> Prop :=
| reduced_same node : reduced node node
| reduced_SubroutineDefinition name arguments body body' return_type :
    reduced_block body body' ->
    reduced (SubroutineDefinition name arguments body return_type)
      (SubroutineDefinition name arguments body' return_type)
| reduced_CalibrationDefinition name arguments qubits return_type body body' :
    reduced_block body body' ->
    reduced (CalibrationDefinition name arguments qubits return_type body)
      (CalibrationDefinition name arguments qubits return_type body')
| reduced_CalibrationDefinition_void name arguments qubits return_type body body' :
    reduced_block body body' ->
    reduced (CalibrationDefinition name arguments qubits return_type body)
      (CalibrationDefinition name arguments qubits None body')
| reduced_CalibrationStatement body body' :
    reduced_block body body' ->
    reduced (CalibrationStatement body) (CalibrationStatement body')
| reduced_measurement_target measure target :
    reduced (QuantumMeasurementStatement measure target)
      (QuantumMeasurementStatement measure None)
| reduced_return expression :
    reduced (ReturnStatement expression) (ReturnStatement None)
| reduced_BranchingStatement condition if_block if_block' else_block else_block' :
    reduced_block if_block if_block' ->
    reduced_block else_block else_block' ->
    reduced (BranchingStatement condition if_block else_block)
      (BranchingStatement condition if_block' else_block')
| reduced_WhileLoop while_condition block block' :
    reduced_block block block' ->
    reduced (WhileLoop while_condition block) (WhileLoop while_condition block')
| reduced_ForInLoop type identifier set_declaration block block' :
    reduced_block block block' ->
    reduced (ForInLoop type identifier set_declaration block)
      (ForInLoop type identifier set_declaration block')
with reduced_block : list stmt -> list stmt -> Prop :=
| reduced_nil : reduced_block [] []
| reduced_keep node node' rest rest' :
    reduced node node' -> reduced_block rest rest' ->
    reduced_block (node :: rest) (node' :: rest')
| reduced_drop node rest rest' :
    reduced_block rest rest' -> reduced_block (node :: rest) rest'.

(** A visit that keeps the statement returns a reduced statement. *)
Definition reduces (str_float : Q -> string) (node : stmt) : Prop :=
  forall self r self',
    visit_stmt str_float node self = Ok (r, self') ->
    forall node', r = Some node' -> reduced node node'.

(** A subroutine with an unused local variable, an unused global
    variable and a call of the subroutine. *)
Definition subroutine_program : Program :=
  mkProgram
    [SubroutineDefinition "f" []
       [ClassicalDeclaration (IntType None) "u" None;
        ReturnStatement (Some (RExpr (IntegerLiteral 1)))]
       (Some (IntType None));
     ClassicalDeclaration (IntType None) "w" None;
     ExpressionStatement (FunctionCall "f" [])].

Definition subroutine_program_reduced : Program :=
  mkProgram
    [SubroutineDefinition "f" []
       [ReturnStatement (Some (RExpr (IntegerLiteral 1)))]
       (Some (IntType None));
     ExpressionStatement (FunctionCall "f" [])].

End ReducedSpec.

Module UnusedSpec.
Import RemoveUnusedSpec ReducedSpec DetermineUnused.

(** Every unused name is a declared name. *)
Definition consistent (du : t) : Prop := incl (unused du) (declared du).

(** A visit that declares nothing and only marks names as used. *)
Definition narrows (du du' : t) : Prop :=
  declared du' = declared du /\ incl (unused du') (unused du).

(** A visit of a statement keeps the unused names among the declared
    ones. *)
Definition keeps_consistent (str_float : Q -> string) (node : stmt) : Prop :=
  forall du du',
    visit_stmt str_float node du = Ok du' -> consistent du -> consistent du'.

End UnusedSpec.

Module SurvivalSpec.
(** [node] declares the classical variable or constant [name]. *)
Definition declares (node : stmt) (name : string) : Prop :=
  (exists type init, node = ClassicalDeclaration type name init)
  \/ (exists type init, node = ConstantDeclaration type name init).

(** The declared names of [du] are declared in [du']. *)
Definition extends (du du' : DetermineUnused.t) : Prop :=
  incl (DetermineUnused.declared du) (DetermineUnused.declared du').

Definition keeps_declared (str_float : Q -> string) (node : stmt) : Prop :=
  forall du du',
    DetermineUnused.visit_stmt str_float node du = Ok du' -> extends du du'.

(** One of the two sets of the transformer holds a name: [visit] does
    not compute them again. *)
Definition computed (self : RemoveUnusedM.t) : Prop :=
  RemoveUnusedM.is_empty (RemoveUnusedM.unused self)
  && RemoveUnusedM.is_empty (RemoveUnusedM.declared self) = false.

Definition same_sets (self self' : RemoveUnusedM.t) : Prop :=
  RemoveUnusedM.unused self' = RemoveUnusedM.unused self
  /\ RemoveUnusedM.declared self' = RemoveUnusedM.declared self.

Definition keeps_sets (str_float : Q -> string) (node : stmt) : Prop :=
  forall self r self',
    RemoveUnusedM.visit_stmt str_float node self = Ok (r, self') ->
    computed self -> same_sets self self'.

End SurvivalSpec.

(** * Theorems *)

#[local] Arguments String.append : simpl nomatch.

Module MangleFacts.
Import PyStr MangleSpec.

(** * Python strings *)

Lemma append_nil_r (a : string) : a ++ "" = a.
Proof. induction a as [|x a IH]; [reflexivity|]. simpl. f_equal. exact IH. Qed.

Lemma append_assoc (a b c : string) : (a ++ b) ++ c = a ++ (b ++ c).
Proof. induction a as [|x a IH]; [reflexivity|]. simpl. f_equal. exact IH. Qed.

Lemma length_append (a b : string) :
  String.length (a ++ b) = (String.length a + String.length b)%nat.
Proof. induction a as [|x a IH]; [reflexivity|]. simpl. f_equal. exact IH. Qed.

Lemma drop_append (a b : string) : drop (String.length a) (a ++ b) = b.
Proof. induction a as [|x a IH]; [reflexivity|]. simpl. exact IH. Qed.

Lemma startswith_append (p s : string) : startswith p (p ++ s) = true.
Proof.
  induction p as [|x p IH]; [reflexivity|]. simpl.
  rewrite Ascii.eqb_refl. exact IH.
Qed.

(** A prefix found in [s] is found in [s ++ t]. *)
Lemma startswith_weaken (p s t : string) :
  startswith p s = true -> startswith p (s ++ t) = true.
Proof.
  revert s. induction p as [|x p IH]; intros s H; [reflexivity|].
  destruct s as [|y s]; [discriminate H|]. simpl in *.
  destruct (Ascii.eqb x y); [apply IH; exact H|discriminate H].
Qed.

Lemma startswith_drop (p s t : string) :
  startswith p s = true ->
  drop (String.length p) (s ++ t) = drop (String.length p) s ++ t.
Proof.
  revert s. induction p as [|x p IH]; intros s H; [reflexivity|].
  destruct s as [|y s]; [discriminate H|]. simpl in *.
  destruct (Ascii.eqb x y); [apply IH; exact H|discriminate H].
Qed.

Lemma before_all_append (a b : string) (r : option (string * string)) :
  before_all a (before_all b r) = before_all (a ++ b) r.
Proof. destruct r as [[p q]|]; simpl; [rewrite append_assoc|]; reflexivity. Qed.

Lemma find_step (sep : string) (c : ascii) (s : string) :
  find sep (String c s)
  = if startswith sep (String c s)
    then Some ("", drop (String.length sep) (String c s))
    else before_all (String c "") (find sep s).
Proof.
  cbn [find]. destruct (startswith sep (String c s)); [reflexivity|].
  destruct (find sep s) as [[a b]|]; reflexivity.
Qed.

Lemma find_length (sep s a b : string) :
  find sep s = Some (a, b) ->
  String.length s = (String.length a + String.length sep + String.length b)%nat
  /\ s = a ++ sep ++ b.
Proof.
  revert a b. induction s as [|c s IH]; intros a b H.
  - cbn [find] in H. destruct (startswith sep "") eqn:E; [|discriminate H].
    destruct sep; [|discriminate E]. injection H as <- <-. split; reflexivity.
  - rewrite find_step in H. destruct (startswith sep (String c s)) eqn:E.
    + injection H as <- <-.
      assert (Hg : forall p t, startswith p t = true ->
                     String.length t = (String.length p + String.length (drop (String.length p) t))%nat
                     /\ t = p ++ drop (String.length p) t).
      { clear. induction p as [|x p IH]; intros t H; [split; reflexivity|].
        destruct t as [|y t]; [discriminate H|]. simpl in H.
        destruct (Ascii.eqb x y) eqn:Exy; [|discriminate H].
        apply Ascii.eqb_eq in Exy. subst y.
        destruct (IH t H) as [H1 H2]. simpl. split; f_equal; assumption. }
      destruct (Hg _ _ E) as [H1 H2]. split; [rewrite H1 at 1; simpl; lia|exact H2].
    + destruct (find sep s) as [[a' b']|]; [|discriminate H].
      simpl in H. injection H as <- <-.
      destruct (IH a' b' eq_refl) as [H1 H2]. split; [simpl; lia|].
      simpl. f_equal. exact H2.
Qed.

(** ** [split] by its first cut *)

Lemma split_fuel_enough (sep : string) :
  sep <> "" ->
  forall n s, (String.length s <= n)%nat ->
    split_fuel n sep s = split_fuel (String.length s) sep s.
Proof.
  intros Hsep. intros n. induction n as [n IH] using lt_wf_ind. intros s Hn.
  destruct n as [|n].
  - assert (String.length s = 0%nat) as -> by lia. reflexivity.
  - destruct (String.length s) as [|m] eqn:Hm.
    + destruct s; [|discriminate Hm]. simpl.
      destruct sep; [contradiction|reflexivity].
    + simpl. destruct (find sep s) as [[a b]|] eqn:E; [|reflexivity].
      destruct (find_length _ _ _ _ E) as [Hlen _].
      assert (0 < String.length sep)%nat by (destruct sep; [contradiction|simpl; lia]).
      f_equal. rewrite (IH n ltac:(lia) b ltac:(lia)).
      rewrite (IH m ltac:(lia) b ltac:(lia)). reflexivity.
Qed.

Lemma split_cut (sep s a b : string) :
  sep <> "" -> find sep s = Some (a, b) -> split sep s = a :: split sep b.
Proof.
  intros Hsep E. unfold split.
  destruct (find_length _ _ _ _ E) as [Hlen _].
  assert (0 < String.length sep)%nat by (destruct sep; [contradiction|simpl; lia]).
  destruct (String.length s) as [|m] eqn:Hm; [lia|].
  simpl. rewrite E. f_equal. apply split_fuel_enough; [exact Hsep|lia].
Qed.

Lemma split_whole (sep s : string) : find sep s = None -> split sep s = [s].
Proof.
  intros E. unfold split. destruct (String.length s); simpl; [reflexivity|].
  rewrite E. reflexivity.
Qed.

Lemma split_index_0 (sep s : string) :
  sep <> "" -> index (split sep s) 0 = Ok (before sep s).
Proof.
  intros Hsep. unfold before. destruct (find sep s) as [[a b]|] eqn:E.
  - rewrite (split_cut _ _ _ _ Hsep E). reflexivity.
  - rewrite (split_whole _ _ E). reflexivity.
Qed.

Lemma split_index_1 (sep s : string) :
  sep <> "" ->
  index (split sep s) 1
  = match find sep s with
    | Some (_, b) => Ok (before sep b)
    | None => Raise IndexError
    end.
Proof.
  intros Hsep. destruct (find sep s) as [[a b]|] eqn:E.
  - rewrite (split_cut _ _ _ _ Hsep E). unfold index. simpl.
    pose proof (split_index_0 sep b Hsep) as H0. unfold index in H0.
    simpl in H0. exact H0.
  - rewrite (split_whole _ _ E). reflexivity.
Qed.

(** ** Separators that begin with an underscore *)

Lemma follows_segments (tokens : list string) : follows (segments tokens).
Proof. destruct tokens; [left|right; eexists]; reflexivity. Qed.

(** An occurrence of [X] cannot run over the end of a token into the
    underscore that follows. *)
Lemma startswith_token (X t y : string) :
  has_char underscore X = false ->
  follows y -> startswith X (t ++ y) = startswith X t.
Proof.
  intros HX Hy. destruct Hy as [-> | [r ->]]; [rewrite append_nil_r; reflexivity|].
  revert t. induction X as [|x X' IH]; intros t; [reflexivity|].
  cbn [has_char] in HX. apply orb_false_iff in HX as [Hx HX'].
  destruct t as [|c t]; cbn [startswith append].
  - rewrite Ascii.eqb_sym in Hx. rewrite Hx. reflexivity.
  - destruct (Ascii.eqb x c); [apply IH; exact HX'|reflexivity].
Qed.

Section Separator.

(** The separator is ["_" ++ X], and [X] has no underscore. *)
Variable X : string.
Hypothesis X_clean : has_char underscore X = false.

Local Abbreviation sep := (String underscore X).

Lemma find_underscore (y : string) :
  find sep (String underscore y)
  = if startswith X y then Some ("", drop (String.length X) y)
    else before_all (String underscore "") (find sep y).
Proof.
  rewrite find_step. cbn [startswith String.length drop].
  rewrite Ascii.eqb_refl. reflexivity.
Qed.

(** No occurrence begins inside a token without underscore. *)
Lemma find_token (t y : string) :
  has_char underscore t = false ->
  find sep (t ++ y) = before_all t (find sep y).
Proof.
  intros Ht. induction t as [|c t IH].
  - simpl. destruct (find sep y) as [[p q]|]; reflexivity.
  - cbn [has_char] in Ht. apply orb_false_iff in Ht as [Hc Ht].
    cbn [append]. rewrite find_step. cbn [startswith].
    rewrite Hc. rewrite (IH Ht).
    destruct (find sep y) as [[p q]|]; reflexivity.
Qed.

(** No occurrence begins inside a text that holds none, when an
    underscore or nothing follows. *)
Lemma find_through (a y : string) :
  contains sep a = false -> follows y ->
  find sep (a ++ y) = before_all a (find sep y).
Proof.
  intros Ha Hy. induction a as [|c a IH].
  - simpl. destruct (find sep y) as [[p q]|]; reflexivity.
  - unfold contains in Ha. rewrite find_step in Ha.
    destruct (startswith sep (String c a)) eqn:E; [discriminate Ha|].
    assert (Ha' : contains sep a = false).
    { unfold contains. destruct (find sep a) as [[p q]|]; [discriminate Ha|reflexivity]. }
    cbn [append]. rewrite find_step.
    assert (E' : startswith sep (String c (a ++ y)) = false).
    { cbn [startswith] in *.
      destruct (Ascii.eqb underscore c); [|reflexivity].
      rewrite (startswith_token X a y X_clean Hy). exact E. }
    rewrite E'. rewrite (IH Ha').
    destruct (find sep y) as [[p q]|]; reflexivity.
Qed.

Lemma find_segments_skip (t : string) (rest : list string) :
  plain X t ->
  find sep (segments (t :: rest))
  = before_all (String underscore t) (find sep (segments rest)).
Proof.
  intros [Ht Hs]. cbn [segments]. rewrite find_underscore.
  rewrite (startswith_token X t _ X_clean (follows_segments rest)), Hs.
  rewrite (find_token t _ Ht).
  destruct (find sep (segments rest)) as [[p q]|]; reflexivity.
Qed.

Lemma find_segments_hit (t : string) (rest : list string) :
  startswith X t = true ->
  find sep (segments (t :: rest))
  = Some ("", drop (String.length X) t ++ segments rest).
Proof.
  intros Hs. cbn [segments]. rewrite find_underscore.
  rewrite (startswith_weaken _ _ _ Hs), (startswith_drop _ _ _ Hs). reflexivity.
Qed.

Lemma find_segments_none (tokens : list string) :
  Forall (plain X) tokens -> find sep (segments tokens) = None.
Proof.
  induction 1 as [|t rest Ht _ IH].
  - reflexivity.
  - rewrite (find_segments_skip t rest Ht), IH. reflexivity.
Qed.

Lemma segments_app (a b : list string) :
  segments (a ++ b) = segments a ++ segments b.
Proof.
  induction a as [|t a IH]; [reflexivity|].
  cbn [segments app append]. rewrite IH, append_assoc. reflexivity.
Qed.

(** The first token that begins with [X] is where the text is cut. *)
Lemma find_segments (pre : list string) (t : string) (post : list string) :
  Forall (plain X) pre -> startswith X t = true ->
  find sep (segments (pre ++ t :: post))
  = Some (segments pre, drop (String.length X) t ++ segments post).
Proof.
  intros Hpre Ht. induction Hpre as [|u pre Hu _ IH].
  - apply find_segments_hit. exact Ht.
  - cbn [app]. rewrite (find_segments_skip u _ Hu), IH. reflexivity.
Qed.

End Separator.

(** ** Decimal numerals *)

Lemma string_of_uint_digits (u : Decimal.uint) :
  all_digits (NilEmpty.string_of_uint u) = true.
Proof. induction u; simpl; try assumption; reflexivity. Qed.

Lemma str_nat_digits (n : nat) : all_digits (str_nat n) = true.
Proof. apply string_of_uint_digits. Qed.

Lemma digit_not_underscore (c : ascii) :
  isdigit c = true -> Ascii.eqb underscore c = false.
Proof.
  intros H. destruct (Ascii.eqb_spec underscore c) as [<-|]; [|reflexivity].
  discriminate H.
Qed.

Lemma digits_no_underscore (d : string) :
  all_digits d = true -> has_char underscore d = false.
Proof.
  induction d as [|c d IH]; [reflexivity|]. cbn [all_digits has_char].
  intros H. apply andb_true_iff in H as [Hc Hd].
  rewrite (digit_not_underscore c Hc), (IH Hd). reflexivity.
Qed.

Lemma skip_digits_numeral (d : string) (c : ascii) (rest : string) :
  all_digits d = true -> isdigit c = false ->
  MangledSignature.skip_digits (d ++ String c rest) = Ok (String c rest).
Proof.
  intros Hd Hc. induction d as [|x d IH].
  - cbn [append MangledSignature.skip_digits]. rewrite Hc. reflexivity.
  - cbn [all_digits] in Hd. apply andb_true_iff in Hd as [Hx Hd].
    cbn [append MangledSignature.skip_digits]. rewrite Hx. exact (IH Hd).
Qed.

(** ** Joined tokens *)

Lemma join_segments (x : string) (l : list string) :
  join "_" (x :: l) = x ++ segments l.
Proof.
  revert x. induction l as [|y l IH]; intros x.
  - cbn [join segments]. rewrite append_nil_r. reflexivity.
  - change (join "_" (x :: y :: l)) with (x ++ "_" ++ join "_" (y :: l)).
    rewrite IH. reflexivity.
Qed.

Lemma optional_underscore_join (l : list string) :
  (if (0 <? List.length l)%nat then "_" else "") ++ join "_" l = segments l.
Proof.
  destruct l as [|x l]; [reflexivity|].
  change ((0 <? List.length (x :: l))%nat) with true. cbv iota.
  rewrite join_segments. reflexivity.
Qed.

Lemma split_tokens (t0 : string) (ts : list string) :
  Forall (fun t => has_char underscore t = false) (t0 :: ts) ->
  split "_" (t0 ++ segments ts) = t0 :: ts.
Proof.
  revert t0. induction ts as [|t ts IH]; intros t0 Hall.
  - inversion Hall as [|? ? H0 _]; subst. cbn [segments].
    rewrite append_nil_r. apply split_whole.
    pose proof (find_token "" t0 "" H0) as E.
    rewrite append_nil_r in E. exact E.
  - inversion Hall as [|? ? H0 Hrest]; subst.
    rewrite (split_cut "_" _ t0 (t ++ segments ts)).
    + f_equal. apply IH. exact Hrest.
    + discriminate.
    + change "_" with (String underscore "").
      rewrite (find_token "" t0 _ H0). cbn [segments].
      rewrite (find_underscore "" (t ++ segments ts)).
      cbn [startswith String.length drop before_all].
      rewrite append_nil_r. reflexivity.
Qed.

(** ** Round trip through the mangled name *)

Lemma mangle_segments (s : FunctionSignature) :
  FunctionSig.mangle s = mangled_head s ++ segments (mangled_tokens s).
Proof.
  unfold FunctionSig.mangle, mangled_head, mangled_tokens, param_tokens,
    qubit_tokens.
  rewrite <- (append_assoc (if (0 <? List.length (fs_params s))%nat then "_" else "")).
  rewrite <- (append_assoc (if (0 <? List.length (fs_qubits s))%nat then "_" else "")).
  rewrite !optional_underscore_join.
  cbn [segments]. repeat (rewrite segments_app; cbn [segments]).
  rewrite ?append_assoc. cbn [append]. rewrite ?append_assoc.
  rewrite append_nil_r. reflexivity.
Qed.

Lemma token_ok_spec (t : string) :
  token_ok t = true ->
  has_char underscore t = false
  /\ plain "PN" t /\ plain "QN" t /\ plain "R" t.
Proof.
  unfold token_ok, plain. rewrite !andb_true_iff, !negb_true_iff.
  intros [[[H0 H1] H2] H3]. repeat split; assumption.
Qed.

Lemma tokens_ok_spec (X : string) (l : list string) :
  X = "PN" \/ X = "QN" \/ X = "R" ->
  forallb token_ok l = true -> Forall (plain X) l.
Proof.
  intros HX H. rewrite forallb_forall in H. apply List.Forall_forall.
  intros t Ht. destruct (token_ok_spec t (H t Ht)) as (_ & HP & HQ & HR).
  destruct HX as [-> | [-> | ->]]; assumption.
Qed.

Lemma tokens_clean (l : list string) :
  forallb token_ok l = true ->
  Forall (fun t => has_char underscore t = false) l.
Proof.
  intros H. rewrite forallb_forall in H. apply List.Forall_forall.
  intros t Ht. exact (proj1 (token_ok_spec t (H t Ht))).
Qed.

Lemma find_clean (X t : string) :
  has_char underscore t = false -> find (String underscore X) t = None.
Proof.
  intros Ht. pose proof (find_token X t "" Ht) as E.
  rewrite append_nil_r in E. rewrite E. destruct X; reflexivity.
Qed.

Lemma well_formed_parts (s : FunctionSignature) :
  well_formed s = true ->
  name_ok (fs_name s) = true /\ forallb token_ok (fs_params s) = true
  /\ forallb token_ok (fs_qubits s) = true
  /\ has_char underscore (fs_return_type s) = false.
Proof.
  unfold well_formed. rewrite !andb_true_iff, negb_true_iff. tauto.
Qed.

Lemma name_ok_parts (n : string) :
  name_ok n = true ->
  (exists c r, n = String c r /\ isdigit c = false)
  /\ contains "_ZN" n = false /\ contains "_PN" n = false
  /\ contains "_QN" n = false /\ contains "_R" n = false.
Proof.
  unfold name_ok. rewrite !andb_true_iff, !negb_true_iff.
  intros ((((H0 & H1) & H2) & H3) & H4).
  repeat split; try assumption.
  destruct n as [|c r]; [discriminate H0|].
  exists c, r. split; [reflexivity|]. apply negb_true_iff. exact H0.
Qed.

Lemma numeral_clean (p : string) (n : nat) :
  has_char underscore p = false ->
  has_char underscore (p ++ str_nat n) = false.
Proof.
  intros Hp. induction p as [|c p IH].
  - apply digits_no_underscore, str_nat_digits.
  - cbn [append has_char] in *. apply orb_false_iff in Hp as [Hc Hp].
    rewrite Hc. exact (IH Hp).
Qed.

Lemma before_cut (X cnt : string) (pre : list string) (t : string)
    (post : list string) :
  has_char underscore X = false -> has_char underscore cnt = false ->
  Forall (plain X) pre -> startswith X t = true ->
  before (String underscore X) (cnt ++ segments (pre ++ t :: post))
  = cnt ++ segments pre.
Proof.
  intros HX Hcnt Hpre Ht. unfold before.
  rewrite (find_token X cnt _ Hcnt), (find_segments X HX pre t post Hpre Ht).
  reflexivity.
Qed.

Lemma before_whole (X cnt : string) (l : list string) :
  has_char underscore X = false -> has_char underscore cnt = false ->
  Forall (plain X) l ->
  before (String underscore X) (cnt ++ segments l) = cnt ++ segments l.
Proof.
  intros HX Hcnt Hl. unfold before.
  rewrite (find_token X cnt _ Hcnt), (find_segments_none X HX l Hl).
  reflexivity.
Qed.

Section Roundtrip.

Variable s : FunctionSignature.
Hypothesis s_ok : well_formed s = true.

(** The head of the mangled name holds no separator. *)
Lemma find_head (X T : string) :
  X = "PN" \/ X = "QN" \/ X = "R" -> follows T ->
  find (String underscore X) (mangled_head s ++ T)
  = before_all (mangled_head s) (find (String underscore X) T).
Proof.
  intros HX HT.
  assert (Hclean : has_char underscore X = false)
    by (destruct HX as [-> | [-> | ->]]; reflexivity).
  assert (Hname : contains (String underscore X) (fs_name s) = false).
  { destruct (name_ok_parts _ (proj1 (well_formed_parts s s_ok)))
      as (_ & _ & HP & HQ & HR).
    destruct HX as [-> | [-> | ->]]; assumption. }
  assert (HZ : forall y, startswith X (String "Z" y) = false)
    by (intros y; destruct HX as [-> | [-> | ->]]; reflexivity).
  set (len := str_nat (String.length (fs_name s))).
  assert (Hlen : has_char underscore ("ZN" ++ len) = false)
    by (apply numeral_clean; reflexivity).
  replace (mangled_head s ++ T)
    with (String underscore (("ZN" ++ len) ++ (fs_name s ++ T))).
  2:{ unfold mangled_head. fold len. cbn [append].
      rewrite !append_assoc. reflexivity. }
  rewrite find_underscore.
  replace (startswith X (("ZN" ++ len) ++ fs_name s ++ T)) with false
    by (symmetry; apply HZ).
  rewrite (find_token X _ _ Hlen).
  rewrite (find_through X Hclean _ _ Hname HT).
  rewrite !before_all_append. f_equal.
Qed.

Lemma params_plain (X : string) :
  X = "PN" \/ X = "QN" \/ X = "R" -> Forall (plain X) (fs_params s).
Proof.
  intros HX. apply (tokens_ok_spec X _ HX).
  exact (proj1 (proj2 (well_formed_parts s s_ok))).
Qed.

Lemma qubits_plain (X : string) :
  X = "PN" \/ X = "QN" \/ X = "R" -> Forall (plain X) (fs_qubits s).
Proof.
  intros HX. apply (tokens_ok_spec X _ HX).
  exact (proj1 (proj2 (proj2 (well_formed_parts s s_ok)))).
Qed.

Lemma return_token_plain (X : string) :
  X = "PN" \/ X = "QN" -> plain X ("R" ++ fs_return_type s).
Proof.
  intros HX. split.
  - cbn [append has_char].
    rewrite (proj2 (proj2 (proj2 (well_formed_parts s s_ok)))). reflexivity.
  - destruct HX as [-> | ->]; reflexivity.
Qed.

Lemma count_token_plain (X p : string) (n : nat) :
  has_char underscore p = false -> startswith X p = false ->
  (String.length X <= String.length p)%nat -> plain X (p ++ str_nat n).
Proof.
  intros Hp Hs Hlen. split; [apply numeral_clean; exact Hp|].
  revert p Hp Hs Hlen. induction X as [|x X IH]; intros p Hp Hs Hlen.
  - discriminate Hs.
  - destruct p as [|c p]; [simpl in Hlen; lia|].
    cbn [append startswith] in *. destruct (Ascii.eqb x c); [|reflexivity].
    cbn [has_char] in Hp. apply orb_false_iff in Hp as [_ Hp].
    apply IH; [exact Hp|exact Hs|simpl in Hlen; lia].
Qed.

(** Where the three separators cut the mangled name. *)
Lemma find_PN :
  find "_PN" (FunctionSig.mangle s)
  = Some (mangled_head s,
          str_nat (List.length (fs_params s)) ++ segments (param_tokens s)).
Proof.
  rewrite mangle_segments.
  change "_PN" with (String underscore "PN").
  rewrite (find_head "PN" _ (or_introl eq_refl) (follows_segments _)).
  unfold mangled_tokens.
  rewrite (find_segments_hit "PN"
             ("PN" ++ str_nat (List.length (fs_params s))) _ eq_refl).
  cbn [before_all String.length drop append].
  rewrite append_nil_r. reflexivity.
Qed.

Lemma find_QN :
  find "_QN" (FunctionSig.mangle s)
  = Some (mangled_head s
          ++ segments (("PN" ++ str_nat (List.length (fs_params s)))
                       :: fs_params s),
          str_nat (List.length (fs_qubits s)) ++ segments (qubit_tokens s)).
Proof.
  rewrite mangle_segments.
  change "_QN" with (String underscore "QN").
  rewrite (find_head "QN" _ (or_intror (or_introl eq_refl)) (follows_segments _)).
  unfold mangled_tokens, param_tokens. rewrite app_comm_cons.
  rewrite (find_segments "QN" eq_refl
             (("PN" ++ str_nat (List.length (fs_params s))) :: fs_params s)
             ("QN" ++ str_nat (List.length (fs_qubits s)))
             (qubit_tokens s)).
  - reflexivity.
  - constructor.
    + apply count_token_plain; [reflexivity|reflexivity|simpl; lia].
    + apply params_plain. tauto.
  - reflexivity.
Qed.

Lemma find_R :
  find "_R" (FunctionSig.mangle s)
  = Some (mangled_head s
          ++ segments ((("PN" ++ str_nat (List.length (fs_params s)))
                        :: fs_params s)
                       ++ ("QN" ++ str_nat (List.length (fs_qubits s)))
                       :: fs_qubits s),
          fs_return_type s).
Proof.
  rewrite mangle_segments.
  change "_R" with (String underscore "R").
  rewrite (find_head "R" _ (or_intror (or_intror eq_refl)) (follows_segments _)).
  unfold mangled_tokens, param_tokens, qubit_tokens.
  set (PNtok := "PN" ++ str_nat (List.length (fs_params s))).
  set (QNtok := "QN" ++ str_nat (List.length (fs_qubits s))).
  set (Rtok := "R" ++ fs_return_type s).
  replace (PNtok :: (fs_params s ++ QNtok :: (fs_qubits s ++ [Rtok])%list)%list)
    with (((PNtok :: fs_params s) ++ QNtok :: fs_qubits s) ++ Rtok :: [])%list
    by (cbn [app]; rewrite <- app_assoc; reflexivity).
  rewrite (find_segments "R" eq_refl
             ((PNtok :: fs_params s) ++ QNtok :: fs_qubits s)%list Rtok []).
  - unfold Rtok. cbn [before_all String.length drop append segments].
    rewrite append_nil_r. reflexivity.
  - apply Forall_app. split; constructor.
    + apply count_token_plain; [reflexivity|reflexivity|simpl; lia].
    + apply params_plain. tauto.
    + apply count_token_plain; [reflexivity|reflexivity|simpl; lia].
    + apply qubits_plain. tauto.
  - reflexivity.
Qed.

Lemma name_roundtrip :
  MangledSignature.name (FunctionSig.mangle s) = Ok (fs_name s).
Proof.
  destruct (name_ok_parts _ (proj1 (well_formed_parts s s_ok)))
    as ((c & r & Hname & Hc) & HZN & _).
  unfold MangledSignature.name.
  rewrite split_index_0 by discriminate. unfold before at 1.
  rewrite find_PN. cbn [bind].
  rewrite split_index_1 by discriminate.
  set (len := str_nat (String.length (fs_name s))).
  assert (E : find "_ZN" (mangled_head s) = Some ("", len ++ fs_name s)).
  { change "_ZN" with (String underscore "ZN").
    change (mangled_head s)
      with (String underscore ("ZN" ++ len ++ fs_name s)).
    rewrite find_underscore. reflexivity. }
  rewrite E. unfold before. change "_ZN" with (String underscore "ZN").
  rewrite (find_token "ZN" len _
             (digits_no_underscore _ (str_nat_digits _))).
  unfold contains in HZN. change "_ZN" with (String underscore "ZN") in HZN.
  destruct (find (String underscore "ZN") (fs_name s)) as [[a b]|];
    [discriminate HZN|].
  cbn [before_all bind]. rewrite Hname.
  apply skip_digits_numeral; [apply str_nat_digits|exact Hc].
Qed.

Lemma params_roundtrip :
  MangledSignature.params (FunctionSig.mangle s) = Ok (fs_params s).
Proof.
  destruct (well_formed_parts s s_ok) as (_ & Hp & Hq & Hr).
  unfold MangledSignature.params.
  rewrite split_index_1 by discriminate. rewrite find_PN.
  change "_PN" with (String underscore "PN").
  rewrite before_whole;
    [|reflexivity|apply digits_no_underscore, str_nat_digits|].
  2:{ unfold param_tokens, qubit_tokens.
      apply Forall_app; split; [apply params_plain; tauto|].
      constructor;
        [apply count_token_plain; [reflexivity|reflexivity|simpl; lia]|].
      apply Forall_app; split; [apply qubits_plain; tauto|].
      constructor; [apply return_token_plain; tauto|constructor]. }
  cbn [bind]. rewrite split_index_0 by discriminate.
  change "_QN" with (String underscore "QN"). unfold param_tokens.
  rewrite before_cut;
    [|reflexivity|apply digits_no_underscore, str_nat_digits
     |apply params_plain; tauto|reflexivity].
  cbn [bind]. rewrite split_tokens; [reflexivity|].
  constructor; [apply digits_no_underscore, str_nat_digits|].
  apply tokens_clean. exact Hp.
Qed.

Lemma qubits_roundtrip :
  MangledSignature.qubits (FunctionSig.mangle s) = Ok (fs_qubits s).
Proof.
  destruct (well_formed_parts s s_ok) as (_ & Hp & Hq & Hr).
  unfold MangledSignature.qubits.
  rewrite split_index_1 by discriminate. rewrite find_QN.
  change "_QN" with (String underscore "QN").
  rewrite before_whole;
    [|reflexivity|apply digits_no_underscore, str_nat_digits|].
  2:{ unfold qubit_tokens.
      apply Forall_app; split; [apply qubits_plain; tauto|].
      constructor; [apply return_token_plain; tauto|constructor]. }
  cbn [bind]. rewrite split_index_0 by discriminate.
  change "_R" with (String underscore "R"). unfold qubit_tokens.
  rewrite before_cut;
    [|reflexivity|apply digits_no_underscore, str_nat_digits
     |apply qubits_plain; tauto|reflexivity].
  cbn [bind]. rewrite split_tokens; [reflexivity|].
  constructor; [apply digits_no_underscore, str_nat_digits|].
  apply tokens_clean. exact Hq.
Qed.

Lemma return_type_roundtrip :
  MangledSignature.return_type (FunctionSig.mangle s)
  = Ok (fs_return_type s).
Proof.
  destruct (well_formed_parts s s_ok) as (_ & _ & _ & Hr).
  unfold MangledSignature.return_type.
  rewrite split_index_1 by discriminate. rewrite find_R.
  unfold before. change "_R" with (String underscore "R").
  rewrite (find_clean "R" _ Hr). reflexivity.
Qed.

End Roundtrip.

(** C2 (amended): the accessors of [MangledSignature] give back the
    name, the parameters, the qubits and the return type of a mangled
    [FunctionSignature] whose name is not empty, does not begin with a
    digit and holds none of [_ZN], [_PN], [_QN], [_R], whose parameters
    and qubits hold no underscore and begin with none of [PN], [QN], [R],
    and whose return type holds no underscore. *)
Theorem mangle_roundtrip (s : FunctionSignature) :
  well_formed s = true ->
  MangledSignature.name (FunctionSig.mangle s) = Ok (fs_name s)
  /\ MangledSignature.params (FunctionSig.mangle s) = Ok (fs_params s)
  /\ MangledSignature.qubits (FunctionSig.mangle s) = Ok (fs_qubits s)
  /\ MangledSignature.return_type (FunctionSig.mangle s)
     = Ok (fs_return_type s).
Proof.
  intros Hs. repeat split.
  - apply name_roundtrip, Hs.
  - apply params_roundtrip, Hs.
  - apply qubits_roundtrip, Hs.
  - apply return_type_roundtrip, Hs.
Qed.

Lemma mangle_roundtrip_witness :
  well_formed my_function = true
  /\ FunctionSig.mangle my_function
     = "_ZN11my_function_PN3_param1_param2_param3_QN2_$1_$3_RANGLE"
  /\ MangledSignature.name (FunctionSig.mangle my_function) = Ok "my_function"
  /\ MangledSignature.params (FunctionSig.mangle my_function)
     = Ok ["param1"; "param2"; "param3"]
  /\ MangledSignature.qubits (FunctionSig.mangle my_function)
     = Ok ["$1"; "$3"]
  /\ MangledSignature.return_type (FunctionSig.mangle my_function)
     = Ok "ANGLE".
Proof.
  split; [reflexivity|]. split; [reflexivity|].
  exact (mangle_roundtrip my_function eq_refl).
Defined.

(** A qubit with an underscore comes back as two qubits, and the name of
    a signature without name cannot be read back. *)
Lemma underscore_breaks_roundtrip :
  FunctionSig.mangle underscored_qubit = "_ZN1x_PN0_QN1_q_0_R"
  /\ MangledSignature.qubits (FunctionSig.mangle underscored_qubit)
     = Ok ["q"; "0"]
  /\ MangledSignature.qubits (FunctionSig.mangle underscored_qubit)
     <> Ok (fs_qubits underscored_qubit)
  /\ MangledSignature.name (FunctionSig.mangle unnamed) = Raise IndexError.
Proof.
  repeat split; try reflexivity. vm_compute. discriminate.
Qed.

(** * Matching a call to the defined signatures *)




Lemma reciprocal_le_1 (z : Z) : 0 <= z -> (1 / inject_Z (z + 1) <= 1)%Q.
Proof.
  intros Hz. apply Qle_shift_div_r.
  - change 0%Q with (inject_Z 0). rewrite <- Zlt_Qlt. lia.
  - rewrite Qmult_1_l. change 1%Q with (inject_Z 1). rewrite <- Zle_Qle. lia.
Qed.


Lemma qubit_score_le_1 (n m : nat) (q fq : string) :
  (MangledSignature.qubit_score n m q fq <= 1)%Q.
Proof.
  unfold MangledSignature.qubit_score.
  destruct (String.eqb q fq || negb (has_char "$" q) && negb (has_char "$" fq));
    [apply Qle_refl|].
  destruct (has_char "$" q && negb (has_char "$" fq)).
  - replace ((Z.of_nat n + 1) * (Z.of_nat m + 1))
      with ((Z.of_nat n * Z.of_nat m + Z.of_nat n + Z.of_nat m) + 1) by lia.
    apply reciprocal_le_1. lia.
  - destruct (has_char "$" fq); discriminate.
Qed.



Section Scores.

Variable score : string -> string -> Q.
Hypothesis score_le_1 : forall x y, (score x y <= 1)%Q.


Variable bad : string * string -> bool.
Variable penalty : Q.
Hypothesis bad_score : forall x y, bad (x, y) = true -> (score x y == - penalty)%Q.


End Scores.




(** ** The candidates of a call *)

Lemma candidates_spec (self : FunctionSignature) (mangled_names : list string)
    (symbol : string) :
  In symbol (candidates self mangled_names)
  <-> In symbol mangled_names /\ candidate self symbol = true.
Proof.
  unfold candidates, FunctionSig.filter_symbols, candidate.
  rewrite !filter_In, !andb_true_iff. tauto.
Qed.

Lemma startswith_prefix (sep x s : string) :
  startswith (sep ++ x) s = true -> startswith sep s = true.
Proof.
  revert s. induction sep as [|c sep IH]; intros s H; [reflexivity|].
  destruct s as [|d s]; [discriminate H|].
  cbn [append startswith] in *.
  destruct (Ascii.eqb c d); [exact (IH s H)|discriminate H].
Qed.

Lemma contains_prefix (sep x s : string) :
  contains (sep ++ x) s = true -> contains sep s = true.
Proof.
  unfold contains. induction s as [|c s IH].
  - cbn [find]. destruct (startswith (sep ++ x) "") eqn:E; [|discriminate].
    rewrite (startswith_prefix _ _ _ E). reflexivity.
  - rewrite !find_step.
    destruct (startswith (sep ++ x) (String c s)) eqn:E.
    + rewrite (startswith_prefix _ _ _ E). reflexivity.
    + destruct (startswith sep (String c s)); [reflexivity|].
      destruct (find (sep ++ x) s) as [[a b]|]; [|discriminate].
      intros _. specialize (IH eq_refl).
      destruct (find sep s) as [[a' b']|]; [reflexivity|discriminate IH].
Qed.

Lemma params_total (x symbol : string) :
  contains ("_PN" ++ x) symbol = true ->
  exists f_params, MangledSignature.params symbol = Ok f_params.
Proof.
  intros H. apply contains_prefix in H. unfold contains in H.
  unfold MangledSignature.params.
  rewrite split_index_1 by discriminate.
  destruct (find "_PN" symbol) as [[a b]|]; [|discriminate H].
  cbn [bind]. rewrite split_index_0 by discriminate.
  cbn [bind]. eexists. reflexivity.
Qed.

Lemma qubits_total (x symbol : string) :
  contains ("_QN" ++ x) symbol = true ->
  exists f_qubits, MangledSignature.qubits symbol = Ok f_qubits.
Proof.
  intros H. apply contains_prefix in H. unfold contains in H.
  unfold MangledSignature.qubits.
  rewrite split_index_1 by discriminate.
  destruct (find "_QN" symbol) as [[a b]|]; [|discriminate H].
  cbn [bind]. rewrite split_index_0 by discriminate.
  cbn [bind]. eexists. reflexivity.
Qed.

(** Every candidate gets a score. *)
Lemma match_total (self : FunctionSignature) (symbol : string) :
  candidate self symbol = true ->
  exists v,
    MangledSignature.match_ symbol (fs_params self) (fs_qubits self) = Ok v.
Proof.
  unfold candidate. rewrite !andb_true_iff. intros [[_ HP] HQ].
  destruct (params_total _ _ HP) as [f_params Ep].
  destruct (qubits_total _ _ HQ) as [f_qubits Eq].
  unfold MangledSignature.match_. rewrite Ep, Eq. cbn [bind].
  eexists. reflexivity.
Qed.

(** ** The dictionary of scores *)

Lemma dict_set_scored (self : FunctionSignature) (d : list (string * Q))
    (k : string) (v : Q) :
  scored self d ->
  MangledSignature.match_ k (fs_params self) (fs_qubits self) = Ok v ->
  scored self (FunctionSig.dict_set d k v).
Proof.
  intros Hd Hv. induction d as [|[k' v'] d IH].
  - intros k0 v0 [E|[]]. injection E as <- <-. exact Hv.
  - cbn [FunctionSig.dict_set]. destruct (String.eqb_spec k' k) as [->|Hne].
    + intros k0 v0 [E|Hin].
      * injection E as <- <-. exact Hv.
      * apply Hd. right. exact Hin.
    + intros k0 v0 [E|Hin].
      * apply Hd. left. exact E.
      * apply IH; [|exact Hin].
        intros k1 v1 H1. apply Hd. right. exact H1.
Qed.

Lemma match_dict_of_total (self : FunctionSignature) (f_symbols : list string) :
  forall d,
    Forall (fun symbol => candidate self symbol = true) f_symbols ->
    scored self d ->
    exists d', FunctionSig.match_dict_of self f_symbols d = Ok d'
               /\ scored self d'.
Proof.
  induction f_symbols as [|symbol rest IH]; intros d Hall Hd.
  - exists d. split; [reflexivity|exact Hd].
  - inversion Hall as [|? ? Hc Hrest]; subst.
    destruct (match_total self symbol Hc) as [v Hv].
    cbn [FunctionSig.match_dict_of]. rewrite Hv. cbn [bind].
    apply IH; [exact Hrest|]. apply dict_set_scored; assumption.
Qed.



(** The call [f(2) $1] selects the definition with a generic parameter
    and not the one for the literal [3]. *)
Lemma f_2_selects_generic_definition :
  defined_f_3 = "_ZN1f_PN1_3_QN1_$1_R"
  /\ candidate call_f_2 defined_f_3 = true
  /\ FunctionSig.match_ call_f_2 [defined_f_3; defined_f_param]
     = Ok [defined_f_param].
Proof. repeat split; vm_compute; reflexivity. Qed.

(** C1 fails beyond that reach: the penalty for a literal mismatch is
    the constant 100, and a hundred matching literals make up for it.
    The definition of [f] for the literal [2], with a hundred further
    literals [1], is scored 0 for the call with [3] and the same hundred
    literals, and [FunctionSignature.match] returns it. *)
Lemma hundred_matches_offset_a_mismatch :
  literal_mismatch (fs_params long_call) long_definition = true
  /\ MangledSignature.match_ long_definition (fs_params long_call)
       (fs_qubits long_call) = Ok 0%Q
  /\ FunctionSig.match_ long_call [long_definition] = Ok [long_definition].
Proof. repeat split; vm_compute; reflexivity. Qed.

End MangleFacts.

Module RemoveUnusedFacts.
Import RemoveUnusedM RemoveUnusedSpec.

(** * Dead-code elimination *)

Lemma stmt_size_pos (node : stmt) : (0 < stmt_size node)%nat.
Proof. destruct node; simpl; lia. Qed.

Section Shrinking.

Variable str_float : Q -> string.

Lemma _visit_list_shrinks (nodes : list stmt) :
  Forall (shrinks str_float) nodes ->
  forall self nodes' self',
    _visit_list str_float nodes self = Ok (nodes', self') ->
    nodes' = nodes \/ (block_size nodes' < block_size nodes)%nat.
Proof.
  induction 1 as [|n rest Hn _ IH]; intros self nodes' self' Hrun; simpl in Hrun.
  - injection Hrun as <- _. left. reflexivity.
  - destruct (visit_stmt str_float n self) as [[r s1]| | |] eqn:E1;
      try discriminate Hrun. simpl in Hrun.
    destruct (_visit_list str_float rest s1) as [[rs s2]| | |] eqn:E2;
      try discriminate Hrun. simpl in Hrun. injection Hrun as <- _.
    specialize (Hn _ _ _ E1). specialize (IH _ _ _ E2).
    pose proof (stmt_size_pos n) as Hpos.
    unfold block_size in *.
    destruct Hn as [-> | Hn]; destruct IH as [-> | IH].
    + left. reflexivity.
    + right. simpl. lia.
    + right. destruct r as [n'|]; simpl in *; lia.
    + right. destruct r as [n'|]; simpl in *; lia.
Qed.

Ltac run_update H :=
  match type of H with
  | context [update ?du ?self] =>
      destruct (update du self) as [?s0| | |]; try discriminate H;
      cbn [bind] in H
  end.

Ltac run_list H E :=
  match type of H with
  | context [_visit_list str_float ?l ?s] =>
      destruct (_visit_list str_float l s) as [[? ?]| | |] eqn:E;
      try discriminate H; cbn [bind] in H
  end.

Ltac run_result H :=
  repeat match type of H with
    | context [match ?x with Ok _ => _ | _ => _ end] =>
        destruct x; try discriminate H; cbn [bind] in H
    | context [bind ?x _] =>
        destruct x; try discriminate H; cbn [bind] in H
    | context [if ?b then _ else _] => destruct b
    | context [match ?x with Some _ => _ | None => _ end] => destruct x
    | context [match ?x with RExpr _ => _ | RMeasure _ => _ end] => destruct x
    end.

Ltac same_or_smaller :=
  first [ left; reflexivity
        | right; unfold block_size in *; simpl; lia ].

Ltac conclude H :=
  first
    [ discriminate H
    | injection H as <- _;
      repeat match goal with
        | E : _ = _ \/ (_ < _)%nat |- _ => destruct E as [-> | E]
        end;
      same_or_smaller ].

Lemma visit_stmt_shrinks (node : stmt) : shrinks str_float node.
Proof.
  induction node using stmt_induction; intros self res self' Hrun;
    cbn [visit_stmt] in Hrun; fold (_visit_list str_float) in Hrun;
    run_update Hrun.
  - conclude Hrun.
  - run_result Hrun; conclude Hrun.
  - run_result Hrun; conclude Hrun.
  - conclude Hrun.
  - run_list Hrun E. apply (_visit_list_shrinks b H) in E.
    run_result Hrun; conclude Hrun.
  - run_list Hrun E. apply (_visit_list_shrinks b H) in E.
    run_result Hrun; conclude Hrun.
  - run_list Hrun E. apply (_visit_list_shrinks b H) in E.
    conclude Hrun.
  - run_result Hrun; conclude Hrun.
  - run_result Hrun; conclude Hrun.
  - unfold visit_QuantumMeasurement in Hrun.
    destruct t0; run_result Hrun; conclude Hrun.
  - unfold visit_QuantumMeasurement in Hrun.
    run_result Hrun; conclude Hrun.
  - run_list Hrun E1. apply (_visit_list_shrinks i H) in E1.
    run_list Hrun E2. apply (_visit_list_shrinks e H0) in E2.
    conclude Hrun.
  - run_list Hrun E. apply (_visit_list_shrinks b H) in E.
    conclude Hrun.
  - run_list Hrun E. apply (_visit_list_shrinks b H) in E.
    conclude Hrun.
  - conclude Hrun.
Qed.

End Shrinking.

Section Iteration.

Variable str_float : Q -> string.

Lemma RemoveUnused_shrinks (node node' : Program) :
  RemoveUnused str_float node = Ok node' ->
  node' = node \/ (program_size node' < program_size node)%nat.
Proof.
  unfold RemoveUnused, visit_Program. intros Hrun.
  destruct (update _ init) as [s0| | |]; try discriminate Hrun. cbn [bind] in Hrun.
  destruct (_visit_list str_float (statements node) s0) as [[l s1]| | |] eqn:E;
    try discriminate Hrun.
  cbn [bind] in Hrun. injection Hrun as <-.
  assert (Hall : Forall (shrinks str_float) (statements node)).
  { apply Forall_forall. intros x _. apply visit_stmt_shrinks. }
  destruct (_visit_list_shrinks str_float _ Hall _ _ _ E) as [-> | Hlt].
  - left. destruct node. reflexivity.
  - right. exact Hlt.
Qed.

(** After a pass that changes nothing, no pass changes anything. *)
Lemma passes_fixpoint (node : Program) (n : nat) :
  RemoveUnused str_float node = Ok node -> passes str_float n node = Ok node.
Proof.
  intros Hfix. induction n as [|n IH]; simpl; [reflexivity|].
  rewrite Hfix. simpl. exact IH.
Qed.

Lemma RemoveUnused_empty (node : Program) :
  program_size node = 0%nat -> RemoveUnused str_float node = Ok node.
Proof.
  destruct node as [[|x l]]; unfold program_size, block_size; simpl.
  - reflexivity.
  - pose proof (stmt_size_pos x). lia.
Qed.

(** C3 (amended): every pass returns the tree unchanged or a
    strictly smaller tree, so a sequence of passes is at a fixpoint after
    at most as many passes as the tree has removable nodes; from then on
    a further pass changes nothing. *)
Theorem passes_reach_fixpoint (node result_ : Program) (n : nat) :
  (program_size node <= n)%nat ->
  passes str_float n node = Ok result_ ->
  RemoveUnused str_float result_ = Ok result_
  /\ (forall k, passes str_float k result_ = Ok result_)
  /\ (program_size result_ <= program_size node)%nat.
Proof.
  revert node. induction n as [|n IH]; intros node Hsize Hrun.
  - simpl in Hrun. injection Hrun as <-.
    assert (Hfix : RemoveUnused str_float node = Ok node)
      by (apply RemoveUnused_empty; lia).
    split; [exact Hfix|]. split; [|lia].
    intros k. apply passes_fixpoint. exact Hfix.
  - simpl in Hrun.
    destruct (RemoveUnused str_float node) as [node'| | |] eqn:E;
      try discriminate Hrun.
    cbn [bind] in Hrun.
    destruct (RemoveUnused_shrinks node node' E) as [-> | Hlt].
    + rewrite (passes_fixpoint node n E) in Hrun. injection Hrun as <-.
      split; [exact E|]. split; [|lia].
      intros k. apply passes_fixpoint. exact E.
    + destruct (IH node' ltac:(lia) Hrun) as (Hfix & Hall & Hle).
      split; [exact Hfix|]. split; [exact Hall|]. lia.
Qed.

End Iteration.

Lemma passes_reach_fixpoint_witness :
  (program_size declaration_chain <= 3)%nat
  /\ passes no_floats 3 declaration_chain = Ok (mkProgram [])
  /\ RemoveUnused no_floats (mkProgram []) = Ok (mkProgram [])
  /\ (forall k, passes no_floats k (mkProgram []) = Ok (mkProgram []))
  /\ (program_size (mkProgram []) <= program_size declaration_chain)%nat.
Proof.
  assert (Hsize : (program_size declaration_chain <= 3)%nat) by (vm_compute; lia).
  assert (Hrun : passes no_floats 3 declaration_chain = Ok (mkProgram []))
    by (vm_compute; reflexivity).
  split; [exact Hsize|]. split; [exact Hrun|].
  exact (passes_reach_fixpoint no_floats declaration_chain (mkProgram []) 3 Hsize Hrun).
Defined.

(** C3, as stated, fails: the third pass still changes the chain of
    three declarations. *)
Lemma third_pass_changes_chain :
  passes no_floats 2 declaration_chain
  = Ok (mkProgram [ClassicalDeclaration (IntType None) "a" None])
  /\ passes no_floats 3 declaration_chain = Ok (mkProgram [])
  /\ passes no_floats 3 declaration_chain <> passes no_floats 2 declaration_chain.
Proof.
  split; [vm_compute; reflexivity|].
  split; [vm_compute; reflexivity|].
  vm_compute. discriminate.
Qed.

(** ** Calibration definitions *)

Section Calibration.

Variable str_float : Q -> string.

Lemma map_result_ok_iff {A B : Type} (f : A -> result B) (l : list A) (ys : list B) :
  map_result f l = Ok ys -> List.length ys = List.length l.
Proof.
  revert ys. induction l as [|x l IH]; intros ys H; simpl in H.
  - injection H as <-. reflexivity.
  - destruct (f x); try discriminate H. simpl in H.
    destruct (map_result f l); try discriminate H. simpl in H.
    injection H as <-. simpl. rewrite (IH _ eq_refl). reflexivity.
Qed.

(** The signature of a definition exists with and without its return
    type alike. *)
Lemma signature_without_return_type name arguments qubits return_type sig :
  signature_CalibrationDefinition str_float name arguments qubits return_type
  = Ok sig ->
  exists sig',
    signature_CalibrationDefinition str_float name arguments qubits None = Ok sig'.
Proof.
  unfold signature_CalibrationDefinition. intros H.
  destruct (map_result _ arguments); try discriminate H.
  eexists. reflexivity.
Qed.

(** C4 (amended): a calibration definition is kept exactly when it
    is named [measure], whatever its body, or when its signature
    matches no unused definition and its body is not empty after the
    visit of the body; when kept, its body is the visited body. *)
Theorem calibration_definition_kept
    (name : string) (arguments : list defcal_argument) (qubits : list string)
    (return_type : option ctype) (body body' : list stmt)
    (self self0 self1 : t) (signature : FunctionSignature)
    (matches : list string) :
  let node := CalibrationDefinition name arguments qubits return_type body in
  update (DetermineUnused.of_stmt str_float node) self = Ok self0 ->
  _visit_list str_float body self0 = Ok (body', self1) ->
  signature_CalibrationDefinition str_float name arguments qubits return_type
  = Ok signature ->
  FunctionSig.match_ signature (unused self1) = Ok matches ->
  exists res self',
    visit_stmt str_float node self = Ok (res, self')
    /\ (res <> None
        <-> (matches = [] /\ body' <> []) \/ name = "measure")
    /\ (forall node', res = Some node' ->
        exists return_type',
          node' = CalibrationDefinition name arguments qubits return_type' body').
Proof.
  intros node Hupd Hbody Hsig Hmatch.
  destruct (signature_without_return_type _ _ _ _ _ Hsig) as [sig' Hsig'].
  unfold node. cbn [visit_stmt]. fold (_visit_list str_float).
  fold node. rewrite Hupd. cbn [bind]. rewrite Hbody. cbn [bind].
  rewrite Hsig. cbn [bind]. rewrite Hmatch. cbn [bind].
  assert (Hcond :
    (is_empty matches && negb (is_empty body')) || String.eqb name "measure" = true
    <-> (matches = [] /\ body' <> []) \/ name = "measure").
  { rewrite orb_true_iff, andb_true_iff, negb_true_iff, String.eqb_eq.
    destruct matches, body'; simpl; intuition congruence. }
  destruct ((is_empty matches && negb (is_empty body')) || String.eqb name "measure").
  - assert (Hyes : (matches = [] /\ body' <> []) \/ name = "measure")
      by (apply Hcond; reflexivity).
    destruct return_type as [rt|].
    + destruct (negb (existsb isinstance_ReturnStatement body')).
      * rewrite Hsig'. cbn [bind]. eexists _, _. split; [reflexivity|].
        split; [split; [intros _; exact Hyes|discriminate]|].
        intros node' E. injection E as <-. eexists. reflexivity.
      * eexists _, _. split; [reflexivity|].
        split; [split; [intros _; exact Hyes|discriminate]|].
        intros node' E. injection E as <-. eexists. reflexivity.
    + eexists _, _. split; [reflexivity|].
      split; [split; [intros _; exact Hyes|discriminate]|].
      intros node' E. injection E as <-. eexists. reflexivity.
  - eexists _, _. split; [reflexivity|]. split.
    + split; [intros H; contradiction H; reflexivity|].
      intros H. apply Hcond in H. discriminate H.
    + intros node' E. discriminate E.
Qed.

End Calibration.

Lemma calibration_definition_kept_witness :
  exists res self',
    visit_stmt no_floats used_x used_x_state = Ok (res, self')
    /\ (res <> None
        <-> (@nil string = [] /\ [ExpressionStatement (IntegerLiteral 1)] <> [])
            \/ "x" = "measure")
    /\ (forall node', res = Some node' ->
        exists return_type',
          node' = CalibrationDefinition "x" [] ["$0"] return_type'
                    [ExpressionStatement (IntegerLiteral 1)]).
Proof.
  apply (calibration_definition_kept no_floats "x" [] ["$0"] None
           [ExpressionStatement (IntegerLiteral 1)]
           [ExpressionStatement (IntegerLiteral 1)]
           used_x_state used_x_state used_x_state
           (mkFunctionSignature "x" [] ["$0"] "") []);
    vm_compute; reflexivity.
Defined.

(** C4, as stated, fails: a definition named [measure] is kept although
    its body is empty. *)
Lemma empty_measure_is_kept :
  RemoveUnused no_floats (mkProgram [empty_measure])
  = Ok (mkProgram [empty_measure]).
Proof. vm_compute. reflexivity. Qed.

End RemoveUnusedFacts.

Module InterpreterFacts.
Import Interp InterpreterSpec.


Lemma np_pi_pos : (0 < np_pi)%Q.
Proof. reflexivity. Qed.






(** In binary64 the wrap reaches both ends of the interval: the phase
    [pi] is stored as [- pi], and the phase next below [- pi] is stored
    as [pi] (its sum with [pi] is [- 2^-51], and the remainder rounds
    to [2 pi]). *)
Lemma wrap_phase_reaches_both_ends :
  Binary64.wrap_phase Binary64.np_pi = Ok (PrimFloat.opp Binary64.np_pi)
  /\ Binary64.wrap_phase (PrimFloat.opp (PrimFloat.next_up Binary64.np_pi))
     = Ok Binary64.np_pi.
Proof. split; vm_compute; reflexivity. Qed.

(** * Logical operators *)

(** C10: for [&&] and [||] the interpreter visits the left and then
    the right operand, whatever the left one gave: the state after the
    expression is the state after the right operand, an exception of the
    right operand is the exception of the expression, and the value is
    one of the operand values, chosen on the truth of the left one. *)
Theorem logical_operators_evaluate_both_operands
    (self : Interpreter) (fuel : nat) (op : BinaryOperator) (lhs rhs : expr)
    (st st1 : State) (l : value) :
  op = OpAndAnd \/ op = OpOrOr ->
  visit_expr self fuel lhs st = (Ok l, st1) ->
  (forall r st2 b,
      visit_expr self fuel rhs st1 = (Ok r, st2) ->
      truthy l = Ok b ->
      visit_expr self (Datatypes.S fuel) (BinaryExpression op lhs rhs) st
      = (Ok (logical_result op b l r), st2))
  /\ (forall e st2,
         visit_expr self fuel rhs st1 = (Raise e, st2) ->
         visit_expr self (Datatypes.S fuel) (BinaryExpression op lhs rhs) st
         = (Raise e, st2)).
Proof.
  intros Hop Hl. split.
  - intros r st2 b Hr Hb.
    cbn [visit_expr dispatch_expr]. unfold visit_BinaryExpression, bindM.
    rewrite Hl, Hr. unfold lift.
    unfold Operators.apply_binary.
    destruct Hop as [-> | ->]; cbn [binary_value Operators.binary_ops];
      unfold Operators.and_, Operators.or_; rewrite Hb; reflexivity.
  - intros e st2 Hr.
    cbn [visit_expr dispatch_expr]. unfold visit_BinaryExpression, bindM.
    rewrite Hl, Hr. reflexivity.
Qed.

Lemma logical_operators_evaluate_both_operands_witness :
  let st2 := snd (visit_expr example_interpreter 7 (FunctionCall "bump" []) counter_state) in
  CallStack.get (dicts counter_state) (call_stack counter_state) "counter" = Ok (VInt 0)
  /\ visit_expr example_interpreter 8 false_and_bump counter_state
     = (Ok (VBool false), st2)
  /\ CallStack.get (dicts st2) (call_stack st2) "counter" = Ok (VInt 1).
Proof.
  intros st2.
  split; [vm_compute; reflexivity|].
  split; [|vm_compute; reflexivity].
  destruct (logical_operators_evaluate_both_operands example_interpreter 7 OpAndAnd
              (BooleanLiteral false) (FunctionCall "bump" [])
              counter_state counter_state (VBool false))
    as [Hboth _].
  - left. reflexivity.
  - reflexivity.
  - apply (Hboth (VBool true) st2 false).
    + vm_compute. reflexivity.
    + reflexivity.
Defined.

(** * The for loop *)

(** C8: with [visit_loops] set, a [for] loop over [[0:2:10]] binds the
    loop variable to 0, 2, 4, 6 and 8 in turn, in a [LOOP] record of its
    own, and visits the body once for each of the five values. *)
Theorem for_in_range_0_2_10
    (self : Interpreter) (fuel : nat) (type : ctype) (name : string)
    (block : list stmt) (st : State) :
  klass self = InterpreterK ->
  visit_loops self = true ->
  py_range 0 10 2 = Ok [0; 2; 4; 6; 8]
  /\ visit_stmt self (3 + fuel) (ForInLoop type name range_0_2_10 block) st
     = for_0_2_10_unrolled (visit_stmt self (2 + fuel)) name block st.
Proof.
  intros Hk Hloops. split; [reflexivity|].
  change (visit_stmt self (3 + fuel) (ForInLoop type name range_0_2_10 block) st)
    with (visit_ForInLoop self (visit_expr self (2 + fuel))
            (visit_stmt self (2 + fuel)) name range_0_2_10 block st).
  unfold visit_ForInLoop. rewrite Hk.
  unfold Interpreter_visit_ForInLoop. rewrite Hloops.
  reflexivity.
Qed.

Lemma for_in_range_0_2_10_witness :
  let st := snd (visit_stmt example_interpreter 5 counting_loop counter_state) in
  klass example_interpreter = InterpreterK
  /\ visit_loops example_interpreter = true
  /\ visit_stmt example_interpreter 5 counting_loop counter_state
     = for_0_2_10_unrolled (visit_stmt example_interpreter 4) "i"
         [ClassicalAssignment "counter" AssignEq
            (BinaryExpression OpAdd (Identifier "counter") (IntegerLiteral 1))]
         counter_state
  /\ CallStack.get (dicts counter_state) (call_stack counter_state) "counter"
     = Ok (VInt 0)
  /\ fst (visit_stmt example_interpreter 5 counting_loop counter_state) = Ok VNone
  /\ CallStack.get (dicts st) (call_stack st) "counter" = Ok (VInt 5).
Proof.
  intros st.
  split; [reflexivity|]. split; [reflexivity|].
  split.
  - apply (for_in_range_0_2_10 example_interpreter 2 (IntType None) "i"); reflexivity.
  - repeat split; vm_compute; reflexivity.
Defined.

End InterpreterFacts.

Module TimingFacts.
Import Interp InterpreterSpec MangleFacts.

(** * Timing constraints *)


Lemma meets_float_false_iff (self : Interpreter) (x : Q) :
  meets self (NFloat x) = false
  <-> ~ (inject_Z (minimum_length self) <= x)%Q
      \/ ~ (q_mod x (inject_Z (granularity self)) == 0)%Q.
Proof.
  unfold meets. rewrite andb_false_iff.
  rewrite <- Qle_bool_iff, <- Qeq_bool_iff, !not_true_iff_false. reflexivity.
Qed.



Section Checks.

Variable self : Interpreter.
Variable visit_expr : expr -> M State value.
Hypothesis granularity_nonzero : granularity self <> 0.






End Checks.

Section Plays.

Variable self : Interpreter.
Variable visit_expr : expr -> M State value.
Variable visit_stmt : stmt -> M State value.
Hypothesis granularity_nonzero : granularity self <> 0.



End Plays.

(** ** The aggregate error *)




(** ** Violations accumulate *)

Lemma grows_refl (st : State) : grows st st.
Proof. exists []. split; [symmetry; apply app_nil_r|constructor]. Qed.

Lemma grows_trans (a b c : State) : grows a b -> grows b c -> grows a c.
Proof.
  intros (e1 & H1 & F1) (e2 & H2 & F2). exists (e1 ++ e2)%list. split.
  - rewrite H2, H1, app_assoc. reflexivity.
  - apply Forall_app. split; assumption.
Qed.

Lemma grows_same (st st' : State) :
  flagged_wfs st' = flagged_wfs st -> grows st st'.
Proof.
  intros H. exists []. split; [rewrite H; symmetry; apply app_nil_r|constructor].
Qed.

Lemma acc_ret {A : Type} (a : A) : accumulates (ret a).
Proof. intros st. apply grows_refl. Qed.

Lemma acc_raise {A : Type} (e : exn) : accumulates (@raise State A e).
Proof. intros st. apply grows_refl. Qed.

Lemma acc_lift {A : Type} (r : result A) : accumulates (lift r).
Proof. intros st. apply grows_refl. Qed.

Lemma acc_read {A : Type} (f : State -> result A) : accumulates (read f).
Proof. intros st. apply grows_refl. Qed.

Lemma acc_bind {A B : Type} (m : M State A) (k : A -> M State B) :
  accumulates m -> (forall a, accumulates (k a)) -> accumulates (bindM m k).
Proof.
  intros Hm Hk st. unfold bindM. specialize (Hm st).
  destruct (m st) as [[a| | |] st1]; cbn [snd] in *; try exact Hm.
  eapply grows_trans; [exact Hm|apply Hk].
Qed.

Lemma acc_modify (f : State -> State) :
  (forall st, flagged_wfs (f st) = flagged_wfs st) -> accumulates (modify f).
Proof. intros H st. apply grows_same, H. Qed.

Lemma pop_record_flagged (st : State) : flagged_wfs (pop_record st) = flagged_wfs st.
Proof.
  unfold pop_record. destruct (CallStack.pop (call_stack st)) as [[rest r]| | |];
    reflexivity.
Qed.

Lemma acc_ar_context_manager {A : Type} (ar : ActivationRecord) (body : M State A) :
  accumulates body -> accumulates (ar_context_manager ar body).
Proof.
  intros Hb. unfold ar_context_manager. apply acc_bind.
  - apply acc_modify. reflexivity.
  - intros _ st. unfold finally. specialize (Hb st).
    destruct (body st) as [r st1]. cbn [snd] in *.
    eapply grows_trans; [exact Hb|]. apply grows_same, pop_record_flagged.
Qed.

Lemma acc_for_each {A : Type} (f : A -> M State unit) (l : list A) :
  (forall x, accumulates (f x)) -> accumulates (for_each f l).
Proof.
  intros Hf. induction l as [|x l IH]; simpl.
  - apply acc_ret.
  - apply acc_bind; [apply Hf|intros _; exact IH].
Qed.

Lemma acc_list_comp {A B : Type} (f : A -> M State B) (l : list A) :
  (forall x, accumulates (f x)) -> accumulates (list_comp f l).
Proof.
  intros Hf. induction l as [|x l IH]; simpl.
  - apply acc_ret.
  - apply acc_bind; [apply Hf|intros y].
    apply acc_bind; [exact IH|intros ys; apply acc_ret].
Qed.

Lemma acc_new_ActivationRecord (name : string) (t : ARType) (level : Z) :
  accumulates (new_ActivationRecord name t level).
Proof. intros st. apply grows_same. reflexivity. Qed.

Lemma acc_setitem (r : ActivationRecord) (k : string) (v : value) :
  accumulates (setitem r k v).
Proof.
  intros st. unfold setitem.
  destruct (CallStack.setitem (dicts st) r k v); apply grows_same; reflexivity.
Qed.

Lemma acc_visit_Identifier (name : string) : accumulates (visit_Identifier name).
Proof.
  intros st. unfold visit_Identifier.
  destruct (CallStack.down_stack _ _ _) as [r|[]| |]; try apply grows_refl.
  destruct (CallStack.getitem _ _ _) as [v|[]| |]; apply grows_refl.
Qed.

Lemma acc_the_frame (v : value) : accumulates (the_frame v).
Proof.
  intros st. destruct v; try apply grows_refl. cbn.
  destruct (frames (heap st) !! l); apply grows_refl.
Qed.

Lemma acc_store_frame (l : loc) (f : Frame) : accumulates (store_frame l f).
Proof. apply acc_modify. reflexivity. Qed.

Lemma acc_new_Frame (name : string) (p fr ph : value) :
  accumulates (new_Frame name p fr ph).
Proof.
  intros st. unfold new_Frame.
  destruct p; try apply grows_refl.
  destruct (as_number fr); try apply grows_refl.
  destruct (as_number ph); try apply grows_refl.
  apply grows_same. reflexivity.
Qed.


Ltac acc_step :=
  first
    [ assumption
    | match goal with H : _ |- accumulates _ => apply H end
    | apply acc_ret | apply acc_raise | apply acc_lift | apply acc_read
    | apply acc_new_ActivationRecord | apply acc_setitem
    | apply acc_visit_Identifier | apply acc_the_frame | apply acc_store_frame
    | apply acc_new_Frame
    | apply acc_modify; intros; reflexivity
    | progress unfold peek, nesting_level, down_stack, getitem
    | apply acc_ar_context_manager
    | apply acc_for_each; intros
    | apply acc_list_comp; intros
    | apply acc_bind; [|intros]
    | match goal with
      | |- accumulates (match ?x with _ => _ end) => destruct x
      | |- accumulates (if ?b then _ else _) => destruct b
      | |- accumulates (let (_, _) := ?p in _) => destruct p
      end ].

Ltac acc := repeat acc_step.

Section Accumulation.

Variable self : Interpreter.
Variable visit_expr : expr -> M State value.
Variable visit_stmt : stmt -> M State value.
Variable while_rest : expr -> list stmt -> M State unit.
Hypothesis visit_expr_acc : forall e, accumulates (visit_expr e).
Hypothesis visit_stmt_acc : forall s, accumulates (visit_stmt s).
Hypothesis while_rest_acc : forall c b, accumulates (while_rest c b).






















End Accumulation.


(** ** The checker as a whole *)



End TimingFacts.

Module StackFacts.
Import CallStackSpec.

(** * Call stack *)

Section CallStackFacts.

Variable dicts : dict_store.
Variable name : string.

Lemma down_stack_loop_miss (rs : list ActivationRecord) :
  Forall (misses dicts name) rs ->
  CallStack.down_stack_loop dicts rs name
  = Raise (KeyError ("Could not find " ++ name ++ " in call stack")).
Proof.
  induction 1 as [|r rs Hr _ IH]; simpl; [reflexivity|].
  unfold misses in Hr. rewrite Hr. simpl. exact IH.
Qed.

Lemma down_stack_loop_hit (above : list ActivationRecord) (r : ActivationRecord)
    (below : list ActivationRecord) :
  Forall (misses dicts name) above -> hits dicts name r ->
  CallStack.down_stack_loop dicts (above ++ r :: below)%list name = Ok r.
Proof.
  intros Habove Hr. induction Habove as [|r' rs Hr' _ IH]; simpl.
  - unfold hits in Hr. rewrite Hr. reflexivity.
  - unfold misses in Hr'. rewrite Hr'. simpl. exact IH.
Qed.

(** Every record either binds the name or not, once its dictionary
    exists. *)
Lemma binds_cases (r : ActivationRecord) :
  is_Some (dicts !! ar_members r) -> hits dicts name r \/ misses dicts name r.
Proof.
  intros [m Hm]. unfold hits, misses, CallStack.binds. rewrite Hm.
  destruct (m !! name); [left|right]; reflexivity.
Qed.

(** Scanning from the top: the nearest record that binds the name, or
    none at all. *)
Lemma nearest_or_none (rs : list ActivationRecord) :
  Forall (fun r => is_Some (dicts !! ar_members r)) rs ->
  (exists (above : list ActivationRecord) r below,
      rs = (above ++ r :: below)%list /\ Forall (misses dicts name) above /\ hits dicts name r)
  \/ Forall (misses dicts name) rs.
Proof.
  induction 1 as [|r rs Hr _ IH].
  - right. constructor.
  - destruct (binds_cases r Hr) as [Hh|Hm].
    + left. exists [], r, rs. repeat split; [constructor|exact Hh].
    + destruct IH as [(above & r' & below & -> & Ha & Hh)|Hall].
      * left. exists (r :: above), r', below.
        repeat split; [constructor; assumption|exact Hh].
      * right. constructor; assumption.
Qed.

End CallStackFacts.

(** C7 (amended): [down_stack] scans the records from the top of the
    stack (the end of [_records]) downwards and returns the nearest record
    whose members bind the name; when no record binds it, the call raises
    [KeyError], which [Interpreter.visit_Identifier] turns into a
    [SemanticError] with code [ID_NOT_FOUND]. *)
Theorem down_stack_nearest_or_KeyError
    (store : dict_store) (records : list ActivationRecord) (name : string) :
  Forall (fun r => is_Some (store !! ar_members r)) records ->
  (exists (below : list ActivationRecord) r above,
      records = (below ++ r :: above)%list
      /\ hits store name r
      /\ Forall (misses store name) above
      /\ CallStack.down_stack store records name = Ok r)
  \/ (Forall (misses store name) records
      /\ CallStack.down_stack store records name
         = Raise (KeyError ("Could not find " ++ name ++ " in call stack"))
      /\ forall st : State,
           dicts st = store -> call_stack st = records ->
           Interp.visit_Identifier name st
           = (Raise (SemanticError ID_NOT_FOUND
                       ("Identifier: " ++ name ++ " not found in call stack")),
              st)).
Proof.
  intros Halloc.
  assert (Hrev : Forall (fun r => is_Some (store !! ar_members r)) (rev records))
    by (apply Forall_rev; exact Halloc).
  destruct (nearest_or_none store name (rev records) Hrev)
    as [(above & r & below & Hsplit & Ha & Hh)|Hall].
  - left. exists (rev below), r, (rev above).
    assert (Hrec : records = (rev below ++ r :: rev above)%list).
    { rewrite <- (rev_involutive records), Hsplit, rev_app_distr. simpl.
      rewrite <- app_assoc. reflexivity. }
    repeat split.
    + exact Hrec.
    + exact Hh.
    + apply Forall_rev. exact Ha.
    + unfold CallStack.down_stack. rewrite Hsplit.
      apply down_stack_loop_hit; assumption.
  - right.
    assert (Hmiss : CallStack.down_stack store records name
                    = Raise (KeyError ("Could not find " ++ name ++ " in call stack"))).
    { unfold CallStack.down_stack. apply down_stack_loop_miss. exact Hall. }
    repeat split.
    + rewrite <- (rev_involutive records). apply Forall_rev. exact Hall.
    + exact Hmiss.
    + intros st Hd Hr. unfold Interp.visit_Identifier.
      rewrite Hd, Hr, Hmiss. reflexivity.
Qed.

Lemma stack_example_allocated :
  Forall (fun r => is_Some (dicts_example !! ar_members r)) stack_example.
Proof.
  repeat constructor; simpl; eexists; vm_compute; reflexivity.
Qed.

Lemma down_stack_nearest_or_KeyError_witness :
  Forall (fun r => is_Some (dicts_example !! ar_members r)) stack_example
  /\ CallStack.down_stack dicts_example stack_example "x"
     = Ok (mkActivationRecord "f" SUBROUTINE 2 2%nat)
  /\ ((exists (below : list ActivationRecord) r above,
          stack_example = (below ++ r :: above)%list
          /\ hits dicts_example "x" r
          /\ Forall (misses dicts_example "x") above
          /\ CallStack.down_stack dicts_example stack_example "x" = Ok r)
      \/ (Forall (misses dicts_example "x") stack_example
          /\ CallStack.down_stack dicts_example stack_example "x"
             = Raise (KeyError ("Could not find " ++ "x" ++ " in call stack"))
          /\ forall st : State,
               dicts st = dicts_example -> call_stack st = stack_example ->
               Interp.visit_Identifier "x" st
               = (Raise (SemanticError ID_NOT_FOUND
                           ("Identifier: " ++ "x" ++ " not found in call stack")),
                  st))).
Proof.
  split; [exact stack_example_allocated|].
  split; [vm_compute; reflexivity|].
  apply (down_stack_nearest_or_KeyError dicts_example stack_example "x").
  exact stack_example_allocated.
Defined.

(** C7, as stated, fails: a name bound nowhere makes [down_stack] raise
    [KeyError], not an error of the [ErrorCode] taxonomy. *)
Lemma down_stack_raises_KeyError :
  CallStack.down_stack dicts_example stack_example "z"
  = Raise (KeyError "Could not find z in call stack")
  /\ ~ (exists code msg,
          CallStack.down_stack dicts_example stack_example "z"
          = Raise (SemanticError code msg)
          \/ CallStack.down_stack dicts_example stack_example "z"
             = Raise (Error code msg)).
Proof.
  assert (H : CallStack.down_stack dicts_example stack_example "z"
              = Raise (KeyError "Could not find z in call stack"))
    by (vm_compute; reflexivity).
  split; [exact H|].
  intros (code & msg & [E|E]); rewrite H in E; discriminate E.
Qed.

End StackFacts.

Module FrameFacts.
Import PrimFloat Binary64 FrameSpec.

(** * Frames and durations *)

(** C9 fails on the code: the products and quotients of [set_unit] and
    of [advance_to] round.  A frame at 0 dt advanced to 31 dt is left at
    30 dt, the caller's duration at 30.999999999999996 dt; advanced to
    1 us, which is 2000 dt, it is left at 1999 dt; a frame at 2000 dt
    advanced to 1 us raises [ValueError], although the duration is not
    earlier than the time of the frame; and a frame at 200 dt advanced
    to 10 us, as in the test of the repository, is left at 19999 dt. *)
Theorem advance_to_rounds_below :
  fst (Binary64.advance_to 1%nat 2%nat (frame_at 0 samples_31)) = Ok tt
  /\ times_after (snd (Binary64.advance_to 1%nat 2%nat (frame_at 0 samples_31)))
     = (Some (Binary64.mkDuration (PyInt 30) TimeUnits.dt),
        Some (Binary64.mkDuration (PyFloat below_31) TimeUnits.dt))
  /\ Binary64.int (31 * Binary64.unit_value TimeUnits.dt
                   / Binary64.unit_value TimeUnits.dt)%float = Ok 30
  /\ fst (Binary64.advance_to 1%nat 2%nat (frame_at 0 one_us)) = Ok tt
  /\ times_after (snd (Binary64.advance_to 1%nat 2%nat (frame_at 0 one_us)))
     = (Some (Binary64.mkDuration (PyInt 1999) TimeUnits.dt),
        Some (Binary64.mkDuration (PyFloat below_2000) TimeUnits.dt))
  /\ fst (Binary64.advance_to 1%nat 2%nat (frame_at 2000 one_us))
     = Raise (ValueError "Cant advance current time")
  /\ times_after (snd (Binary64.advance_to 1%nat 2%nat (frame_at 2000 one_us)))
     = (Some (Binary64.mkDuration (PyFloat 2000) TimeUnits.dt),
        Some (Binary64.mkDuration (PyFloat below_2000) TimeUnits.dt))
  /\ Binary64.gt (Binary64.mkDuration (PyFloat 2000) TimeUnits.dt)
       (Binary64.mkDuration (PyFloat 2000) TimeUnits.dt) = false
  /\ fst (Binary64.advance_to 1%nat 2%nat (frame_at 200 ten_us)) = Ok tt
  /\ times_after (snd (Binary64.advance_to 1%nat 2%nat (frame_at 200 ten_us)))
     = (Some (Binary64.mkDuration (PyInt 19999) TimeUnits.dt),
        Some (Binary64.mkDuration (PyFloat below_20000) TimeUnits.dt)).
Proof. repeat split; vm_compute; reflexivity. Qed.

(** Where no product rounds the call does what C9 says: a frame at
    16 dt advanced to 16 ns is left at 32 dt, and a frame at 200 dt
    advanced to 64 ns, which is earlier than its time, raises
    [ValueError] with the time of the frame as it was and the caller's
    duration converted to 128 dt. *)
Lemma advance_to_exact_cases :
  fst (Binary64.advance_to 1%nat 2%nat
         (frame_at 16 (Binary64.mkDuration (PyFloat 16) TimeUnits.ns))) = Ok tt
  /\ times_after
       (snd (Binary64.advance_to 1%nat 2%nat
               (frame_at 16 (Binary64.mkDuration (PyFloat 16) TimeUnits.ns))))
     = (Some (Binary64.mkDuration (PyInt 32) TimeUnits.dt),
        Some (Binary64.mkDuration (PyFloat 32) TimeUnits.dt))
  /\ fst (Binary64.advance_to 1%nat 2%nat
            (frame_at 200 (Binary64.mkDuration (PyFloat 64) TimeUnits.ns)))
     = Raise (ValueError "Cant advance current time")
  /\ times_after
       (snd (Binary64.advance_to 1%nat 2%nat
               (frame_at 200 (Binary64.mkDuration (PyFloat 64) TimeUnits.ns))))
     = (Some (Binary64.mkDuration (PyFloat 200) TimeUnits.dt),
        Some (Binary64.mkDuration (PyFloat 128) TimeUnits.dt)).
Proof. repeat split; vm_compute; reflexivity. Qed.

End FrameFacts.

Module MatchFacts.
Import MangleSpec MangleFacts MatchSpec PyStr.

(** * What [FunctionSignature.match] returns *)

(** ** The dictionary *)

Lemma dict_set_keys (d : list (string * Q)) (k : string) (v : Q) (k0 : string) :
  In k0 (List.map fst (FunctionSig.dict_set d k v))
  <-> In k0 (List.map fst d) \/ k0 = k.
Proof.
  induction d as [|[k' v'] d IH]; cbn [FunctionSig.dict_set List.map fst In].
  - intuition.
  - destruct (String.eqb_spec k' k) as [->|Hne];
      cbn [List.map fst In]; [|rewrite IH]; intuition.
Qed.

Lemma dict_set_NoDup (d : list (string * Q)) (k : string) (v : Q) :
  List.NoDup (List.map fst d) -> List.NoDup (List.map fst (FunctionSig.dict_set d k v)).
Proof.
  induction d as [|[k' v'] d IH]; cbn [FunctionSig.dict_set List.map fst];
    intros Hd.
  - cbn [FunctionSig.dict_set List.map fst]. apply List.NoDup_cons_iff.
    split; [intros []|constructor].
  - apply List.NoDup_cons_iff in Hd as [Hk' Hd].
    destruct (String.eqb_spec k' k) as [->|Hne]; cbn [List.map fst].
    + apply List.NoDup_cons_iff. split; assumption.
    + apply List.NoDup_cons_iff. split; [|apply IH, Hd].
      intros Hin. apply dict_set_keys in Hin as [Hin|Heq]; [exact (Hk' Hin)|].
      exact (Hne Heq).
Qed.

Lemma match_dict_of_keys (self : FunctionSignature) (f_symbols : list string) :
  forall d d',
    FunctionSig.match_dict_of self f_symbols d = Ok d' ->
    (forall k, In k (List.map fst d')
               <-> In k (List.map fst d) \/ In k f_symbols)
    /\ (List.NoDup (List.map fst d) -> List.NoDup (List.map fst d')).
Proof.
  induction f_symbols as [|symbol rest IH]; intros d d' H;
    cbn [FunctionSig.match_dict_of] in H.
  - injection H as <-. split; [intros k; cbn [In]; intuition|trivial].
  - destruct (MangledSignature.match_ symbol _ _) as [v| | |];
      try discriminate H. cbn [bind] in H.
    destruct (IH _ _ H) as [Hkeys Hnd]. split.
    + intros k. rewrite Hkeys, dict_set_keys. cbn [In]. intuition.
    + intros Hd. apply Hnd, dict_set_NoDup, Hd.
Qed.

(** ** The maximum *)

Lemma max_q_spec (vs : list Q) :
  forall v0,
    let m := FunctionSig.max_q v0 vs in
    (m = v0 \/ In m vs) /\ (v0 <= m)%Q /\ forall v, In v vs -> (v <= m)%Q.
Proof.
  unfold FunctionSig.max_q.
  induction vs as [|x vs IH]; intros v0; cbn [fold_left].
  - split; [left; reflexivity|]. split; [apply Qle_refl|intros v []].
  - destruct (Qle_bool v0 x) eqn:E.
    + apply Qle_bool_iff in E.
      destruct (IH x) as (Hin & Hle & Hall). split; [|split].
      * destruct Hin as [-> | Hin]; right; [left; reflexivity|right; exact Hin].
      * lra.
      * intros v [<- | Hv]; [exact Hle|exact (Hall v Hv)].
    + assert (Hlt : (x <= v0)%Q).
      { apply Qlt_le_weak, Qnot_le_lt. intros H.
        apply Qle_bool_iff in H. congruence. }
      destruct (IH v0) as (Hin & Hle & Hall). split; [|split].
      * destruct Hin as [-> | Hin]; [left; reflexivity|right; right; exact Hin].
      * exact Hle.
      * intros v [<- | Hv]; [lra|exact (Hall v Hv)].
Qed.

(** On a dictionary that is not empty [max(values)] is one of the
    values and none is above it. *)
Lemma max_values_spec (d : list (string * Q)) :
  d <> [] ->
  (exists k, In (k, FunctionSig.max_values d) d)
  /\ forall k v, In (k, v) d -> (v <= FunctionSig.max_values d)%Q.
Proof.
  destruct d as [|[k0 v0] d]; [congruence|]. intros _.
  cbn [FunctionSig.max_values].
  destruct (max_q_spec (List.map snd d) v0) as (Hin & Hle & Hall). split.
  - destruct Hin as [-> | Hin]; [exists k0; left; reflexivity|].
    apply in_map_iff in Hin as ([k v] & Hv & Hkv). cbn [snd] in Hv.
    exists k. right. rewrite <- Hv. exact Hkv.
  - intros k v [E | Hkv]; [injection E as _ <-; exact Hle|].
    apply Hall. apply in_map_iff. exists (k, v). split; [reflexivity|exact Hkv].
Qed.

Lemma NoDup_keys_filter (f : string * Q -> bool) (d : list (string * Q)) :
  List.NoDup (List.map fst d) -> List.NoDup (List.map fst (List.filter f d)).
Proof.
  induction d as [|kv d IH]; cbn [List.filter List.map]; intros Hd;
    [constructor|].
  apply List.NoDup_cons_iff in Hd as [Hk Hd].
  destruct (f kv); cbn [List.map]; [|apply IH, Hd].
  apply List.NoDup_cons_iff. split; [|apply IH, Hd].
  intros Hin. apply Hk. apply in_map_iff in Hin as (kv' & E & Hin).
  apply filter_In in Hin as [Hin _].
  apply in_map_iff. exists kv'. split; assumption.
Qed.

Lemma key_has_value (d : list (string * Q)) (k : string) :
  In k (List.map fst d) -> exists v, In (k, v) d.
Proof.
  intros H. apply in_map_iff in H as ([k' v] & E & Hin). cbn [fst] in E.
  subst k'. exists v. exact Hin.
Qed.

(** [FunctionSignature.match] returns, once each, the candidates of the
    list whose score is not negative and is the highest. *)
Lemma match_spec (self : FunctionSignature) (mangled_names : list string) :
  exists best,
    FunctionSig.match_ self mangled_names = Ok best
    /\ List.NoDup best
    /\ forall symbol,
         In symbol best <-> best_candidate self mangled_names symbol.
Proof.
  destruct (match_dict_of_total self (candidates self mangled_names) [])
    as (d & Hd & Hscored).
  { apply List.Forall_forall. intros x Hx. apply candidates_spec in Hx. tauto. }
  { intros k v []. }
  destruct (match_dict_of_keys self _ _ _ Hd) as [Hkeys Hnd].
  assert (Hkey : forall k, In k (List.map fst d)
                           <-> In k mangled_names /\ candidate self k = true).
  { intros k. rewrite Hkeys, candidates_spec. cbn [List.map In]. tauto. }
  unfold FunctionSig.match_. fold (candidates self mangled_names).
  rewrite Hd. cbn [bind].
  set (fd := List.filter (fun kv : string * Q => Qle_bool 0 (snd kv)) d).
  assert (Hfd : forall k v, In (k, v) fd <-> In (k, v) d /\ (0 <= v)%Q).
  { intros k v. unfold fd. rewrite filter_In. cbn [snd].
    rewrite Qle_bool_iff. tauto. }
  eexists. split; [reflexivity|]. split.
  { apply NoDup_keys_filter, NoDup_keys_filter, Hnd. constructor. }
  intros symbol. unfold best_candidate, score_of. split.
  - intros Hin. apply in_map_iff in Hin as ([k v] & Hk & Hin).
    cbn [fst] in Hk. subst k.
    apply filter_In in Hin as [Hin Hmax]. cbn [snd] in Hmax.
    apply Qeq_bool_iff in Hmax.
    assert (Hne : fd <> []) by (intros E; rewrite E in Hin; exact Hin).
    destruct (max_values_spec fd Hne) as [_ Hall].
    apply Hfd in Hin as Hd0. destruct Hd0 as [Hind Hv].
    assert (Hsym : In symbol (List.map fst d))
      by (apply in_map_iff; exists (symbol, v); split; [reflexivity|exact Hind]).
    apply Hkey in Hsym as [Hnames Hcand].
    split; [exact Hnames|]. split; [exact Hcand|].
    exists v. split; [exact (Hscored _ _ Hind)|]. split; [exact Hv|].
    intros symbol' v' Hnames' Hcand' Hscore'.
    destruct (key_has_value d symbol' (proj2 (Hkey symbol') (conj Hnames' Hcand')))
      as [v'' Hin'].
    pose proof (Hscored _ _ Hin') as E. rewrite Hscore' in E.
    injection E as <-.
    destruct (Qlt_le_dec v' 0) as [Hneg|Hpos]; [lra|].
    pose proof (Hall symbol' v' (proj2 (Hfd _ _) (conj Hin' Hpos))). lra.
  - intros (Hnames & Hcand & v & Hscore & Hv & Hbest).
    destruct (key_has_value d symbol (proj2 (Hkey symbol) (conj Hnames Hcand)))
      as [v'' Hin].
    pose proof (Hscored _ _ Hin) as E. rewrite Hscore in E. injection E as <-.
    assert (Hinf : In (symbol, v) fd) by (apply Hfd; split; assumption).
    assert (Hne : fd <> []) by (intros E; rewrite E in Hinf; exact Hinf).
    destruct (max_values_spec fd Hne) as [[k' Hk'] Hall].
    apply Hfd in Hk' as Hd0. destruct Hd0 as [Hk'd _].
    assert (Hsym : In k' (List.map fst d))
      by (apply in_map_iff; exists (k', FunctionSig.max_values fd);
          split; [reflexivity|exact Hk'd]).
    apply Hkey in Hsym as [Hnames' Hcand'].
    pose proof (Hbest k' _ Hnames' Hcand' (Hscored _ _ Hk'd)) as Hle.
    pose proof (Hall _ _ Hinf) as Hge.
    apply in_map_iff. exists (symbol, v). split; [reflexivity|].
    apply filter_In. split; [exact Hinf|]. cbn [snd].
    apply Qeq_bool_iff. lra.
Qed.

(** ** The definition a call was mangled from *)

Lemma contains_startswith (t s : string) :
  startswith t s = true -> contains t s = true.
Proof.
  intros H. unfold contains. destruct s as [|c s].
  - cbn [find]. rewrite H. reflexivity.
  - rewrite find_step, H. reflexivity.
Qed.

Lemma contains_middle (a t r : string) : contains t (a ++ t ++ r) = true.
Proof.
  induction a as [|c a IH].
  - change ("" ++ t ++ r) with (t ++ r).
    apply contains_startswith, startswith_append.
  - unfold contains in *. change (String c a ++ t ++ r) with (String c (a ++ t ++ r)).
    rewrite find_step.
    destruct (startswith t (String c (a ++ t ++ r))); [reflexivity|].
    destruct (find t (a ++ t ++ r)) as [[p q]|]; [reflexivity|discriminate IH].
Qed.

(** The mangled name of a signature passes the three filters of its
    own [match]. *)
Lemma mangle_candidate (s : FunctionSignature) :
  candidate s (FunctionSig.mangle s) = true.
Proof.
  unfold candidate. rewrite !andb_true_iff. repeat split.
  - rewrite mangle_segments. unfold mangled_head.
    apply (contains_middle "" _ _).
  - rewrite mangle_segments. unfold mangled_tokens. cbn [segments].
    replace (mangled_head s
             ++ String underscore
                  (("PN" ++ str_nat (List.length (fs_params s)))
                   ++ segments (param_tokens s)))
      with (mangled_head s
            ++ ("_PN" ++ str_nat (List.length (fs_params s)))
            ++ segments (param_tokens s))
      by (cbn [append]; reflexivity).
    apply contains_middle.
  - rewrite mangle_segments. unfold mangled_tokens, param_tokens.
    rewrite app_comm_cons, segments_app. cbn [segments].
    rewrite append_assoc.
    replace (String underscore
               (("QN" ++ str_nat (List.length (fs_qubits s)))
                ++ segments (qubit_tokens s)))
      with (("_QN" ++ str_nat (List.length (fs_qubits s)))
            ++ segments (qubit_tokens s))
      by (cbn [append]; reflexivity).
    rewrite <- append_assoc.
    apply contains_middle.
Qed.

Section OwnScore.

Variable score : string -> string -> Q.
Hypothesis score_self_best : forall x y, (score x y <= score x x)%Q.
Hypothesis score_self_nonneg : forall x, (0 <= score x x)%Q.

Lemma zip_sum_self_ge (xs : list string) :
  forall acc acc' : Q,
    (acc <= acc')%Q -> (acc <= MangledSignature.zip_sum score xs xs acc')%Q.
Proof.
  induction xs as [|x xs IH]; intros acc acc' H;
    cbn [MangledSignature.zip_sum]; [exact H|].
  apply IH. pose proof (score_self_nonneg x). lra.
Qed.

Lemma zip_sum_self_best (xs : list string) :
  forall (ys : list string) (acc acc' : Q),
    (acc <= acc')%Q ->
    (MangledSignature.zip_sum score xs ys acc
     <= MangledSignature.zip_sum score xs xs acc')%Q.
Proof.
  induction xs as [|x xs IH]; intros ys acc acc' H.
  - exact H.
  - destruct ys as [|y ys].
    + cbn [MangledSignature.zip_sum]. apply zip_sum_self_ge.
      pose proof (score_self_nonneg x). lra.
    + cbn [MangledSignature.zip_sum]. apply IH.
      pose proof (score_self_best x y). lra.
Qed.

End OwnScore.

Lemma param_score_self (n : nat) (p : string) :
  MangledSignature.param_score n p p
  = if Utilities.is_number p then 1%Q else 0%Q.
Proof.
  unfold MangledSignature.param_score. rewrite String.eqb_refl.
  destruct (Utilities.is_number p); reflexivity.
Qed.

Lemma param_score_self_best (n : nat) (p fp : string) :
  (MangledSignature.param_score n p fp <= MangledSignature.param_score n p p)%Q.
Proof.
  rewrite param_score_self. unfold MangledSignature.param_score.
  destruct (Utilities.is_number fp) eqn:Hfp.
  - destruct (String.eqb_spec p fp) as [->|Hne].
    + rewrite Hfp. apply Qle_refl.
    + destruct (Utilities.is_number p); discriminate.
  - destruct (Utilities.is_number p); [|apply Qle_refl].
    apply reciprocal_le_1. lia.
Qed.

Lemma param_score_self_nonneg (n : nat) (p : string) :
  (0 <= MangledSignature.param_score n p p)%Q.
Proof.
  rewrite param_score_self. destruct (Utilities.is_number p); discriminate.
Qed.

Lemma qubit_score_self (n m : nat) (q : string) :
  MangledSignature.qubit_score n m q q = 1%Q.
Proof.
  unfold MangledSignature.qubit_score. rewrite String.eqb_refl. reflexivity.
Qed.

(** No candidate is scored above the definition the call was mangled
    from. *)
Lemma own_score_best (s : FunctionSignature) :
  well_formed s = true ->
  exists v0,
    score_of s (FunctionSig.mangle s) = Ok v0 /\ (0 <= v0)%Q
    /\ forall symbol v, score_of s symbol = Ok v -> (v <= v0)%Q.
Proof.
  intros Hs. unfold score_of, MangledSignature.match_.
  rewrite (params_roundtrip s Hs), (qubits_roundtrip s Hs). cbn [bind].
  set (n := List.length (fs_params s)). set (m := List.length (fs_qubits s)).
  assert (Hq : forall x y,
             (MangledSignature.qubit_score n m x y
              <= MangledSignature.qubit_score n m x x)%Q)
    by (intros x y; rewrite qubit_score_self; apply qubit_score_le_1).
  assert (Hq0 : forall x, (0 <= MangledSignature.qubit_score n m x x)%Q)
    by (intros x; rewrite qubit_score_self; discriminate).
  eexists. split; [reflexivity|]. split.
  - apply (zip_sum_self_ge _ Hq0).
    apply (zip_sum_self_ge _ (param_score_self_nonneg n)). apply Qle_refl.
  - intros symbol v H.
    destruct (MangledSignature.params symbol) as [f_params| | |];
      try discriminate H.
    destruct (MangledSignature.qubits symbol) as [f_qubits| | |];
      try discriminate H.
    cbn [bind] in H. injection H as <-.
    apply (zip_sum_self_best _ Hq Hq0).
    apply (zip_sum_self_best _ (param_score_self_best n)
             (param_score_self_nonneg n)).
    apply Qle_refl.
Qed.

(** X4: when the list holds the mangled name of the call's own
    signature, [FunctionSignature.match] returns it (with the names that
    score as well, if any). *)
Theorem own_definition_selected (s : FunctionSignature)
    (mangled_names : list string) :
  well_formed s = true ->
  In (FunctionSig.mangle s) mangled_names ->
  exists best,
    FunctionSig.match_ s mangled_names = Ok best
    /\ In (FunctionSig.mangle s) best.
Proof.
  intros Hs Hin.
  destruct (match_spec s mangled_names) as (best & Hbest & _ & Hspec).
  exists best. split; [exact Hbest|]. apply Hspec.
  destruct (own_score_best s Hs) as (v0 & Hv0 & Hpos & Hall).
  split; [exact Hin|]. split; [apply mangle_candidate|].
  exists v0. split; [exact Hv0|]. split; [exact Hpos|].
  intros symbol' v' _ _ H'. exact (Hall symbol' v' H').
Qed.

(** X2: [FunctionSignature.match] returns on every list of names, and
    never raises: the names it returns are names of the list that hold
    the three terms of the call (its name, its number of parameters and
    its number of qubits), each once. *)
Theorem match_returns_candidates (self : FunctionSignature)
    (mangled_names : list string) :
  exists best,
    FunctionSig.match_ self mangled_names = Ok best
    /\ List.NoDup best
    /\ forall symbol,
         In symbol best ->
         In symbol mangled_names /\ candidate self symbol = true.
Proof.
  destruct (match_spec self mangled_names) as (best & Hbest & Hnodup & Hspec).
  exists best. split; [exact Hbest|]. split; [exact Hnodup|].
  intros symbol Hin. apply Hspec in Hin.
  destruct Hin as (Hin & Hc & _). split; assumption.
Qed.

(** X3: two signatures that round-trip and have the same mangled name
    are the same signature. *)
Theorem mangle_injective (s1 s2 : FunctionSignature) :
  well_formed s1 = true -> well_formed s2 = true ->
  FunctionSig.mangle s1 = FunctionSig.mangle s2 -> s1 = s2.
Proof.
  intros H1 H2 E.
  pose proof (name_roundtrip s1 H1) as N1.
  pose proof (params_roundtrip s1 H1) as P1.
  pose proof (qubits_roundtrip s1 H1) as Q1.
  pose proof (return_type_roundtrip s1 H1) as R1.
  rewrite E in N1, P1, Q1, R1.
  rewrite (name_roundtrip s2 H2) in N1.
  rewrite (params_roundtrip s2 H2) in P1.
  rewrite (qubits_roundtrip s2 H2) in Q1.
  rewrite (return_type_roundtrip s2 H2) in R1.
  destruct s1, s2. cbn in *. congruence.
Qed.

Lemma own_definition_selected_witness :
  exists best,
    FunctionSig.match_ call_x90
      ["_ZN3x90_PN1_ANGLE_QN1_q_R"; FunctionSig.mangle call_x90] = Ok best
    /\ In (FunctionSig.mangle call_x90) best.
Proof.
  apply own_definition_selected; [reflexivity|].
  right. left. reflexivity.
Defined.

(** The call [x90(theta) $0] selects its own definition, not the one
    for any qubit. *)
Lemma x90_selects_own_definition :
  FunctionSig.match_ call_x90
    ["_ZN3x90_PN1_ANGLE_QN1_q_R"; FunctionSig.mangle call_x90]
  = Ok ["_ZN3x90_PN1_theta_QN1_$0_R"].
Proof. vm_compute. reflexivity. Qed.

(** A literal with an underscore does not round-trip, and the call does
    not find the definition mangled from its own signature. *)
Lemma underscored_literal_misses_own_definition :
  well_formed call_1_0 = false
  /\ FunctionSig.match_ call_1_0 [FunctionSig.mangle call_1_0] = Ok [].
Proof. split; vm_compute; reflexivity. Qed.

Lemma mangle_injective_witness : my_function = my_function.
Proof.
  apply mangle_injective; reflexivity.
Defined.

(** * Signatures the [Mangler] builds *)




Section MangledDefinitions.

Variable str_float : Q -> string.




End MangledDefinitions.


End MatchFacts.

Module ScopeFacts.
Import ScopeSpec.

(** * The call stack as a stack of scopes *)

Lemma pop_iff (records rest : list ActivationRecord) (r : ActivationRecord) :
  CallStack.pop records = Ok (rest, r) <-> records = (rest ++ [r])%list.
Proof.
  unfold CallStack.pop. split.
  - intros H. destruct (List.rev records) as [|x l] eqn:E; [discriminate H|].
    injection H as <- <-.
    rewrite <- (rev_involutive records), E. reflexivity.
  - intros ->. rewrite rev_app_distr. cbn [List.rev app].
    rewrite rev_involutive. reflexivity.
Qed.

Lemma peek_push (records : list ActivationRecord) (r : ActivationRecord) :
  CallStack.peek (CallStack.push records r) = Ok r.
Proof.
  unfold CallStack.peek, CallStack.push. rewrite rev_app_distr. reflexivity.
Qed.

(** X6: the call stack is last in, first out: [pop] after [push] gives
    back the record pushed and the stack as it was, [peek] and
    [nesting_level] read the record pushed last, and on an empty stack
    the three raise [IndexError]. *)
Theorem push_pop_peek (records : list ActivationRecord) (r : ActivationRecord) :
  CallStack.pop (CallStack.push records r) = Ok (records, r)
  /\ CallStack.peek (CallStack.push records r) = Ok r
  /\ CallStack.nesting_level (CallStack.push records r)
     = Ok (ar_nesting_level r)
  /\ (forall rest r', CallStack.pop records = Ok (rest, r') ->
        CallStack.push rest r' = records /\ CallStack.peek records = Ok r')
  /\ CallStack.pop [] = Raise IndexError
  /\ CallStack.peek [] = Raise IndexError
  /\ CallStack.nesting_level [] = Raise IndexError.
Proof.
  split; [apply pop_iff; reflexivity|].
  split; [apply peek_push|].
  split; [unfold CallStack.nesting_level; rewrite peek_push; reflexivity|].
  split; [|repeat split].
  intros rest r' H. apply pop_iff in H. subst records.
  split; [reflexivity|apply peek_push].
Qed.

(** X7: [record[key] = v] is read back by [record[key]], also through
    another record that shares the dictionary; the other keys of the
    dictionary and the other dictionaries are as before. *)
Theorem setitem_getitem (dicts dicts' : dict_store) (r : ActivationRecord)
    (key : string) (v : value) :
  CallStack.setitem dicts r key v = Ok dicts' ->
  (forall r', ar_members r' = ar_members r ->
     CallStack.getitem dicts' r' key = Ok v)
  /\ (forall r' key', key' <> key ->
        CallStack.getitem dicts' r' key' = CallStack.getitem dicts r' key')
  /\ (forall r' key', ar_members r' <> ar_members r ->
        CallStack.getitem dicts' r' key' = CallStack.getitem dicts r' key').
Proof.
  unfold CallStack.setitem, CallStack.getitem. intros H.
  destruct (dicts !! ar_members r) as [members|] eqn:E; [|discriminate H].
  injection H as <-. repeat split.
  - intros r' ->. rewrite lookup_insert_eq, lookup_insert_eq. reflexivity.
  - intros r' key' Hne.
    destruct (decide (ar_members r' = ar_members r)) as [->|Hm].
    + rewrite lookup_insert_eq, E, lookup_insert_ne by congruence. reflexivity.
    + rewrite lookup_insert_ne by congruence. reflexivity.
  - intros r' key' Hm. rewrite lookup_insert_ne by congruence. reflexivity.
Qed.

Lemma setitem_getitem_witness :
  (forall r', ar_members r' = ar_members scope_loop ->
     CallStack.getitem (<[2%nat := {[ "x" := VInt 7 ]}]> scope_store) r' "x"
     = Ok (VInt 7))
  /\ (forall r' key', key' <> "x" ->
        CallStack.getitem (<[2%nat := {[ "x" := VInt 7 ]}]> scope_store) r' key'
        = CallStack.getitem scope_store r' key')
  /\ (forall r' key', ar_members r' <> ar_members scope_loop ->
        CallStack.getitem (<[2%nat := {[ "x" := VInt 7 ]}]> scope_store) r' key'
        = CallStack.getitem scope_store r' key').
Proof.
  apply (setitem_getitem scope_store _ scope_loop "x" (VInt 7)).
  reflexivity.
Defined.

(** X8: a lookup by name reads the record on top when its dictionary
    holds the name, and otherwise is the lookup in the stack below: the
    innermost binding shadows the outer ones. *)
Theorem get_push (dicts : dict_store) (records : list ActivationRecord)
    (r : ActivationRecord) (members : gmap string value) (name : string) :
  dicts !! ar_members r = Some members ->
  CallStack.get dicts (CallStack.push records r) name
  = match members !! name with
    | Some v => Ok v
    | None => CallStack.get dicts records name
    end.
Proof.
  intros Hm. unfold CallStack.get, CallStack.down_stack, CallStack.push.
  rewrite rev_app_distr. cbn [List.rev app CallStack.down_stack_loop].
  unfold CallStack.binds. rewrite Hm. cbn [bind].
  destruct (members !! name) as [v|] eqn:E; [|reflexivity].
  cbn [bind]. unfold CallStack.getitem. rewrite Hm, E. reflexivity.
Qed.

Lemma get_push_witness :
  CallStack.get scope_store (CallStack.push [scope_main] scope_loop) "x"
  = match (∅ : gmap string value) !! "x" with
    | Some v => Ok v
    | None => CallStack.get scope_store [scope_main] "x"
    end.
Proof.
  apply (get_push scope_store [scope_main] scope_loop ∅ "x").
  reflexivity.
Defined.

(** The name [x] of the program is seen from inside the loop until the
    loop binds an [x] of its own. *)
Lemma inner_binding_shadows :
  CallStack.get scope_store [scope_main; scope_loop] "x" = Ok (VInt 1)
  /\ (forall dicts',
        CallStack.setitem scope_store scope_loop "x" (VInt 7) = Ok dicts' ->
        CallStack.get dicts' [scope_main; scope_loop] "x" = Ok (VInt 7)
        /\ CallStack.get dicts' [scope_main] "x" = Ok (VInt 1)).
Proof.
  split; [vm_compute; reflexivity|].
  intros dicts' H. vm_compute in H. injection H as <-.
  split; vm_compute; reflexivity.
Qed.

End ScopeFacts.

Module SubroutineFacts.
Import ScopeSpec ScopeFacts InterpreterSpec InterpreterFacts SubroutineSpec Interp.

(** * The interpreter and the call stack *)

Lemma same_stack_refl (st : State) : same_stack st st.
Proof. reflexivity. Qed.

Lemma same_stack_trans (a b c : State) :
  same_stack a b -> same_stack b c -> same_stack a c.
Proof. unfold same_stack. congruence. Qed.

Lemma same_stack_same (st st' : State) :
  call_stack st' = call_stack st -> same_stack st st'.
Proof. trivial. Qed.

Lemma ks_ret {A : Type} (a : A) : keeps_stack (ret a).
Proof. intros st. apply same_stack_refl. Qed.

Lemma ks_raise {A : Type} (e : exn) : keeps_stack (@raise State A e).
Proof. intros st. apply same_stack_refl. Qed.

Lemma ks_lift {A : Type} (r : result A) : keeps_stack (lift r).
Proof. intros st. apply same_stack_refl. Qed.

Lemma ks_read {A : Type} (f : State -> result A) : keeps_stack (read f).
Proof. intros st. apply same_stack_refl. Qed.

Lemma ks_bind {A B : Type} (m : M State A) (k : A -> M State B) :
  keeps_stack m -> (forall a, keeps_stack (k a)) -> keeps_stack (bindM m k).
Proof.
  intros Hm Hk st. unfold bindM. specialize (Hm st).
  destruct (m st) as [[a| | |] st1]; cbn [snd] in *; try exact Hm.
  eapply same_stack_trans; [exact Hm|apply Hk].
Qed.

Lemma ks_modify (f : State -> State) :
  (forall st, call_stack (f st) = call_stack st) -> keeps_stack (modify f).
Proof. intros H st. apply same_stack_same, H. Qed.

(** The record pushed on entry is the record popped on exit. *)
Lemma ks_ar_context_manager {A : Type} (ar : ActivationRecord) (body : M State A) :
  keeps_stack body -> keeps_stack (ar_context_manager ar body).
Proof.
  intros Hb st. unfold ar_context_manager, bindM, modify, finally.
  specialize (Hb (set_call_stack (CallStack.push (call_stack st) ar) st)).
  destruct (body _) as [r st1]. cbn [snd] in *.
  assert (Hb' : call_stack st1 = (call_stack st ++ [ar])%list) by exact Hb.
  unfold same_stack, pop_record. rewrite Hb'.
  rewrite (proj2 (pop_iff _ (call_stack st) ar) eq_refl). reflexivity.
Qed.

Lemma ks_flag (info : warning_info) : keeps_stack (flag info).
Proof. intros st. reflexivity. Qed.

Lemma ks_for_each {A : Type} (f : A -> M State unit) (l : list A) :
  (forall x, keeps_stack (f x)) -> keeps_stack (for_each f l).
Proof.
  intros Hf. induction l as [|x l IH]; simpl.
  - apply ks_ret.
  - apply ks_bind; [apply Hf|intros _; exact IH].
Qed.

Lemma ks_list_comp {A B : Type} (f : A -> M State B) (l : list A) :
  (forall x, keeps_stack (f x)) -> keeps_stack (list_comp f l).
Proof.
  intros Hf. induction l as [|x l IH]; simpl.
  - apply ks_ret.
  - apply ks_bind; [apply Hf|intros y].
    apply ks_bind; [exact IH|intros ys; apply ks_ret].
Qed.

Lemma ks_new_ActivationRecord (name : string) (t : ARType) (level : Z) :
  keeps_stack (new_ActivationRecord name t level).
Proof. intros st. apply same_stack_same. reflexivity. Qed.

Lemma ks_setitem (r : ActivationRecord) (k : string) (v : value) :
  keeps_stack (setitem r k v).
Proof.
  intros st. unfold setitem.
  destruct (CallStack.setitem (dicts st) r k v); apply same_stack_same; reflexivity.
Qed.

Lemma ks_visit_Identifier (name : string) : keeps_stack (visit_Identifier name).
Proof.
  intros st. unfold visit_Identifier.
  destruct (CallStack.down_stack _ _ _) as [r|[]| |]; try apply same_stack_refl.
  destruct (CallStack.getitem _ _ _) as [v|[]| |]; apply same_stack_refl.
Qed.

Lemma ks_the_frame (v : value) : keeps_stack (the_frame v).
Proof.
  intros st. destruct v; try apply same_stack_refl. cbn.
  destruct (frames (heap st) !! l); apply same_stack_refl.
Qed.

Lemma ks_store_frame (l : loc) (f : Frame) : keeps_stack (store_frame l f).
Proof. apply ks_modify. reflexivity. Qed.

Lemma ks_new_Frame (name : string) (p fr ph : value) :
  keeps_stack (new_Frame name p fr ph).
Proof.
  intros st. unfold new_Frame.
  destruct p; try apply same_stack_refl.
  destruct (as_number fr); try apply same_stack_refl.
  destruct (as_number ph); try apply same_stack_refl.
  apply same_stack_same. reflexivity.
Qed.

Ltac ks_step :=
  first
    [ assumption
    | match goal with H : _ |- keeps_stack _ => apply H end
    | apply ks_ret | apply ks_raise | apply ks_lift | apply ks_read
    | apply ks_new_ActivationRecord | apply ks_setitem
    | apply ks_visit_Identifier | apply ks_the_frame | apply ks_store_frame
    | apply ks_new_Frame | apply ks_flag
    | apply ks_modify; intros; reflexivity
    | progress unfold peek, nesting_level, down_stack, getitem
    | apply ks_ar_context_manager
    | apply ks_for_each; intros
    | apply ks_list_comp; intros
    | apply ks_bind; [|intros]
    | match goal with
      | |- keeps_stack (match ?x with _ => _ end) => destruct x
      | |- keeps_stack (if ?b then _ else _) => destruct b
      | |- keeps_stack (let (_, _) := ?p in _) => destruct p
      end ].

Ltac ks := repeat ks_step.

Section Balance.

Variable self : Interpreter.
Variable visit_expr : expr -> M State value.
Variable visit_stmt : stmt -> M State value.
Variable while_rest : expr -> list stmt -> M State unit.
Hypothesis visit_expr_acc : forall e, keeps_stack (visit_expr e).
Hypothesis visit_stmt_acc : forall s, keeps_stack (visit_stmt s).
Hypothesis while_rest_acc : forall c b, keeps_stack (while_rest c b).

Lemma ks_visit_block (block : list stmt) :
  keeps_stack (visit_block visit_stmt block).
Proof. unfold visit_block. ks. Qed.

Lemma ks_visit_opt (e : option expr) (d : value) :
  keeps_stack (visit_opt visit_expr e d).
Proof. unfold visit_opt. ks. Qed.

Lemma ks_evaluate_function (name : string) (args : list value) :
  keeps_stack (evaluate_function self visit_stmt name args).
Proof.
  unfold evaluate_function.
  destruct (external_funcs self) as [funcs|]; [|ks].
  destruct (alist_get funcs name); [ks|].
  apply ks_bind; [ks|intros subs].
  destruct (alist_get subs name) as [[]|]; ks.
  induction body as [|s rest IH]; [ks|].
  destruct s; ks.
Qed.

Lemma ks_Interpreter_visit_FunctionCall (name : string) (arguments : list expr) :
  keeps_stack (Interpreter_visit_FunctionCall self visit_expr visit_stmt name arguments).
Proof.
  unfold Interpreter_visit_FunctionCall, visit_play.
  pose proof ks_evaluate_function as Hev.
  ks.
Qed.

Lemma ks_run_defcal_body (body : list stmt) :
  keeps_stack (run_defcal_body visit_stmt body).
Proof.
  induction body as [|s rest IH]; simpl; [ks|].
  destruct s; ks.
Qed.

Lemma ks_quantum_gate_helper (call : gate_call) :
  keeps_stack (quantum_gate_helper self visit_expr visit_stmt call).
Proof.
  unfold quantum_gate_helper.
  pose proof ks_run_defcal_body as Hrun.
  ks.
Qed.

Lemma ks_visit_rvalue (r : rvalue) :
  keeps_stack (visit_rvalue self visit_expr visit_stmt r).
Proof.
  unfold visit_rvalue. pose proof ks_quantum_gate_helper as Hq. ks.
Qed.

Lemma ks_visit_opt_rvalue (r : option rvalue) :
  keeps_stack (visit_opt_rvalue self visit_expr visit_stmt r).
Proof.
  unfold visit_opt_rvalue. pose proof ks_visit_rvalue as Hr. ks.
Qed.

Lemma ks_visit_QuantumMeasurementStatement (m : QuantumMeasurement)
    (target : option string) :
  keeps_stack (visit_QuantumMeasurementStatement self visit_expr visit_stmt m target).
Proof.
  unfold visit_QuantumMeasurementStatement.
  pose proof ks_quantum_gate_helper as Hq. ks.
Qed.

Lemma ks_visit_ClassicalDeclaration (type : ctype) (identifier : string)
    (init : option rvalue) :
  keeps_stack (visit_ClassicalDeclaration self visit_expr visit_stmt type identifier init).
Proof.
  unfold visit_ClassicalDeclaration.
  pose proof ks_visit_rvalue as Hr. pose proof ks_visit_opt as Ho.
  apply ks_bind; [ks|intros record].
  destruct type; try solve [ks].
Qed.

Lemma ks_visit_CalibrationStatement (body : list stmt) :
  keeps_stack (visit_CalibrationStatement visit_stmt body).
Proof.
  unfold visit_CalibrationStatement.
  pose proof ks_visit_block as Hb.
  ks.
  intros st.
  repeat match goal with
         | |- same_stack _ (snd (match ?x with _ => _ end)) => destruct x
         end;
    apply same_stack_same; reflexivity.
Qed.

Lemma ks_while_round (c : expr) (b : list stmt) :
  keeps_stack (while_round visit_expr visit_stmt while_rest c b).
Proof.
  unfold while_round. pose proof ks_visit_block as Hb. ks.
Qed.

Lemma ks_Interpreter_visit_ForInLoop (identifier : string) (sd : expr)
    (block : list stmt) :
  keeps_stack (Interpreter_visit_ForInLoop self visit_expr visit_stmt identifier sd block).
Proof.
  unfold Interpreter_visit_ForInLoop. pose proof ks_visit_block as Hb.
  destruct (negb (visit_loops self)); [ks|].
  ks.
Qed.

Lemma ks_check_timing_constraints (node : expr) :
  keeps_stack (check_timing_constraints self visit_expr node).
Proof.
  unfold check_timing_constraints. ks.
Qed.

Lemma ks_TimingConstraints_visit_DelayInstruction (duration : expr) :
  keeps_stack (TimingConstraints_visit_DelayInstruction self visit_expr duration).
Proof.
  unfold TimingConstraints_visit_DelayInstruction.
  pose proof ks_check_timing_constraints as Hc. ks.
Qed.

Lemma ks_TimingConstraints_visit_ForInLoop (identifier : string) (sd : expr)
    (block : list stmt) :
  keeps_stack (TimingConstraints_visit_ForInLoop visit_expr visit_stmt identifier sd block).
Proof.
  unfold TimingConstraints_visit_ForInLoop. pose proof ks_visit_block as Hb.
  ks.
Qed.

Lemma ks_TimingConstraints_visit_FunctionCall (name : string)
    (arguments : list expr) :
  keeps_stack (TimingConstraints_visit_FunctionCall self visit_expr visit_stmt
                 name arguments).
Proof.
  unfold TimingConstraints_visit_FunctionCall.
  pose proof ks_Interpreter_visit_FunctionCall as Hi.
  pose proof ks_check_timing_constraints as Hc.
  apply ks_bind; [ks|intros level].
  apply ks_bind; [ks|intros record].
  apply ks_ar_context_manager.
  destruct (is_play name); [|apply Hi].
  destruct arguments as [|a0 [|arg [|]]]; try apply Hi.
  destruct (is_call_to "executeTableEntry" arg); ks.
Qed.

Lemma ks_dispatch_expr (node : expr) :
  keeps_stack (dispatch_expr self visit_expr visit_stmt node).
Proof.
  pose proof ks_Interpreter_visit_FunctionCall as Hi.
  pose proof ks_TimingConstraints_visit_FunctionCall as Ht.
  pose proof ks_visit_opt as Ho.
  destruct node; cbn [dispatch_expr];
    unfold visit_ArrayLiteral, visit_UnaryExpression, visit_BinaryExpression,
      visit_FunctionCall, visit_RangeDefinition; ks.
Qed.

Lemma ks_dispatch_stmt (node : stmt) :
  keeps_stack (dispatch_stmt self visit_expr visit_stmt while_rest node).
Proof.
  pose proof ks_visit_block as Hb.
  pose proof ks_quantum_gate_helper as Hq.
  destruct node; cbn [dispatch_stmt].
  - ks.
  - apply ks_visit_ClassicalDeclaration.
  - unfold visit_ConstantDeclaration. ks.
  - unfold visit_ClassicalAssignment. ks.
  - unfold visit_SubroutineDefinition. ks.
  - unfold visit_CalibrationDefinition. ks.
  - apply ks_visit_CalibrationStatement.
  - ks.
  - ks.
  - apply ks_visit_QuantumMeasurementStatement.
  - apply ks_visit_opt_rvalue.
  - unfold visit_BranchingStatement. ks.
  - unfold visit_WhileLoop. ks.
  - unfold visit_ForInLoop.
    pose proof ks_Interpreter_visit_ForInLoop as Hf.
    pose proof ks_TimingConstraints_visit_ForInLoop as Hg.
    ks.
  - unfold visit_DelayInstruction.
    pose proof ks_TimingConstraints_visit_DelayInstruction as Hd. ks.
Qed.

End Balance.

Lemma visit_keeps_stack (self : Interpreter) (fuel : nat) :
  (forall e, keeps_stack (Interp.visit_expr self fuel e))
  /\ (forall s, keeps_stack (Interp.visit_stmt self fuel s))
  /\ (forall c b, keeps_stack (Interp.while_loop self fuel c b)).
Proof.
  induction fuel as [|fuel (IHe & IHs & IHw)].
  - repeat split; intros; apply ks_lift.
  - repeat split; intros; cbn [Interp.visit_expr Interp.visit_stmt Interp.while_loop].
    + apply ks_dispatch_expr; assumption.
    + apply ks_dispatch_stmt; assumption.
    + apply ks_while_round; assumption.
Qed.

(** X9: every visit of the interpreter and of the timing checker leaves
    the call stack as it found it, whether the visit returns or raises:
    each record pushed for a block, a call or a calibration is popped on
    the way out. *)
Theorem visit_leaves_call_stack (self : Interpreter) (fuel : nat) :
  (forall e st,
      call_stack (snd (Interp.visit_expr self fuel e st)) = call_stack st)
  /\ (forall s st,
         call_stack (snd (Interp.visit_stmt self fuel s st)) = call_stack st)
  /\ (forall node st,
         call_stack (snd (Interp.visit_Program self fuel node st))
         = call_stack st).
Proof.
  destruct (visit_keeps_stack self fuel) as (He & Hs & _).
  split; [exact He|]. split; [exact Hs|].
  intros node. change (keeps_stack (Interp.visit_Program self fuel node)).
  assert (Hb : keeps_stack (visit_statements self fuel (statements node))).
  { unfold visit_statements, visit_block. ks. }
  unfold Interp.visit_Program, Interpreter_visit_Program,
    TimingConstraints_visit_Program, TimingConstraints_visit_all,
    raise_if_flagged.
  destruct (klass self); ks.
Qed.

(** ** Declarations *)

Lemma declaration_steps (self : Interpreter) (fuel : nat) (node : stmt)
    (name : string) (e : expr) :
  stores_initial_value node name e ->
  Interp.visit_stmt self (Datatypes.S fuel) node
  = (let! activation_record := peek in
     let! v := Interp.visit_expr self fuel e in
     let! _ := setitem activation_record name v in
     ret VNone).
Proof.
  intros [[type ->] | (type & -> & Hp & Hf)].
  - reflexivity.
  - cbn [Interp.visit_stmt dispatch_stmt]. unfold visit_ClassicalDeclaration.
    destruct type; try reflexivity; congruence.
Qed.

(** X10: after a declaration with an initial expression the declared
    name reads as the value of that expression: the binding is made in
    the record on top of the stack, where a lookup looks first. *)
Theorem declared_name_reads_back (self : Interpreter) (fuel fuel' : nat)
    (node : stmt) (name : string) (e : expr) (st st1 : State) (r : value) :
  stores_initial_value node name e ->
  Interp.visit_stmt self (Datatypes.S fuel) node st = (Ok r, st1) ->
  exists v st',
    Interp.visit_expr self fuel e st = (Ok v, st')
    /\ Interp.visit_expr self (Datatypes.S fuel') (Identifier name) st1
       = (Ok v, st1).
Proof.
  intros Hnode Hrun. rewrite (declaration_steps self fuel node name e Hnode) in Hrun.
  unfold bindM, peek, read in Hrun.
  destruct (CallStack.peek (call_stack st)) as [top| | |] eqn:Hpeek;
    try discriminate Hrun.
  pose proof (proj1 (visit_keeps_stack self fuel) e st) as Hstack.
  destruct (Interp.visit_expr self fuel e st) as [[v| | |] st'] eqn:He;
    try discriminate Hrun.
  cbn [snd] in Hstack. unfold same_stack in Hstack.
  unfold setitem, CallStack.setitem in Hrun.
  destruct (dicts st' !! ar_members top) as [members|] eqn:Hm;
    [|discriminate Hrun].
  unfold ret in Hrun. injection Hrun as _ <-.
  exists v, st'. split; [reflexivity|].
  cbn [Interp.visit_expr dispatch_expr]. unfold visit_Identifier.
  change (call_stack (set_dicts _ st')) with (call_stack st').
  change (dicts (set_dicts ?d st')) with d.
  rewrite Hstack.
  unfold CallStack.peek in Hpeek. unfold CallStack.down_stack.
  destruct (List.rev (call_stack st)) as [|top' below]; [discriminate Hpeek|].
  injection Hpeek as ->.
  cbn [CallStack.down_stack_loop]. unfold CallStack.binds, CallStack.getitem.
  rewrite !lookup_insert_eq. cbn [bind]. rewrite !lookup_insert_eq. reflexivity.
Qed.

Lemma declared_name_reads_back_witness :
  exists v st',
    Interp.visit_expr example_interpreter 1 (IntegerLiteral 3) main_state
    = (Ok v, st')
    /\ Interp.visit_expr example_interpreter 1 (Identifier "n")
         (snd (Interp.visit_stmt example_interpreter 2 constant_n main_state))
       = (Ok v, snd (Interp.visit_stmt example_interpreter 2 constant_n main_state)).
Proof.
  apply (declared_name_reads_back example_interpreter 1 0 constant_n "n"
           (IntegerLiteral 3) main_state _ VNone).
  - left. exists (IntType None). reflexivity.
  - vm_compute. reflexivity.
Defined.

(** ** Subroutines *)

(** The loop of [evaluate_function] over a body without [return]
    comes to its end, where the function is reported as not found. *)
Lemma body_without_return (visit_stmt : stmt -> M State value) (e : exn)
    (body : list stmt) :
  existsb is_return body = false ->
  forall st v,
    fst ((fix run (body : list stmt) : M State value :=
            match body with
            | [] => raise e
            | ReturnStatement x :: _ => visit_stmt (ReturnStatement x)
            | statement :: rest =>
                let! _ := visit_stmt statement in run rest
            end) body st) <> Ok v.
Proof.
  induction body as [|s rest IH]; intros Hno st v.
  - discriminate.
  - cbn [existsb] in Hno. apply orb_false_iff in Hno as [Hs Hrest].
    destruct s; try discriminate Hs;
      (unfold bindM;
       match goal with
       | |- context [visit_stmt ?n st] =>
           destruct (visit_stmt n st) as [[x| | |] st1]
       end; cbn [fst]; try discriminate; apply (IH Hrest)).
Qed.

(** X11: a call of a subroutine whose body has no [return] statement at
    its top level never returns a value: a statement of the body raises,
    or the loop over the body ends and the call raises. *)
Theorem subroutine_without_return (self : Interpreter) (fuel : nat)
    (funcs : list (string * (list value -> result value)))
    (func_name name : string) (arguments : list sub_argument)
    (body : list stmt) (return_type : option ctype)
    (arg_vals : list value) (st : State) :
  external_funcs self = Some funcs ->
  alist_get funcs func_name = None ->
  alist_get (subroutines st) func_name
  = Some (SubroutineDefinition name arguments body return_type) ->
  existsb is_return body = false ->
  returned (fst (evaluate_function self (Interp.visit_stmt self fuel) func_name
                   arg_vals st)) = false.
Proof.
  intros Hext Hfun Hsub Hno.
  match goal with
  | |- returned ?r = false =>
      assert (H : forall v, r <> Ok v);
      [|destruct r; [exfalso; eapply H; reflexivity|reflexivity..]]
  end.
  intros v. unfold evaluate_function.
  rewrite Hext, Hfun. unfold bindM at 1. unfold read at 1. rewrite Hsub.
  unfold bindM at 1.
  destruct (peek st) as [[top| | |] st0]; cbn [fst]; try discriminate.
  unfold bindM at 1.
  match goal with
  | |- context [for_each ?f ?l st0] =>
      destruct (for_each f l st0) as [[u| | |] st1]
  end; cbn [fst]; try discriminate.
  apply body_without_return. exact Hno.
Qed.

Lemma subroutine_without_return_witness :
  returned (fst (evaluate_function example_interpreter
                   (Interp.visit_stmt example_interpreter 2) "f" []
                   void_state)) = false.
Proof.
  apply (subroutine_without_return example_interpreter 2 [] "f" "f" []
           [ExpressionStatement (IntegerLiteral 1)] None [] void_state);
    reflexivity.
Defined.

(** The call [f()] of the subroutine without [return] is reported as a
    function that was not found. *)
Lemma void_call_raises :
  fst (Interp.visit_expr example_interpreter 4 (FunctionCall "f" []) void_state)
  = Raise (Error UNHANDLED "function f not found").
Proof. vm_compute. reflexivity. Qed.

End SubroutineFacts.

Module ReducedFacts.
Import RemoveUnusedSpec RemoveUnusedFacts ReducedSpec RemoveUnusedM.

(** * What a pass of the dead-code elimination can do to a tree *)

Create HintDb reduced.

#[local] Hint Constructors reduced reduced_block : reduced.

Lemma reduced_block_length (nodes nodes' : list stmt) :
  reduced_block nodes nodes' -> (List.length nodes' <= List.length nodes)%nat.
Proof.
  revert nodes'. induction nodes as [|n rest IH]; intros nodes' H;
    inversion H; subst; cbn [List.length].
  - lia.
  - specialize (IH _ ltac:(eassumption)). lia.
  - specialize (IH _ ltac:(eassumption)). lia.
Qed.

Section Reducing.

Variable str_float : Q -> string.

Lemma _visit_list_reduces (nodes : list stmt) :
  Forall (reduces str_float) nodes ->
  forall self nodes' self',
    _visit_list str_float nodes self = Ok (nodes', self') ->
    reduced_block nodes nodes'.
Proof.
  induction 1 as [|n rest Hn _ IH]; intros self nodes' self' Hrun; simpl in Hrun.
  - injection Hrun as <- _. constructor.
  - destruct (visit_stmt str_float n self) as [[r s1]| | |] eqn:E1;
      try discriminate Hrun. simpl in Hrun.
    destruct (_visit_list str_float rest s1) as [[rs s2]| | |] eqn:E2;
      try discriminate Hrun. simpl in Hrun. injection Hrun as <- _.
    specialize (IH _ _ _ E2). specialize (Hn _ _ _ E1).
    destruct r as [n'|]; [|constructor; exact IH].
    constructor; [apply Hn; reflexivity|exact IH].
Qed.

Ltac run_update H :=
  match type of H with
  | context [update ?du ?self] =>
      destruct (update du self) as [?s0| | |]; try discriminate H;
      cbn [bind] in H
  end.

Ltac run_list H E :=
  match type of H with
  | context [_visit_list str_float ?l ?s] =>
      destruct (_visit_list str_float l s) as [[? ?]| | |] eqn:E;
      try discriminate H; cbn [bind] in H
  end.

Ltac run_result H :=
  repeat match type of H with
    | context [match ?x with Ok _ => _ | _ => _ end] =>
        destruct x; try discriminate H; cbn [bind] in H
    | context [bind ?x _] =>
        destruct x; try discriminate H; cbn [bind] in H
    | context [if ?b then _ else _] => destruct b
    | context [match ?x with Some _ => _ | None => _ end] => destruct x
    | context [match ?x with RExpr _ => _ | RMeasure _ => _ end] => destruct x
    end.

Ltac conclude H :=
  first
    [ discriminate H
    | injection H as <- _; intros node' Hnode';
      first [ discriminate Hnode'
            | injection Hnode' as <-; eauto with reduced ] ].

Lemma visit_stmt_reduces (node : stmt) : reduces str_float node.
Proof.
  induction node using stmt_induction; intros self res self' Hrun;
    cbn [visit_stmt] in Hrun; fold (_visit_list str_float) in Hrun;
    run_update Hrun.
  - conclude Hrun.
  - run_result Hrun; conclude Hrun.
  - run_result Hrun; conclude Hrun.
  - conclude Hrun.
  - run_list Hrun E. apply (_visit_list_reduces b H) in E.
    run_result Hrun; conclude Hrun.
  - run_list Hrun E. apply (_visit_list_reduces b H) in E.
    run_result Hrun; conclude Hrun.
  - run_list Hrun E. apply (_visit_list_reduces b H) in E.
    conclude Hrun.
  - run_result Hrun; conclude Hrun.
  - run_result Hrun; conclude Hrun.
  - unfold visit_QuantumMeasurement in Hrun.
    destruct t0; run_result Hrun; conclude Hrun.
  - unfold visit_QuantumMeasurement in Hrun.
    run_result Hrun; conclude Hrun.
  - run_list Hrun E1. apply (_visit_list_reduces i H) in E1.
    run_list Hrun E2. apply (_visit_list_reduces e H0) in E2.
    conclude Hrun.
  - run_list Hrun E. apply (_visit_list_reduces b H) in E.
    conclude Hrun.
  - run_list Hrun E. apply (_visit_list_reduces b H) in E.
    conclude Hrun.
  - conclude Hrun.
Qed.

(** X13: a pass of [RemoveUnused] only deletes: the statements of the
    program it returns are statements of the program it was given, in
    their order, each with statements of its blocks deleted and with a
    return type, a measurement target or a returned expression
    cleared; no statement is added, moved or rewritten, and none is
    longer than before. *)
Theorem RemoveUnused_only_deletes (node node' : Program) :
  RemoveUnused str_float node = Ok node' ->
  reduced_block (statements node) (statements node')
  /\ (List.length (statements node') <= List.length (statements node))%nat.
Proof.
  unfold RemoveUnused, visit_Program. intros Hrun.
  destruct (update _ init) as [s0| | |]; try discriminate Hrun. cbn [bind] in Hrun.
  destruct (_visit_list str_float (statements node) s0) as [[l s1]| | |] eqn:E;
    try discriminate Hrun.
  cbn [bind] in Hrun. injection Hrun as <-. cbn [statements].
  assert (Hall : Forall (reduces str_float) (statements node)).
  { apply Forall_forall. intros x _. apply visit_stmt_reduces. }
  pose proof (_visit_list_reduces _ Hall _ _ _ E) as Hred.
  split; [exact Hred|apply reduced_block_length, Hred].
Qed.

End Reducing.

Lemma RemoveUnused_only_deletes_witness :
  reduced_block (statements subroutine_program)
    (statements subroutine_program_reduced)
  /\ (List.length (statements subroutine_program_reduced)
      <= List.length (statements subroutine_program))%nat.
Proof.
  apply (RemoveUnused_only_deletes no_floats subroutine_program
           subroutine_program_reduced).
  vm_compute. reflexivity.
Defined.

End ReducedFacts.

Module UnusedFacts.
Import RemoveUnusedSpec RemoveUnusedFacts ReducedSpec ReducedFacts UnusedSpec DetermineUnused.

(** * The names [_DetermineUnused] reports *)

Lemma narrows_refl (du : t) : narrows du du.
Proof. split; [reflexivity|apply incl_refl]. Qed.

Lemma narrows_trans (a b c : t) : narrows a b -> narrows b c -> narrows a c.
Proof.
  intros [D1 U1] [D2 U2]. split; [congruence|].
  eapply incl_tran; eassumption.
Qed.

Lemma narrows_consistent (du du' : t) :
  narrows du du' -> consistent du -> consistent du'.
Proof.
  intros [D U] H. unfold consistent. rewrite D.
  eapply incl_tran; eassumption.
Qed.

Lemma set_mem_In (x : string) (sset : list string) :
  set_mem x sset = true <-> In x sset.
Proof.
  unfold set_mem. rewrite existsb_exists. split.
  - intros (y & Hy & E). apply String.eqb_eq in E. subst y. exact Hy.
  - intros H. exists x. split; [exact H|apply String.eqb_refl].
Qed.

Lemma set_add_In (x y : string) (sset : list string) :
  In y (set_add x sset) <-> In y sset \/ y = x.
Proof.
  unfold set_add. destruct (set_mem x sset) eqn:E.
  - apply set_mem_In in E. split; [tauto|]. intros [H | ->]; assumption.
  - rewrite in_app_iff. cbn [In]. intuition.
Qed.

Lemma set_discard_incl (x : string) (sset : list string) :
  incl (set_discard x sset) sset.
Proof. intros y H. apply filter_In in H. tauto. Qed.

Lemma declare_consistent (name : string) (du : t) :
  consistent du -> consistent (declare name du).
Proof.
  intros H y Hy. cbn [declare unused declared] in *.
  apply set_add_In in Hy. apply set_add_In.
  destruct Hy as [Hy | ->]; [left; exact (H y Hy)|right; reflexivity].
Qed.

Lemma visit_Identifier_narrows (name : string) (du : t) :
  narrows du (visit_Identifier name du).
Proof. split; [reflexivity|apply set_discard_incl]. Qed.

Lemma mark_used_narrows (signature : FunctionSignature) (du du' : t) :
  mark_used signature du = Ok du' -> narrows du du'.
Proof.
  unfold mark_used. intros H.
  destruct (FunctionSig.match_ signature (unused du)) as [[|m ms]| | |];
    try discriminate H; injection H as <-.
  - apply narrows_refl.
  - split; [reflexivity|apply set_discard_incl].
Qed.

Lemma fold_left_narrows {A : Type} (f : t -> A -> t) (l : list A) :
  Forall (fun x => forall du, narrows du (f du x)) l ->
  forall du, narrows du (fold_left f l du).
Proof.
  induction 1 as [|x l Hx _ IH]; intros du; cbn [fold_left].
  - apply narrows_refl.
  - eapply narrows_trans; [apply Hx|apply IH].
Qed.

Lemma visit_option_narrows {A : Type} (f : A -> t -> t) (x : option A) :
  match x with
  | Some a => forall du, narrows du (f a du)
  | None => True
  end ->
  forall du, narrows du (visit_option f x du).
Proof.
  intros H du. destruct x as [a|]; cbn [visit_option];
    [apply H|apply narrows_refl].
Qed.

Lemma visit_expr_narrows : forall (node : expr) (du : t),
  narrows du (visit_expr node du).
Proof.
  fix IH 1. intros node du. destruct node; cbn [visit_expr];
    try apply narrows_refl.
  - apply visit_Identifier_narrows.
  - apply fold_left_narrows.
    induction values as [|v vs IHl]; constructor; [|exact IHl].
    intros du0. apply IH.
  - eapply narrows_trans; apply IH.
  - eapply narrows_trans; [apply visit_Identifier_narrows|].
    apply fold_left_narrows.
    induction arguments as [|v vs IHl]; constructor; [|exact IHl].
    intros du0. apply IH.
  - eapply narrows_trans;
      [|apply visit_option_narrows; destruct step; [intros du0; apply IH|exact I]].
    eapply narrows_trans;
      [|apply visit_option_narrows; destruct end_; [intros du0; apply IH|exact I]].
    apply visit_option_narrows. destruct start; [intros du0; apply IH|exact I].
Qed.

Lemma visit_exprs_narrows (nodes : list expr) (du : t) :
  narrows du (visit_exprs nodes du).
Proof.
  unfold visit_exprs. apply fold_left_narrows.
  apply Forall_forall. intros x _ du0. apply visit_expr_narrows.
Qed.

Lemma visit_type_narrows : forall (node : ctype) (du : t),
  narrows du (visit_type node du).
Proof.
  fix IH 1. intros node du. destruct node; cbn [visit_type];
    try apply narrows_refl;
    try (apply visit_option_narrows; destruct size;
         [intros du0; apply visit_expr_narrows|exact I]).
  - apply visit_option_narrows.
    destruct base_type; [intros du0; apply IH|exact I].
  - eapply narrows_trans; [apply IH|apply visit_exprs_narrows].
Qed.

Lemma visit_QuantumMeasurement_narrows (m : QuantumMeasurement) (du du' : t) :
  visit_QuantumMeasurement m du = Ok du' -> narrows du du'.
Proof. apply mark_used_narrows. Qed.

Lemma visit_opt_rvalue_narrows (r : option rvalue) (du du' : t) :
  visit_opt_rvalue r du = Ok du' -> narrows du du'.
Proof.
  destruct r as [[e|m]|]; cbn [visit_opt_rvalue visit_rvalue]; intros H.
  - injection H as <-. apply visit_expr_narrows.
  - exact (visit_QuantumMeasurement_narrows m du du' H).
  - injection H as <-. apply narrows_refl.
Qed.

Lemma visit_sub_argument_narrows (a : sub_argument) (du : t) :
  narrows du (visit_sub_argument a du).
Proof.
  destruct a; cbn [visit_sub_argument].
  - eapply narrows_trans; [apply visit_type_narrows|apply visit_Identifier_narrows].
  - eapply narrows_trans; [apply visit_Identifier_narrows|].
    apply visit_option_narrows.
    destruct size; [intros du0; apply visit_expr_narrows|exact I].
Qed.

Lemma visit_defcal_argument_narrows (a : defcal_argument) (du : t) :
  narrows du (visit_defcal_argument a du).
Proof.
  destruct a; cbn [visit_defcal_argument].
  - eapply narrows_trans; [apply visit_type_narrows|apply visit_Identifier_narrows].
  - apply visit_expr_narrows.
Qed.

Lemma visit_qubits_narrows (qubits : list string) (du : t) :
  narrows du (fold_left (fun du qubit => visit_Identifier qubit du) qubits du).
Proof.
  apply fold_left_narrows. apply Forall_forall.
  intros x _ du0. apply visit_Identifier_narrows.
Qed.

Section Consistency.

Variable str_float : Q -> string.

Lemma visit_list_consistent (nodes : list stmt) :
  Forall (keeps_consistent str_float) nodes ->
  forall du du',
    visit_list str_float nodes du = Ok du' -> consistent du -> consistent du'.
Proof.
  induction 1 as [|n rest Hn _ IH]; intros du du' Hrun Hdu; simpl in Hrun.
  - injection Hrun as <-. exact Hdu.
  - destruct (visit_stmt str_float n du) as [du1| | |] eqn:E;
      try discriminate Hrun. cbn [bind] in Hrun.
    exact (IH _ _ Hrun (Hn _ _ E Hdu)).
Qed.

Lemma visit_stmt_consistent (node : stmt) : keeps_consistent str_float node.
Proof.
  induction node using stmt_induction; intros du du' Hrun Hdu;
    cbn [visit_stmt] in Hrun; fold (visit_list str_float) in Hrun.
  - injection Hrun as <-.
    exact (narrows_consistent _ _ (visit_expr_narrows _ _) Hdu).
  - apply visit_opt_rvalue_narrows in Hrun.
    apply (narrows_consistent _ _ Hrun).
    apply (narrows_consistent _ _ (visit_type_narrows _ _)).
    apply declare_consistent, Hdu.
  - injection Hrun as <-.
    apply (narrows_consistent _ _ (visit_expr_narrows _ _)).
    apply (narrows_consistent _ _ (visit_type_narrows _ _)).
    apply declare_consistent, Hdu.
  - injection Hrun as <-.
    apply (narrows_consistent _ _ (visit_expr_narrows _ _)).
    exact (narrows_consistent _ _ (visit_Identifier_narrows _ _) Hdu).
  - apply (visit_list_consistent b H _ _ Hrun).
    eapply narrows_consistent;
      [apply fold_left_narrows, Forall_forall;
       intros x _ du0; apply visit_sub_argument_narrows|].
    apply declare_consistent, Hdu.
  - destruct (signature_CalibrationDefinition _ _ _ _ _) as [sig| | |];
      try discriminate Hrun. cbn [bind] in Hrun.
    apply (visit_list_consistent b H _ _ Hrun).
    apply (narrows_consistent _ _ (visit_qubits_narrows _ _)).
    eapply narrows_consistent;
      [apply fold_left_narrows, Forall_forall;
       intros x _ du0; apply visit_defcal_argument_narrows|].
    apply declare_consistent, Hdu.
  - exact (visit_list_consistent b H _ _ Hrun Hdu).
  - destruct (signature_QuantumGate _ _ _ _) as [sig| | |];
      try discriminate Hrun. cbn [bind] in Hrun.
    destruct (mark_used sig du) as [du1| | |] eqn:E; try discriminate Hrun.
    cbn [bind] in Hrun. injection Hrun as <-.
    apply (narrows_consistent _ _ (visit_exprs_narrows _ _)).
    exact (narrows_consistent _ _ (mark_used_narrows _ _ _ E) Hdu).
  - exact (narrows_consistent _ _ (mark_used_narrows _ _ _ Hrun) Hdu).
  - destruct (visit_QuantumMeasurement m du) as [du1| | |] eqn:E;
      try discriminate Hrun. cbn [bind] in Hrun. injection Hrun as <-.
    eapply narrows_consistent;
      [apply visit_option_narrows;
       destruct t0; [intros du0; apply visit_Identifier_narrows|exact I]|].
    exact (narrows_consistent _ _ (visit_QuantumMeasurement_narrows _ _ _ E) Hdu).
  - exact (narrows_consistent _ _ (visit_opt_rvalue_narrows _ _ _ Hrun) Hdu).
  - destruct (visit_list str_float i _) as [du1| | |] eqn:E;
      try discriminate Hrun. cbn [bind] in Hrun.
    apply (visit_list_consistent e H0 _ _ Hrun).
    apply (visit_list_consistent i H _ _ E).
    exact (narrows_consistent _ _ (visit_expr_narrows _ _) Hdu).
  - apply (visit_list_consistent b H _ _ Hrun).
    exact (narrows_consistent _ _ (visit_expr_narrows _ _) Hdu).
  - apply (visit_list_consistent b H _ _ Hrun).
    apply (narrows_consistent _ _ (visit_expr_narrows _ _)).
    apply (narrows_consistent _ _ (visit_Identifier_narrows _ _)).
    exact (narrows_consistent _ _ (visit_type_narrows _ _) Hdu).
  - injection Hrun as <-.
    apply (narrows_consistent _ _ (visit_qubits_narrows _ _)).
    exact (narrows_consistent _ _ (visit_expr_narrows _ _) Hdu).
Qed.

(** X12: every name [_DetermineUnused] reports as unused after the
    visit of a program is a name it reports as declared. *)
Theorem unused_names_are_declared (node : Program) (du : t) :
  of_Program str_float node = Ok du -> incl (unused du) (declared du).
Proof.
  intros H. unfold of_Program, visit_Program in H.
  refine (visit_list_consistent _ _ _ _ H _).
  - apply Forall_forall. intros x _. apply visit_stmt_consistent.
  - intros x [].
Qed.

End Consistency.

Lemma unused_names_are_declared_witness :
  incl (unused (mk ["f"; "u"; "w"] ["u"; "w"]))
    (declared (mk ["f"; "u"; "w"] ["u"; "w"])).
Proof.
  apply (unused_names_are_declared no_floats subroutine_program).
  vm_compute. reflexivity.
Defined.

End UnusedFacts.

Module SurvivalFacts.
Import RemoveUnusedSpec RemoveUnusedFacts ReducedSpec ReducedFacts UnusedSpec UnusedFacts SurvivalSpec.

(** * Which declarations a pass removes *)

(** ** [_DetermineUnused] never forgets a declaration *)

Lemma extends_refl (du : DetermineUnused.t) : extends du du.
Proof. apply incl_refl. Qed.

Lemma extends_trans (a b c : DetermineUnused.t) :
  extends a b -> extends b c -> extends a c.
Proof. apply incl_tran. Qed.

Lemma narrows_extends (du du' : DetermineUnused.t) :
  narrows du du' -> extends du du'.
Proof. intros [D _]. unfold extends. rewrite D. apply incl_refl. Qed.

Lemma declare_extends (name : string) (du : DetermineUnused.t) :
  extends du (DetermineUnused.declare name du).
Proof. intros y Hy. apply set_add_In. left. exact Hy. Qed.

Lemma declare_declared (name : string) (du : DetermineUnused.t) :
  In name (DetermineUnused.declared (DetermineUnused.declare name du)).
Proof. apply set_add_In. right. reflexivity. Qed.

Section Declared.

Variable str_float : Q -> string.

Lemma visit_list_extends (nodes : list stmt) :
  Forall (keeps_declared str_float) nodes ->
  forall du du',
    DetermineUnused.visit_list str_float nodes du = Ok du' -> extends du du'.
Proof.
  induction 1 as [|n rest Hn _ IH]; intros du du' Hrun; simpl in Hrun.
  - injection Hrun as <-. apply extends_refl.
  - destruct (DetermineUnused.visit_stmt str_float n du) as [du1| | |] eqn:E;
      try discriminate Hrun. cbn [bind] in Hrun.
    exact (extends_trans _ _ _ (Hn _ _ E) (IH _ _ Hrun)).
Qed.

Ltac step_narrow :=
  first
    [ apply narrows_extends, visit_expr_narrows
    | apply narrows_extends, visit_exprs_narrows
    | apply narrows_extends, visit_type_narrows
    | apply narrows_extends, visit_Identifier_narrows
    | apply narrows_extends, visit_qubits_narrows
    | apply declare_extends ].

Ltac chain := repeat (eapply extends_trans; [|solve [step_narrow]]).

Lemma visit_stmt_extends (node : stmt) : keeps_declared str_float node.
Proof.
  induction node using stmt_induction; intros du du' Hrun;
    cbn [DetermineUnused.visit_stmt] in Hrun;
    fold (DetermineUnused.visit_list str_float) in Hrun.
  - injection Hrun as <-. step_narrow.
  - apply visit_opt_rvalue_narrows, narrows_extends in Hrun.
    eapply extends_trans; [|exact Hrun]. chain. apply extends_refl.
  - injection Hrun as <-. chain. apply extends_refl.
  - injection Hrun as <-. chain. apply extends_refl.
  - eapply extends_trans; [|exact (visit_list_extends b H _ _ Hrun)].
    eapply extends_trans;
      [|apply narrows_extends, fold_left_narrows, Forall_forall;
        intros x _ du0; apply visit_sub_argument_narrows].
    apply declare_extends.
  - destruct (signature_CalibrationDefinition _ _ _ _ _) as [sig| | |];
      try discriminate Hrun. cbn [bind] in Hrun.
    eapply extends_trans; [|exact (visit_list_extends b H _ _ Hrun)].
    eapply extends_trans; [|solve [step_narrow]].
    eapply extends_trans;
      [|apply narrows_extends, fold_left_narrows, Forall_forall;
        intros x _ du0; apply visit_defcal_argument_narrows].
    apply declare_extends.
  - exact (visit_list_extends b H _ _ Hrun).
  - destruct (signature_QuantumGate _ _ _ _) as [sig| | |];
      try discriminate Hrun. cbn [bind] in Hrun.
    destruct (DetermineUnused.mark_used sig du) as [du1| | |] eqn:E;
      try discriminate Hrun.
    cbn [bind] in Hrun. injection Hrun as <-.
    eapply extends_trans; [|solve [step_narrow]].
    exact (narrows_extends _ _ (mark_used_narrows _ _ _ E)).
  - exact (narrows_extends _ _ (mark_used_narrows _ _ _ Hrun)).
  - destruct (DetermineUnused.visit_QuantumMeasurement m du) as [du1| | |] eqn:E;
      try discriminate Hrun. cbn [bind] in Hrun. injection Hrun as <-.
    eapply extends_trans;
      [exact (narrows_extends _ _ (visit_QuantumMeasurement_narrows _ _ _ E))|].
    apply narrows_extends, visit_option_narrows.
    match goal with
    | |- match ?target with _ => _ end => destruct target
    end; [intros du0; apply visit_Identifier_narrows|exact I].
  - exact (narrows_extends _ _ (visit_opt_rvalue_narrows _ _ _ Hrun)).
  - destruct (DetermineUnused.visit_list str_float i _) as [du1| | |] eqn:E;
      try discriminate Hrun. cbn [bind] in Hrun.
    eapply extends_trans; [|exact (visit_list_extends e H0 _ _ Hrun)].
    eapply extends_trans; [|exact (visit_list_extends i H _ _ E)].
    step_narrow.
  - eapply extends_trans; [|exact (visit_list_extends b H _ _ Hrun)].
    step_narrow.
  - eapply extends_trans; [|exact (visit_list_extends b H _ _ Hrun)].
    chain. apply extends_refl.
  - injection Hrun as <-. chain. apply extends_refl.
Qed.

Lemma declaration_declared (node : stmt) (name : string)
    (du du' : DetermineUnused.t) :
  declares node name ->
  DetermineUnused.visit_stmt str_float node du = Ok du' ->
  In name (DetermineUnused.declared du').
Proof.
  intros [(type & init & ->) | (type & init & ->)] Hrun;
    cbn [DetermineUnused.visit_stmt] in Hrun.
  - apply visit_opt_rvalue_narrows in Hrun. destruct Hrun as [-> _].
    rewrite (proj1 (visit_type_narrows _ _)). apply declare_declared.
  - injection Hrun as <-.
    rewrite (proj1 (visit_expr_narrows _ _)),
      (proj1 (visit_type_narrows _ _)).
    apply declare_declared.
Qed.

(** A declaration among the statements visited is among the declared
    names. *)
Lemma visit_list_declared (nodes : list stmt) :
  forall du du' node name,
    DetermineUnused.visit_list str_float nodes du = Ok du' ->
    In node nodes -> declares node name ->
    In name (DetermineUnused.declared du').
Proof.
  induction nodes as [|n rest IH]; intros du du' node name Hrun Hin Hdecl;
    [contradiction|]. simpl in Hrun.
  destruct (DetermineUnused.visit_stmt str_float n du) as [du1| | |] eqn:E;
    try discriminate Hrun. cbn [bind] in Hrun.
  destruct Hin as [-> | Hin].
  - assert (Hext : extends du1 du').
    { refine (visit_list_extends rest _ _ _ Hrun).
      apply Forall_forall. intros x _. apply visit_stmt_extends. }
    apply Hext. exact (declaration_declared _ _ _ _ Hdecl E).
  - exact (IH _ _ _ _ Hrun Hin Hdecl).
Qed.

End Declared.

(** ** The sets of a transformer during a pass *)

Lemma same_sets_refl (self : RemoveUnusedM.t) : same_sets self self.
Proof. split; reflexivity. Qed.

Lemma same_sets_trans (a b c : RemoveUnusedM.t) :
  same_sets a b -> same_sets b c -> same_sets a c.
Proof. intros [U1 D1] [U2 D2]. split; congruence. Qed.

Lemma same_sets_computed (self self' : RemoveUnusedM.t) :
  same_sets self self' -> computed self -> computed self'.
Proof. unfold computed. intros [-> ->]. exact id. Qed.

Lemma update_computed (du : result DetermineUnused.t) (self : RemoveUnusedM.t) :
  computed self -> RemoveUnusedM.update du self = Ok self.
Proof. unfold computed, RemoveUnusedM.update. intros ->. reflexivity. Qed.

Section Survival.

Variable str_float : Q -> string.

Lemma _visit_list_keeps_sets (nodes : list stmt) :
  Forall (keeps_sets str_float) nodes ->
  forall self nodes' self',
    RemoveUnusedM._visit_list str_float nodes self = Ok (nodes', self') ->
    computed self -> same_sets self self'.
Proof.
  induction 1 as [|n rest Hn _ IH]; intros self nodes' self' Hrun Hself;
    simpl in Hrun.
  - injection Hrun as _ <-. apply same_sets_refl.
  - destruct (RemoveUnusedM.visit_stmt str_float n self) as [[r s1]| | |] eqn:E1;
      try discriminate Hrun. simpl in Hrun.
    destruct (RemoveUnusedM._visit_list str_float rest s1) as [[rs s2]| | |] eqn:E2;
      try discriminate Hrun. simpl in Hrun. injection Hrun as _ <-.
    specialize (Hn _ _ _ E1 Hself).
    exact (same_sets_trans _ _ _ Hn
             (IH _ _ _ E2 (same_sets_computed _ _ Hn Hself))).
Qed.

Ltac run_list H E :=
  match type of H with
  | context [RemoveUnusedM._visit_list str_float ?l ?s] =>
      destruct (RemoveUnusedM._visit_list str_float l s) as [[? ?]| | |] eqn:E;
      try discriminate H; cbn [bind] in H
  end.

Ltac run_result H :=
  repeat match type of H with
    | context [match ?x with Ok _ => _ | _ => _ end] =>
        destruct x; try discriminate H; cbn [bind] in H
    | context [bind ?x _] =>
        destruct x; try discriminate H; cbn [bind] in H
    | context [if ?b then _ else _] => destruct b
    | context [match ?x with Some _ => _ | None => _ end] => destruct x
    | context [match ?x with RExpr _ => _ | RMeasure _ => _ end] => destruct x
    end.

Ltac conclude H :=
  first
    [ discriminate H
    | injection H as _ <-;
      first [ apply same_sets_refl | assumption
            | eapply same_sets_trans; eassumption ] ].

Lemma visit_stmt_keeps_sets (node : stmt) : keeps_sets str_float node.
Proof.
  induction node using stmt_induction; intros self res self' Hrun Hself;
    cbn [RemoveUnusedM.visit_stmt] in Hrun;
    fold (RemoveUnusedM._visit_list str_float) in Hrun;
    rewrite (update_computed _ _ Hself) in Hrun; cbn [bind] in Hrun.
  - conclude Hrun.
  - run_result Hrun; conclude Hrun.
  - run_result Hrun; conclude Hrun.
  - conclude Hrun.
  - run_list Hrun E. apply (_visit_list_keeps_sets b H) in E; [|exact Hself].
    run_result Hrun; conclude Hrun.
  - run_list Hrun E. apply (_visit_list_keeps_sets b H) in E; [|exact Hself].
    run_result Hrun; try conclude Hrun.
    all: injection Hrun as _ <-; exact E.
  - run_list Hrun E. apply (_visit_list_keeps_sets b H) in E; [|exact Hself].
    conclude Hrun.
  - run_result Hrun; conclude Hrun.
  - run_result Hrun; conclude Hrun.
  - unfold RemoveUnusedM.visit_QuantumMeasurement in Hrun.
    run_result Hrun; conclude Hrun.
  - unfold RemoveUnusedM.visit_QuantumMeasurement in Hrun.
    run_result Hrun; conclude Hrun.
  - run_list Hrun E1.
    apply (_visit_list_keeps_sets i H) in E1; [|exact Hself].
    run_list Hrun E2.
    apply (_visit_list_keeps_sets e H0) in E2;
      [|exact (same_sets_computed _ _ E1 Hself)].
    conclude Hrun.
  - run_list Hrun E. apply (_visit_list_keeps_sets b H) in E; [|exact Hself].
    conclude Hrun.
  - run_list Hrun E. apply (_visit_list_keeps_sets b H) in E; [|exact Hself].
    conclude Hrun.
  - conclude Hrun.
Qed.

(** The visit of a declaration by a transformer whose sets are
    computed. *)
Lemma visit_declaration (node : stmt) (name : string) (self : RemoveUnusedM.t) :
  declares node name -> computed self ->
  RemoveUnusedM.visit_stmt str_float node self
  = Ok (if set_mem name (RemoveUnusedM.unused self) then None else Some node,
        self).
Proof.
  intros [(type & init & ->) | (type & init & ->)] Hself;
    cbn [RemoveUnusedM.visit_stmt];
    rewrite (update_computed _ _ Hself); cbn [bind];
    destruct (set_mem name (RemoveUnusedM.unused self)); reflexivity.
Qed.

Lemma reduced_declaration (node node' : stmt) (name : string) :
  declares node' name -> reduced node node' -> node = node'.
Proof.
  intros [(type & init & ->) | (type & init & ->)] H; inversion H; reflexivity.
Qed.

Lemma _visit_list_declarations (nodes : list stmt) :
  forall self nodes' self',
    RemoveUnusedM._visit_list str_float nodes self = Ok (nodes', self') ->
    computed self ->
    forall node name,
      declares node name ->
      (In node nodes'
       <-> In node nodes /\ set_mem name (RemoveUnusedM.unused self) = false).
Proof.
  induction nodes as [|n rest IH]; intros self nodes' self' Hrun Hself
    node name Hdecl; simpl in Hrun.
  - injection Hrun as <- _. simpl. tauto.
  - destruct (RemoveUnusedM.visit_stmt str_float n self) as [[r s1]| | |] eqn:E1;
      try discriminate Hrun. simpl in Hrun.
    destruct (RemoveUnusedM._visit_list str_float rest s1) as [[rs s2]| | |] eqn:E2;
      try discriminate Hrun. simpl in Hrun. injection Hrun as <- _.
    pose proof (visit_stmt_keeps_sets n _ _ _ E1 Hself) as Hsets.
    pose proof (IH _ _ _ E2 (same_sets_computed _ _ Hsets Hself) _ _ Hdecl)
      as Hrest.
    destruct Hsets as [HU _]. rewrite HU in Hrest.
    assert (Hhead : r = Some node
                    <-> n = node
                        /\ set_mem name (RemoveUnusedM.unused self) = false).
    { split.
      - intros ->.
        pose proof (visit_stmt_reduces str_float n _ _ _ E1 _ eq_refl) as Hred.
        apply (reduced_declaration _ _ _ Hdecl) in Hred. subst n.
        rewrite (visit_declaration _ _ _ Hdecl Hself) in E1.
        destruct (set_mem name (RemoveUnusedM.unused self));
          [discriminate E1|split; reflexivity].
      - intros [-> Hmem].
        rewrite (visit_declaration _ _ _ Hdecl Hself), Hmem in E1.
        injection E1 as <- _. reflexivity. }
    destruct r as [n'|]; cbn [In]; rewrite Hrest.
    + split.
      * intros [-> | [Hin Hmem]];
          [destruct (proj1 Hhead eq_refl) as [-> Hmem]|]; tauto.
      * intros [[-> | Hin] Hmem]; [left|right; tauto].
        pose proof (proj2 Hhead (conj eq_refl Hmem)) as Heq.
        injection Heq as ->. reflexivity.
    + split; [tauto|].
      intros [[-> | Hin] Hmem]; [|tauto].
      discriminate (proj2 Hhead (conj eq_refl Hmem)).
Qed.

(** X14: a classical or constant declaration among the statements of
    a program is among the statements of the program that a pass of
    [RemoveUnused] returns exactly when its name is not among the
    names that [_DetermineUnused] reports as unused. *)
Theorem declaration_kept_iff_used (node node' : Program)
    (du : DetermineUnused.t) (declaration : stmt) (name : string) :
  DetermineUnused.of_Program str_float node = Ok du ->
  RemoveUnusedM.RemoveUnused str_float node = Ok node' ->
  declares declaration name ->
  In declaration (statements node) ->
  (In declaration (statements node')
   <-> ~ In name (DetermineUnused.unused du)).
Proof.
  intros Hdu Hrun Hdecl Hin.
  pose proof (visit_list_declared str_float _ _ _ _ _ Hdu Hin Hdecl) as Hname.
  unfold RemoveUnusedM.RemoveUnused, RemoveUnusedM.visit_Program in Hrun.
  rewrite Hdu in Hrun. cbn in Hrun.
  set (self := RemoveUnusedM.mk (DetermineUnused.unused du)
                 (DetermineUnused.declared du) []) in Hrun.
  destruct (RemoveUnusedM._visit_list str_float (statements node) self)
    as [[l s1]| | |] eqn:E; try discriminate Hrun.
  cbn [bind] in Hrun. injection Hrun as <-. cbn [statements].
  assert (Hself : computed self).
  { unfold computed, self. cbn.
    destruct (DetermineUnused.declared du); [destruct Hname|].
    apply andb_false_r. }
  rewrite (_visit_list_declarations _ _ _ _ E Hself _ _ Hdecl).
  unfold self. cbn [RemoveUnusedM.unused].
  split.
  - intros [_ Hmem] Hunused. apply set_mem_In in Hunused. congruence.
  - intros Hunused. split; [exact Hin|].
    destruct (set_mem name (DetermineUnused.unused du)) eqn:Hmem;
      [|reflexivity].
    apply set_mem_In in Hmem. contradiction.
Qed.

End Survival.

Lemma declaration_kept_iff_used_witness :
  In (ClassicalDeclaration (IntType None) "w" None)
    (statements subroutine_program_reduced)
  <-> ~ In "w" (DetermineUnused.unused (DetermineUnused.mk ["f"; "u"; "w"] ["u"; "w"])).
Proof.
  apply (declaration_kept_iff_used no_floats subroutine_program
           subroutine_program_reduced).
  - vm_compute. reflexivity.
  - vm_compute. reflexivity.
  - left. exists (IntType None), None. reflexivity.
  - cbn. right. left. reflexivity.
Defined.

End SurvivalFacts.
